(** * AutoScholar: the comparison and recommendation logic of the front end

    A shallow embedding of the four computations of the search-results
    page ([extractPoints], [computeDiffs], [buildFallbackEvidenceGraph],
    src/frontend/src/pages/HomePage.jsx) and of the client-side fallback of
    the profile page's recommendation effect ([compute], the ProfilePage
    component), followed by the properties proved about them; and of the
    code around them: the summary cards of the compare dialog, the filter
    handlers, the card width and the page count of the search-results page,
    and the author lists, the interests of the edit dialog and the
    references of a draft of the profile page.

    Modelling conventions.
    - A JavaScript string is its sequence of UTF-16 code units ([jsstring]);
      [length] is the JavaScript [length].
    - Values that arrive from the backend are JSON values ([value]).
    - A thrown [TypeError] is the [Throw] outcome of the [result] monad.
    - Number formatting and Unicode case mapping are built-ins of the
      language, not code of the repository: they are the operations of the
      classes [Numbers] and [Casing], and every theorem holds for all of
      them.
    - The object [unique] of [computeDiffs] is the finite map from a
      property name to the array that [unique[name]] reads. A plain object
      inherits the accessor [__proto__]: the assignment
      [unique['__proto__'] = []] creates no property, it makes the array
      the prototype of the object, and [unique['__proto__']] reads it back.
      The entry of the map under [__proto__] stands for that prototype; the
      own keys of the object are the other names ([own_key]).
    - A handler of a component is the function from the state it reads (and
      its argument) to the state it sets; years and pages are integers.
    - A result count is a natural number; its division by ten is the one
      of doubles, the quotient rounded to 53 significant bits. *)

From Stdlib Require Import NArith ZArith List Bool Lia Ascii String Decimal DecimalNat Sorting.Permutation Sorting.Sorted.
From stdpp Require Import base option list gmap.

Local Open Scope N_scope.

(** ** Strings *)

Abbreviation jsstring := (list N).

(** A literal of the source, as code units (the literals of this program are ASCII). *)
Definition js (s : string) : jsstring := map N_of_ascii (list_ascii_of_string s).
Arguments js : simpl never.

(** The white space of [\s] and of [String.prototype.trim]: WhiteSpace and
    LineTerminator of ECMA-262. *)
Definition is_space (c : N) : bool :=
  (c =? 9) || (c =? 10) || (c =? 11) || (c =? 12) || (c =? 13) || (c =? 32)
  || (c =? 160) || (c =? 5760) || ((8192 <=? c) && (c <=? 8202))
  || (c =? 8232) || (c =? 8233) || (c =? 8239) || (c =? 8287)
  || (c =? 12288) || (c =? 65279).

(** [[A-Za-z0-9]] *)
Definition is_alnum (c : N) : bool :=
  ((65 <=? c) && (c <=? 90)) || ((97 <=? c) && (c <=? 122)) || ((48 <=? c) && (c <=? 57)).

(** [[\.\?\!]] *)
Definition is_terminator (c : N) : bool := (c =? 46) || (c =? 63) || (c =? 33).

(** [[-•\s]]: hyphen, U+2022, white space. *)
Definition is_marker (c : N) : bool := (c =? 45) || (c =? 8226) || is_space c.

Definition jseq (a b : jsstring) : bool := bool_decide (a = b).

Fixpoint uint_digits (d : Decimal.uint) : jsstring :=
  match d with
  | Decimal.Nil => []
  | Decimal.D0 d => 48 :: uint_digits d
  | Decimal.D1 d => 49 :: uint_digits d
  | Decimal.D2 d => 50 :: uint_digits d
  | Decimal.D3 d => 51 :: uint_digits d
  | Decimal.D4 d => 52 :: uint_digits d
  | Decimal.D5 d => 53 :: uint_digits d
  | Decimal.D6 d => 54 :: uint_digits d
  | Decimal.D7 d => 55 :: uint_digits d
  | Decimal.D8 d => 56 :: uint_digits d
  | Decimal.D9 d => 57 :: uint_digits d
  end.

(** A loop index inside a template literal, or used as a property key. *)
Definition decimal (n : nat) : jsstring := uint_digits (Nat.to_uint n).
Arguments decimal : simpl never.

(** ** Outcomes *)

Inductive result (A : Type) : Type :=
| Ok (a : A)
| Throw.
Arguments Ok {A} a.
Arguments Throw {A}.

Definition bind {A B : Type} (r : result A) (k : A -> result B) : result B :=
  match r with
  | Ok a => k a
  | Throw => Throw
  end.

Notation "'let*' x ':=' e 'in' k" := (bind e (fun x => k))
  (at level 10, x name, e at level 100, k at level 200).

(** [xs.map(f)] when [f] can throw. *)
Fixpoint mapM {A B : Type} (f : A -> result B) (xs : list A) : result (list B) :=
  match xs with
  | [] => Ok []
  | x :: rest =>
      let* y := f x in
      let* ys := mapM f rest in
      Ok (y :: ys)
  end.

(** A loop that threads an accumulator and can throw. *)
Fixpoint foldM {A S : Type} (f : S -> A -> result S) (xs : list A) (s : S) : result S :=
  match xs with
  | [] => Ok s
  | x :: rest =>
      let* s' := f s x in
      foldM f rest s'
  end.

(** ** Built-ins and values *)

(** The number built-ins, for any representation [num] of the numbers. *)
Class Numbers (num : Type) : Type := {
  (** ToBoolean on a number: false for zeros and NaN. *)
  num_truthy : num -> bool;
  (** [String(n)] *)
  num_toString : num -> jsstring;
  (** [n.toFixed(3)] *)
  num_toFixed3 : num -> jsstring
}.

(** The case mapping of strings. *)
Class Casing : Type := {
  (** [s.toLowerCase()] *)
  toLowerCase : jsstring -> jsstring
}.

#[warnings="-register-all"]
Inductive value {num : Type} : Type :=
| VUndef
| VNull
| VBool (b : bool)
| VNum (n : num)
| VStr (s : jsstring)
| VArr (xs : list value)
| VObj (fields : list (jsstring * value)).
Arguments value num : clear implicits.

Section Values.
Context {num : Type} {numbers : Numbers num} {casing : Casing}.

#[local] Abbreviation value := (value num).

(** ToBoolean. *)
Definition truthy (v : value) : bool :=
  match v with
  | VUndef | VNull => false
  | VBool b => b
  | VNum n => num_truthy n
  | VStr s => negb (bool_decide (s = []))
  | VArr _ | VObj _ => true
  end.

(** [a || b] *)
Definition or_else (a b : value) : value := if truthy a then a else b.

(** [a ?? b] *)
Definition nullish (a b : value) : value :=
  match a with
  | VUndef | VNull => b
  | _ => a
  end.

(** An own property of an object. *)
Fixpoint own (k : jsstring) (fields : list (jsstring * value)) : value :=
  match fields with
  | [] => VUndef
  | (k', v) :: rest => if jseq k k' then v else own k rest
  end.

Definition has_own (k : jsstring) (fields : list (jsstring * value)) : bool :=
  existsb (fun kv => jseq k (fst kv)) fields.

(** [v.k] for the property names this program reads by name ([papers],
    [paper_id], [paperId], [summary], [id], [title], [name], [abstract],
    [evidence_graph], [edges], [metrics], [embedding_similarity],
    [keyword_overlap], [savedPapers], [searchHistory], [query], [results],
    [doi]): none of them is a member of a built-in prototype, an index or
    [length], so only an object can hold one. Reading a property of
    [undefined] or [null] throws. *)
Definition get (v : value) (k : jsstring) : result value :=
  match v with
  | VUndef | VNull => Throw
  | VObj fields => Ok (own k fields)
  | VBool _ | VNum _ | VStr _ | VArr _ => Ok VUndef
  end.

(** [v[i]] for a loop index [i]. *)
Definition index (v : value) (i : nat) : result value :=
  match v with
  | VUndef | VNull => Throw
  | VArr xs => Ok (nth i xs VUndef)
  | VObj fields => Ok (own (decimal i) fields)
  | VStr s => Ok (match nth_error s i with Some c => VStr [c] | None => VUndef end)
  | VBool _ | VNum _ => Ok VUndef
  end.

(** [String(v)]. An array joins its elements with a comma, [null] and
    [undefined] elements printing as the empty string; an object prints as
    [[object Object]] unless it has an own [toString] member, which (being
    JSON data, never a function) makes the conversion throw. *)
Fixpoint to_string (v : value) : result jsstring :=
  match v with
  | VUndef => Ok (js "undefined")
  | VNull => Ok (js "null")
  | VBool true => Ok (js "true")
  | VBool false => Ok (js "false")
  | VNum n => Ok (num_toString n)
  | VStr s => Ok s
  | VArr xs =>
      (fix join (first : bool) (xs : list value) : result jsstring :=
         match xs with
         | [] => Ok []
         | x :: rest =>
             let* s := match x with
                       | VUndef | VNull => Ok []
                       | _ => to_string x
                       end in
             let* t := join false rest in
             Ok ((if first then [] else js ",") ++ s ++ t)
         end) true xs
  | VObj fields => if has_own (js "toString") fields then Throw else Ok (js "[object Object]")
  end.

Definition is_array (v : value) : bool :=
  match v with
  | VArr _ => true
  | _ => false
  end.

Definition is_undefined (v : value) : bool :=
  match v with
  | VUndef => true
  | _ => false
  end.

(** The elements of a truthy value on which an array method ([map],
    [forEach]) is called: anything but an array has no such method. *)
Definition elements_of (v : value) : result (list value) :=
  match v with
  | VArr xs => Ok xs
  | _ => Throw
  end.

End Values.

(** ** The evidence graph (buildFallbackEvidenceGraph) *)

Record node {num : Type} : Type := {
  node_id : jsstring;
  node_title : value num
}.
Arguments node num : clear implicits.

Record evidence_record {num : Type} : Type := {
  ref_id : jsstring;
  label : jsstring;
  similarity : value num;
  shared_keywords : list (value num)
}.
Arguments evidence_record num : clear implicits.

Record edge {num : Type} : Type := {
  source : jsstring;
  target : jsstring;
  relation : jsstring;
  evidence : list (evidence_record num)
}.
Arguments edge num : clear implicits.

(** What the function returns: the backend's [evidence_graph] object as it
    came, or a graph built here. *)
Inductive graph {num : Type} : Type :=
| Backend (g : value num)
| Synthesized (nodes : list (node num)) (edges : list (edge num)).
Arguments graph num : clear implicits.

Section EvidenceGraph.
Context {num : Type} {numbers : Numbers num} {casing : Casing}.

#[local] Abbreviation value := (value num).

(** [s => ({ id: String(s.id), title: s.title || s.name || String(s.id) })] *)
Definition make_node (s : value) : result (node num) :=
  let* id := get s (js "id") in
  let* sid := to_string id in
  let* title := get s (js "title") in
  let* name := get s (js "name") in
  Ok {| node_id := sid; node_title := or_else title (or_else name (VStr sid)) |}.

(** [sim.toFixed ? sim.toFixed(3) : String(sim)]: only a number has the
    method; an own [toFixed] member of an object is data, and calling it
    throws when it is truthy; reading the member of [null] throws. *)
Definition format_similarity (sim : value) : result jsstring :=
  match sim with
  | VUndef | VNull => Throw
  | VNum n => Ok (num_toFixed3 n)
  | VObj fields => if truthy (own (js "toFixed") fields) then Throw else to_string sim
  | VBool _ | VStr _ | VArr _ => to_string sim
  end.

(** [m && m[i] && typeof m[i][j] !== 'undefined'], with the entry read. *)
Definition entry (m : value) (i j : nat) : result (option value) :=
  if truthy m then
    let* row := index m i in
    if truthy row then
      let* e := index row j in
      Ok (if is_undefined e then None else Some e)
    else Ok None
  else Ok None.

(** The values of [sim] and [label] after the first [if] of the loop body. *)
Definition similarity_label (emb : value) (i j : nat) : result (value * jsstring) :=
  let* e := entry emb i j in
  match e with
  | Some sim =>
      let* text := format_similarity sim in
      Ok (sim, js "Semantic similarity " ++ text)
  | None => Ok (VNull, js "Semantic relation")
  end.

(** The value of [shared] after the second [if]: the empty array on both paths. *)
Definition shared_of (kw : value) (i j : nat) : result (list value) :=
  let* e := entry kw i j in
  match e with
  | Some _ => Ok []
  | None => Ok []
  end.

(** [nodes[i].id] *)
Definition node_id_at (nodes : list (node num)) (i : nat) : result jsstring :=
  match nodes !! i with
  | Some n => Ok (node_id n)
  | None => Throw
  end.

(** The body of the inner loop: two pushes onto [edges]. *)
Definition pair_body (emb kw : value) (nodes : list (node num)) (i : nat)
    (edges : list (edge num)) (j : nat) : result (list (edge num)) :=
  let* sl := similarity_label emb i j in
  let* shared := shared_of kw i j in
  let ev := [ {| ref_id := js "client:semantic:" ++ decimal i ++ js "-" ++ decimal j;
                 label := snd sl; similarity := fst sl; shared_keywords := shared |} ] in
  let* si := node_id_at nodes i in
  let* tj := node_id_at nodes j in
  let* sj := node_id_at nodes j in
  let* ti := node_id_at nodes i in
  Ok (edges ++ [ {| source := si; target := tj; relation := js "semantic_similarity"; evidence := ev |};
                 {| source := sj; target := ti; relation := js "semantic_similarity"; evidence := ev |} ]).

(** [for (let j = i + 1; j < nodes.length; j++)] *)
Definition row_loop (emb kw : value) (nodes : list (node num))
    (edges : list (edge num)) (i : nat) : result (list (edge num)) :=
  foldM (pair_body emb kw nodes i) (seq (S i) (length nodes - S i)) edges.

(** [(compareResult.metrics || {}).name || null] *)
Definition metric (compareResult : value) (name : jsstring) : result value :=
  let* m := get compareResult (js "metrics") in
  let* e := get (or_else m (VObj [])) name in
  Ok (or_else e VNull).

Definition buildFallbackEvidenceGraph (compareResult : value) (selected : list value)
    : result (graph num) :=
  if negb (truthy compareResult) then Ok (Synthesized [] []) else
  let* eg := get compareResult (js "evidence_graph") in
  let* backend :=
    (if truthy eg then
       let* es := get eg (js "edges") in
       match es with
       | VArr (_ :: _) => Ok true
       | _ => Ok false
       end
     else Ok false) in
  if (backend : bool) then Ok (Backend eg) else
  let* nodes := mapM make_node selected in
  let* emb := metric compareResult (js "embedding_similarity") in
  let* kw := metric compareResult (js "keyword_overlap") in
  let* edges := foldM (row_loop emb kw nodes) (seq 0 (length nodes)) [] in
  Ok (Synthesized nodes edges).

End EvidenceGraph.

(** ** Points (extractPoints) *)

(** [(c :: p) :: ps]: the code unit [c] joins the fragment being read. *)
Definition cons_head (c : N) (ps : list jsstring) : list jsstring :=
  match ps with
  | [] => [[c]]
  | p :: rest => (c :: p) :: rest
  end.

(** [text.split(/\n|\r|(?<=[\.\?\!])\s+/)] on a non-empty string, read left
    to right. A line feed or carriage return is a separator of its own (the
    first two alternatives are tried first); any other white space after a
    terminator starts the greedy [\s+], which then runs over all following
    white space ([in_gap]). [prev_term] tells whether the code unit just
    before is one of [. ? !] (the lookbehind). The last fragment is the rest
    of the string, empty when the string ends in a separator. *)
Fixpoint split_points (in_gap prev_term : bool) (s : jsstring) : list jsstring :=
  match s with
  | [] => [[]]
  | c :: rest =>
      if in_gap && is_space c then split_points true false rest
      else if (c =? 10) || (c =? 13) then [] :: split_points false false rest
      else if prev_term && is_space c then [] :: split_points true false rest
      else cons_head c (split_points false (is_terminator c) rest)
  end.

Fixpoint drop_while (p : N -> bool) (s : jsstring) : jsstring :=
  match s with
  | [] => []
  | c :: rest => if p c then drop_while p rest else s
  end.

(** [s.trim()] *)
Definition trim (s : jsstring) : jsstring :=
  rev (drop_while is_space (rev (drop_while is_space s))).

(** [s.replace(/^[-•\s]+/, '')] *)
Definition strip_markers (s : jsstring) : jsstring := drop_while is_marker s.

Definition nonempty (s : jsstring) : bool := negb (bool_decide (s = [])).

Section Points.
Context {num : Type} {numbers : Numbers num} {casing : Casing}.

#[local] Abbreviation value := (value num).

(** Only a string has [split]; any other truthy value makes the call throw. *)
Definition extractPoints (text : value) : result (list jsstring) :=
  if negb (truthy text) then Ok [] else
  match text with
  | VStr s =>
      let raw := map strip_markers (List.filter nonempty (map trim (split_points false false s))) in
      Ok (List.filter (fun s => 20 <? length s)%nat raw)
  | _ => Throw
  end.

End Points.

(** ** Differences (computeDiffs) *)

Record summary_entry {num : Type} : Type := {
  entry_id : jsstring;
  entry_text : value num
}.
Arguments summary_entry num : clear implicits.

Record aligned_paper {num : Type} : Type := {
  aligned_id : jsstring;
  aligned_title : value num;
  aligned_text : value num
}.
Arguments aligned_paper num : clear implicits.

(** A value of [sentenceMap]: the text first seen for the key, and the
    [Set] of paper ids, in insertion order. *)
Record point : Type := {
  point_text : jsstring;
  point_papers : list jsstring
}.

(** What [computeDiffs] returns. [unique !! k] is the array that an
    assignment [unique[k] = []] has put under [k] and that [unique[k]] then
    reads: an own property of the object for every name but [__proto__],
    and for [__proto__] the prototype that the assignment gave the object
    (the inherited setter creates no own property). *)
Record diffs : Type := {
  common : list jsstring;
  unique : gmap jsstring (list jsstring)
}.

(** [Set.prototype.add] *)
Definition set_add (x : jsstring) (s : list jsstring) : list jsstring :=
  if existsb (jseq x) s then s else s ++ [x].

(** [Map.prototype.has] *)
Definition map_has (k : jsstring) (m : list (jsstring * point)) : bool :=
  existsb (fun kv => jseq k (fst kv)) m.

(** [sentenceMap.get(key).papers.add(id)] *)
Fixpoint add_paper (k id : jsstring) (m : list (jsstring * point)) : list (jsstring * point) :=
  match m with
  | [] => []
  | (k', v) :: rest =>
      if jseq k k'
      then (k', {| point_text := point_text v; point_papers := set_add id (point_papers v) |}) :: rest
      else (k', v) :: add_paper k id rest
  end.

Section Diffs.
Context {num : Type} {numbers : Numbers num} {casing : Casing}.

#[local] Abbreviation value := (value num).

(** [p => ({ id: String(p.paper_id || p.paperId || p.paper_id || p.paper_id),
            text: p.summary || '' })] *)
Definition make_entry (p : value) : result (summary_entry num) :=
  let* a := get p (js "paper_id") in
  let* b := get p (js "paperId") in
  let* id := to_string (or_else a (or_else b (or_else a a))) in
  let* s := get p (js "summary") in
  Ok {| entry_id := id; entry_text := or_else s (VStr []) |}.

(** The callback of [selected.map] that builds [aligned]. *)
Definition align (per : list (summary_entry num)) (s : value) : result (aligned_paper num) :=
  let* id := get s (js "id") in
  let* sid := to_string id in
  let found := List.find (fun x => jseq (entry_id x) sid) per in
  let* title := get s (js "title") in
  let* name := get s (js "name") in
  let* abstract := get s (js "abstract") in
  let* summary := get s (js "summary") in
  Ok {| aligned_id := sid;
        aligned_title := or_else title name;
        aligned_text := match found with
                        | Some x => entry_text x
                        | None => or_else abstract (or_else summary (VStr []))
                        end |}.

(** The body of [pts.forEach]. *)
Definition record_point (id : jsstring) (m : list (jsstring * point)) (pt : jsstring)
    : list (jsstring * point) :=
  let key := toLowerCase pt in
  let m1 := if map_has key m then m
            else m ++ [(key, {| point_text := pt; point_papers := [] |})] in
  add_paper key id m1.

(** The body of the first [aligned.forEach]. *)
Definition accumulate (m : list (jsstring * point)) (a : aligned_paper num)
    : result (list (jsstring * point)) :=
  let* pts := extractPoints (aligned_text a) in
  Ok (fold_left (record_point (aligned_id a)) pts m).

(** The body of the loop over [sentenceMap.entries()]; [unique[only]] is
    [undefined] for a key that was never assigned, and [push] on it throws. *)
Definition classify (n : nat) (cu : list jsstring * gmap jsstring (list jsstring))
    (kv : jsstring * point) : result (list jsstring * gmap jsstring (list jsstring)) :=
  let v := snd kv in
  if (length (point_papers v) =? n)%nat then Ok (fst cu ++ [point_text v], snd cu)
  else if (length (point_papers v) =? 1)%nat then
    match point_papers v with
    | only :: _ =>
        match snd cu !! only with
        | Some l => Ok (fst cu, <[only := l ++ [point_text v]]> (snd cu))
        | None => Throw
        end
    | [] => Throw
    end
  else Ok cu.

Definition computeDiffs (compareResult : value) (selected : list value) : result diffs :=
  if negb (truthy compareResult) then Ok {| common := []; unique := ∅ |} else
  let* papers := get compareResult (js "papers") in
  if negb (truthy papers) then Ok {| common := []; unique := ∅ |} else
  let* ps := elements_of papers in
  let* per := mapM make_entry ps in
  let* aligned := mapM (align per) selected in
  let* sentenceMap := foldM accumulate aligned [] in
  let unique0 := fold_left (fun u a => <[aligned_id a := []]> u) aligned ∅ in
  let* cu := foldM (classify (length aligned)) sentenceMap ([], unique0) in
  Ok {| common := fst cu; unique := snd cu |}.

End Diffs.

(** ** Recommendations (the fallback of compute, ProfilePage) *)

(** [t.split(/[^A-Za-z0-9]+/)]: the fragments between the maximal runs of
    code units outside [[A-Za-z0-9]]; a leading or trailing run leaves an
    empty first or last fragment, and the empty string gives one empty
    fragment. [in_run] tells whether the code unit just before was part of a
    separator. *)
Fixpoint split_tokens (in_run : bool) (s : jsstring) : list jsstring :=
  match s with
  | [] => [[]]
  | c :: rest =>
      if is_alnum c then cons_head c (split_tokens false rest)
      else if in_run then split_tokens true rest
      else [] :: split_tokens true rest
  end.

Definition stopwords : list jsstring :=
  [js "using"; js "based"; js "paper"; js "study"; js "approach"; js "model"; js "method"].

(** [w.length > 3 && ![...].includes(w)] *)
Definition counted (w : jsstring) : bool :=
  (3 <? length w)%nat && negb (existsb (jseq w) stopwords).

(** [freq[w] = (freq[w] || 0) + 1] on the own properties of [freq], kept in
    creation order. The table stands for the object as long as no key is
    [constructor], the one lower-case alphanumeric name a plain object
    inherits (its inherited value is not a count). *)
Fixpoint bump (w : jsstring) (freq : list (jsstring * nat)) : list (jsstring * nat) :=
  match freq with
  | [] => [(w, 1%nat)]
  | (k, n) :: rest => if jseq w k then (k, S n) :: rest else (k, n) :: bump w rest
  end.

Definition is_digit (c : N) : bool := (48 <=? c) && (c <=? 57).

Definition digits_value (s : jsstring) : N :=
  fold_left (fun acc c => 10 * acc + (c - 48)) s 0.

(** The array index a property key denotes, if any: the canonical decimal
    string of an integer below 2^32 - 1. *)
Definition array_index (k : jsstring) : option N :=
  match k with
  | [] => None
  | c :: rest =>
      if forallb is_digit k && ((negb (c =? 48)) || bool_decide (rest = []))
         && (digits_value k <? 4294967295)
      then Some (digits_value k) else None
  end.

Fixpoint insert_index (x : N * (jsstring * nat)) (l : list (N * (jsstring * nat)))
    : list (N * (jsstring * nat)) :=
  match l with
  | [] => [x]
  | y :: rest => if fst x <? fst y then x :: l else y :: insert_index x rest
  end.

(** The own keys of [freq] that are array indices, with their entries, in
    ascending numeric order. *)
Fixpoint index_entries (freq : list (jsstring * nat)) : list (N * (jsstring * nat)) :=
  match freq with
  | [] => []
  | kv :: rest =>
      match array_index (fst kv) with
      | Some i => insert_index (i, kv) (index_entries rest)
      | None => index_entries rest
      end
  end.

(** [Object.entries(freq)]: array-index keys first, in ascending numeric
    order, then the other keys in creation order. *)
Definition object_entries (freq : list (jsstring * nat)) : list (jsstring * nat) :=
  map snd (index_entries freq)
  ++ List.filter (fun kv => negb (bool_decide (is_Some (array_index (fst kv))))) freq.

(** [.sort((a,b) => b[1]-a[1])]: the sort of the language is stable, and all
    stable sorts agree; here each entry is put before the first entry of the
    sorted rest whose count is not larger. *)
Fixpoint insert_desc (x : jsstring * nat) (l : list (jsstring * nat)) : list (jsstring * nat) :=
  match l with
  | [] => [x]
  | y :: rest => if (snd x <? snd y)%nat then y :: insert_desc x rest else x :: l
  end.

Definition sort_desc (l : list (jsstring * nat)) : list (jsstring * nat) :=
  fold_right insert_desc [] l.

(** [xs.some(f)] when [f] can throw. *)
Fixpoint someM {A : Type} (f : A -> result bool) (xs : list A) : result bool :=
  match xs with
  | [] => Ok false
  | x :: rest =>
      let* b := f x in
      if (b : bool) then Ok true else someM f rest
  end.

(** A loop inside [try { ... } catch { }] whose body changes the state only
    as its last step: the state when the loop ends or a step throws, and
    whether it ran to its end. *)
Fixpoint run_until_throw {A S : Type} (f : S -> A -> result S) (xs : list A) (s : S) : S * bool :=
  match xs with
  | [] => (s, true)
  | x :: rest =>
      match f s x with
      | Ok s' => run_until_throw f rest s'
      | Throw => (s, false)
      end
  end.

Section Recommendations.
Context {num : Type} {numbers : Numbers num} {casing : Casing}.

#[local] Abbreviation value := (value num).

(** The parsed body of the search endpoint's answer to a query, [VNull] when
    the request failed or was not ok. *)
Variable search : jsstring -> value.

(** The body of [t.split(...).forEach]. *)
Definition tally_token (freq : list (jsstring * nat)) (tok : jsstring) : list (jsstring * nat) :=
  let w := toLowerCase tok in
  if counted w then bump w freq else freq.

(** The frequency table of a corpus of strings. *)
Definition tally (texts : list jsstring) : list (jsstring * nat) :=
  fold_left (fun freq t => fold_left tally_token (split_tokens false t) freq) texts [].

(** [Object.entries(freq).sort(...).slice(0, 8).map(([k]) => k)] *)
Definition ranked (freq : list (jsstring * nat)) : list jsstring :=
  map fst (firstn 8 (sort_desc (object_entries freq))).

Definition topics_of (texts : list jsstring) : list jsstring := ranked (tally texts).

(** A text of the corpus as the receiver of [split]: only a string has it. *)
Definition text_of (t : value) : result jsstring :=
  match t with
  | VStr s => Ok s
  | _ => Throw
  end.

(** [String(p.id ?? p.paper_id ?? p.doi ?? p.title)] *)
Definition derived_id (p : value) : result jsstring :=
  let* a := get p (js "id") in
  let* b := get p (js "paper_id") in
  let* c := get p (js "doi") in
  let* d := get p (js "title") in
  to_string (nullish a (nullish b (nullish c d))).

(** [p => String(p.id)] *)
Definition saved_id (p : value) : result jsstring :=
  let* a := get p (js "id") in
  to_string a.

(** The body of [(list || []).forEach]. *)
Definition consider (savedIds : list jsstring) (candidatePapers : list value) (p : value)
    : result (list value) :=
  let* pid := derived_id p in
  if existsb (jseq pid) savedIds then Ok candidatePapers else
  let* dup := someM (fun cp => let* c := derived_id cp in Ok (jseq c pid)) candidatePapers in
  if (dup : bool) then Ok candidatePapers else Ok (candidatePapers ++ [p]).

(** The body of [results.forEach]; the flag tells whether it ran to its end. *)
Definition merge_result (savedIds : list jsstring) (candidatePapers : list value) (res : value)
    : list value * bool :=
  if negb (truthy res) then (candidatePapers, true) else
  match get res (js "results"), get res (js "papers") with
  | Ok r, Ok ps =>
      let l := if is_array r then r else or_else r (or_else ps (VArr [])) in
      match elements_of (or_else l (VArr [])) with
      | Ok items => run_until_throw (consider savedIds) items candidatePapers
      | Throw => (candidatePapers, false)
      end
  | _, _ => (candidatePapers, false)
  end.

(** [results.forEach(...)] inside the [try]: a throw ends the merge and
    keeps the candidates pushed so far. *)
Fixpoint merge_results (savedIds : list jsstring) (results : list value)
    (candidatePapers : list value) : list value :=
  match results with
  | [] => candidatePapers
  | res :: rest =>
      match merge_result savedIds candidatePapers res with
      | (c, true) => merge_results savedIds rest c
      | (c, false) => c
      end
  end.

Record recommendations : Type := {
  topics : list jsstring;
  papers : list value
}.

(** The client-side fallback of [compute], from the profile to the argument
    of [setRecommendations]. *)
Definition compute_fallback (prof : value) : result recommendations :=
  let* sp := get prof (js "savedPapers") in
  let* saved := elements_of (or_else sp (VArr [])) in
  let* titles := mapM (fun p => get p (js "title")) saved in
  let* sh := get prof (js "searchHistory") in
  let* history := elements_of (or_else sh (VArr [])) in
  let* queries := mapM (fun h => get h (js "query")) (firstn 10 history) in
  let* texts := mapM text_of (List.filter truthy (titles ++ queries)) in
  let tops := topics_of texts in
  let* savedIds := mapM saved_id saved in
  let results := map search (firstn 4 tops) in
  let candidatePapers := merge_results savedIds results [] in
  Ok {| topics := tops; papers := firstn 10 candidatePapers |}.

End Recommendations.

(** ** Separated lists (formatAuthors, openEdit, saveProfile, runNovelty; ProfilePage) *)

(** [xs.join(sep)] on strings. *)
Fixpoint join_with (sep : jsstring) (xs : list jsstring) : jsstring :=
  match xs with
  | [] => []
  | x :: rest =>
      match rest with
      | [] => x
      | _ :: _ => x ++ sep ++ join_with sep rest
      end
  end.

(** [s.split(sep)] for a separator that matches exactly one code unit (a
    one-character string, or a pattern such as [/\n|,|;/]): the fragments
    between the separators, one more than there are separators. *)
Fixpoint split_on (sep : N -> bool) (s : jsstring) : list jsstring :=
  match s with
  | [] => [[]]
  | c :: rest => if sep c then [] :: split_on sep rest else cons_head c (split_on sep rest)
  end.

(** [','] *)
Definition is_comma (c : N) : bool := c =? 44.

(** [/\n|,|;/] *)
Definition is_reference_separator (c : N) : bool := (c =? 10) || (c =? 44) || (c =? 59).

(** [s.split(sep).map(s => s.trim()).filter(Boolean)] *)
Definition items (sep : N -> bool) (s : jsstring) : list jsstring :=
  List.filter nonempty (map trim (split_on sep s)).

(** The form of the edit dialog; [interests] is the text of its field. *)
Record edit_form {num : Type} : Type := {
  form_name : value num;
  form_email : value num;
  form_institution : value num;
  form_bio : value num;
  form_interests : jsstring
}.
Arguments edit_form num : clear implicits.

(** The object [updated] that [saveProfile] hands to the profile storage. *)
Record profile_update {num : Type} : Type := {
  update_id : value num;
  update_name : value num;
  update_email : value num;
  update_institution : value num;
  update_bio : value num;
  update_interests : list jsstring
}.
Arguments profile_update num : clear implicits.

Section ProfilePage.
Context {num : Type} {numbers : Numbers num}.

#[local] Abbreviation value := (value num).

(** What an element contributes to [join]: nothing when it is [undefined]
    or [null], its string coercion otherwise. *)
Definition element_string (x : value) : result jsstring :=
  match x with
  | VUndef | VNull => Ok []
  | _ => to_string x
  end.

(** [a => { if (!a) return ''; if (typeof a === 'string') return a;
           if (typeof a === 'object') return a.name || a.full_name || a.author || a;
           return String(a); }]
    ([full_name] and [author], like [name], are members of objects only.) *)
Definition author_name (a : value) : result value :=
  if negb (truthy a) then Ok (VStr []) else
  match a with
  | VStr _ => Ok a
  | VArr _ | VObj _ =>
      let* n := get a (js "name") in
      let* f := get a (js "full_name") in
      let* au := get a (js "author") in
      Ok (or_else n (or_else f (or_else au a)))
  | _ =>
      let* s := to_string a in
      Ok (VStr s)
  end.

Definition formatAuthors (authors : value) : result jsstring :=
  if negb (truthy authors) then Ok [] else
  match authors with
  | VArr xs =>
      let* names := mapM author_name xs in
      let* parts := mapM element_string (List.filter truthy names) in
      Ok (join_with (js ", ") parts)
  | VStr s => Ok s
  | _ => Ok []
  end.

(** [openEdit], from the stored profile to the argument of [setForm]; only
    an array has [join]. *)
Definition openEdit (p : value) : result (edit_form num) :=
  let* n := get p (js "name") in
  let* e := get p (js "email") in
  let* i := get p (js "institution") in
  let* b := get p (js "bio") in
  let* ints := get p (js "interests") in
  let* xs := elements_of (or_else ints (VArr [])) in
  let* parts := mapM element_string xs in
  Ok {| form_name := or_else n (VStr []);
        form_email := or_else e (VStr []);
        form_institution := or_else i (VStr []);
        form_bio := or_else b (VStr []);
        form_interests := join_with (js ", ") parts |}.

(** [saveProfile], from the profile of the page and the form to the
    argument of [profileStorage.updateProfile]. *)
Definition saveProfile (profile : value) (form : edit_form num) : result (profile_update num) :=
  let* id := get profile (js "id") in
  Ok {| update_id := id;
        update_name := form_name form;
        update_email := form_email form;
        update_institution := form_institution form;
        update_bio := form_bio form;
        update_interests := items is_comma (form_interests form) |}.

(** The constant [refs] of [runNovelty], from [draftForm.references]: only
    a string has [split]. *)
Definition refs (references : value) : result (list jsstring) :=
  match or_else references (VStr []) with
  | VStr s => Ok (items is_reference_separator s)
  | _ => Throw
  end.

End ProfilePage.

(** ** The filters of the search page (SearchResultsPage) *)

Fixpoint take_while (p : N -> bool) (s : jsstring) : jsstring :=
  match s with
  | [] => []
  | c :: rest => if p c then c :: take_while p rest else []
  end.

(** [parseInt(s, 10)], [None] for [NaN]: leading white space is skipped, one
    sign is read, and the longest run of decimal digits that follows is the
    value. (The language rounds an integer beyond 2^53 to a double; the
    rounding keeps the order between the value and a year, which is all
    this program asks of it.) *)
Definition parseInt (s : jsstring) : option Z :=
  let t := drop_while is_space s in
  let sr := match t with
            | 45 :: r => (true, r)
            | 43 :: r => (false, r)
            | _ => (false, t)
            end in
  match take_while is_digit (snd sr) with
  | [] => None
  | ds => Some (if fst sr then (- Z.of_N (digits_value ds))%Z else Z.of_N (digits_value ds))
  end.

(** The filter state of the page: the year range, the selected topics and
    the page of the results. *)
Record filters : Type := {
  yearRange : Z * Z;
  selectedTopics : list jsstring;
  page : Z
}.

(** [prev.includes(topic) ? prev.filter(t => t !== topic) : [...prev, topic]],
    then [setPage(1)]. *)
Definition handleTopicChange (topic : jsstring) (st : filters) : filters :=
  {| yearRange := yearRange st;
     selectedTopics :=
       if existsb (jseq topic) (selectedTopics st)
       then List.filter (fun t => negb (jseq t topic)) (selectedTopics st)
       else selectedTopics st ++ [topic];
     page := 1 |}.

(** [input] is [e.target.value]. On [NaN] the range is set to its own two
    years and the page is left alone. *)
Definition handleYearFromChange (input : jsstring) (st : filters) : filters :=
  match parseInt input with
  | None => st
  | Some val =>
      let from := Z.max 1900 (Z.min val (snd (yearRange st))) in
      {| yearRange := (from, snd (yearRange st));
         selectedTopics := selectedTopics st; page := 1 |}
  end.

(** [now] is [new Date().getFullYear()]. *)
Definition handleYearToChange (now : Z) (input : jsstring) (st : filters) : filters :=
  match parseInt input with
  | None => st
  | Some val =>
      let to := Z.min now (Z.max val (fst (yearRange st))) in
      {| yearRange := (fst (yearRange st), to);
         selectedTopics := selectedTopics st; page := 1 |}
  end.

(** [Math.max(3, Math.floor(12 / Math.max(1, selected.length)))] *)
Definition compareColMd (selected_length : nat) : nat :=
  Nat.max 3 (12 / Nat.max 1 selected_length).

(** The natural number nearest to [a / b], the even one of two that are
    equally near. *)
Definition round_div (a b : N) : N :=
  let q := a / b in
  let r := a mod b in
  if 2 * r <? b then q
  else if b <? 2 * r then q + 1
  else if N.even q then q else q + 1.

(** A double that is not negative: [numerator / 2 ^ scale]. *)
Record dyadic : Type := { numerator : N; scale : N }.

(** [a / 10] for a double [a] whose value is a natural number: the quotient
    rounded to 53 significant bits, ties to even. With [la] the position of
    the leading bit of [a], the quotient scaled by [2 ^ (t - la)] lies
    between [2 ^ 52] and [2 ^ 53], so the rounding to a natural number at
    that scale is the rounding to 53 bits; for a negative [t - la] the
    divisor is scaled instead. *)
Definition divide_by_ten (a : N) : dyadic :=
  if a =? 0 then {| numerator := 0; scale := 0 |} else
  let la := N.log2 a in
  let t := if 5 * 2 ^ la <=? 4 * a then 55 else 56 in
  if la <=? t
  then {| numerator := round_div (a * 2 ^ (t - la)) 10; scale := t - la |}
  else {| numerator := round_div a (10 * 2 ^ (la - t)) * 2 ^ (la - t); scale := 0 |}.

(** [Math.ceil(x)] *)
Definition ceil (x : dyadic) : N :=
  if numerator x mod 2 ^ scale x =? 0 then numerator x / 2 ^ scale x
  else numerator x / 2 ^ scale x + 1.

(** [Math.max(1, Math.ceil((data.count || 0) / 10))] for a count that is a
    natural number (an absent count is 0). The division is the one of
    doubles. *)
Definition totalPages (count : N) : N := N.max 1 (ceil (divide_by_ten count)).

(** ** The summary cards of the compare dialog (SearchResultsPage) *)

(** [xs.find(f)] when [f] can throw. *)
Fixpoint findM {A : Type} (f : A -> result bool) (xs : list A) : result (option A) :=
  match xs with
  | [] => Ok None
  | x :: rest =>
      let* b := f x in
      if (b : bool) then Ok (Some x) else findM f rest
  end.

Section SummaryCards.
Context {num : Type} {numbers : Numbers num}.

#[local] Abbreviation value := (value num).

(** [summaryText] of the card of the selected paper [p]:
    [summaryObj = (compareResult.papers || []).find(x => String(x.paper_id) === String(p.id)) || {}],
    then [summaryObj.summary || p.abstract || p.summary || '(no summary available)'].
    The dialog shows the cards for a truthy [compareResult] only. *)
Definition summaryText (compareResult p : value) : result value :=
  let* papers := get compareResult (js "papers") in
  let* xs := elements_of (or_else papers (VArr [])) in
  let* found := findM (fun x =>
                         let* a := get x (js "paper_id") in
                         let* sa := to_string a in
                         let* i := get p (js "id") in
                         let* si := to_string i in
                         Ok (jseq sa si)) xs in
  let summaryObj := or_else (default VUndef found) (VObj []) in
  let* s := get summaryObj (js "summary") in
  if truthy s then Ok s else
  let* ab := get p (js "abstract") in
  if truthy ab then Ok ab else
  let* sm := get p (js "summary") in
  Ok (or_else sm (VStr (js "(no summary available)"))).

End SummaryCards.

(** ** The comparison request (runCompare, SearchResultsPage) *)

(** What happens inside the [try] of [runCompare]: an exception (thrown by
    [String(s.id)], by [fetch] or by [res.json()] of an ok response), whose
    string coercion is [text]; a response that is not ok, with its status,
    its status text and its body when that is JSON; an ok response with
    its JSON body. *)
Inductive compare_outcome {num : Type} : Type :=
| Thrown (text : jsstring)
| Refused (status : nat) (statusText : jsstring) (errBody : option (value num))
| Answered (data : value num).
Arguments compare_outcome num : clear implicits.

Section CompareRequest.
Context {num : Type} {numbers : Numbers num}.

#[local] Abbreviation value := (value num).

(** The argument of [setCompareResult]:
    [{ error: errBody || res.statusText || `HTTP ${res.status}` }],
    [data], or [{ error: String(err) }]. *)
Definition runCompare (o : compare_outcome num) : value :=
  match o with
  | Thrown text => VObj [(js "error", VStr text)]
  | Refused status statusText errBody =>
      VObj [(js "error",
             or_else (default VNull errBody)
               (or_else (VStr statusText) (VStr (js "HTTP " ++ decimal status))))]
  | Answered data => data
  end.

End CompareRequest.

(** ** The built-ins on integers and ASCII text

    An instance for the examples below: integer-valued numbers (whose
    [toFixed(3)] appends three zeros) and strings of ASCII code units (whose
    lower-casing moves [A-Z] to [a-z]). *)

Definition Z_toString (z : Z) : jsstring :=
  match z with
  | Z0 => js "0"
  | Zpos p => decimal (Pos.to_nat p)
  | Zneg p => js "-" ++ decimal (Pos.to_nat p)
  end.

Definition ascii_lower (c : N) : N :=
  if (65 <=? c) && (c <=? 90) then c + 32 else c.

#[export] Instance integer_numbers : Numbers Z := {|
  num_truthy := fun z => negb (Z.eqb z 0);
  num_toString := Z_toString;
  num_toFixed3 := fun z => Z_toString z ++ js ".000"
|}.

#[export] Instance ascii_casing : Casing := {|
  toLowerCase := map ascii_lower
|}.

(** An object literal with string-valued members. *)
Definition obj (fields : list (string * value Z)) : value Z :=
  VObj (map (fun kv => (js (fst kv), snd kv)) fields).

Definition str (s : string) : value Z := VStr (js s).

(** * Vocabulary of the statements *)

(** ** The evidence graph *)

(** The pairs [(i, j)] the two loops visit, in the order they visit them. *)
Definition pairs (n : nat) : list (nat * nat) :=
  flat_map (fun i => map (pair i) (seq (S i) (n - S i))) (seq 0 n).

(** The edge from position [i] to position [j] of the selection. *)
Definition directed_edge {num : Type} (ids : list jsstring) (i j : nat)
    (ev : list (evidence_record num)) : edge num :=
  {| source := nth i ids []; target := nth j ids [];
     relation := js "semantic_similarity"; evidence := ev |}.

Section EvidenceGraphVocabulary.
Context {num : Type} {numbers : Numbers num} {casing : Casing}.

#[local] Abbreviation value := (value num).

(** The backend supplied an evidence graph whose [edges] is a non-empty array. *)
Definition backend_edges (cr eg : value) : Prop :=
  get cr (js "evidence_graph") = Ok eg /\
  exists e es, get eg (js "edges") = Ok (VArr (e :: es)).

(** The synthesis, when the comparison result is present and brings no edges. *)
Definition synthesize (cr : value) (sel : list value) : result (graph num) :=
  let* nodes := mapM make_node sel in
  let* emb := metric cr (js "embedding_similarity") in
  let* kw := metric cr (js "keyword_overlap") in
  let* edges := foldM (row_loop emb kw nodes) (seq 0 (length nodes)) [] in
  Ok (Synthesized nodes edges).

(** The evidence array the loop body builds for the pair [(i, j)]. *)
Definition evidence_between (emb kw : value) (i j : nat) : result (list (evidence_record num)) :=
  let* sl := similarity_label emb i j in
  let* shared := shared_of kw i j in
  Ok [ {| ref_id := js "client:semantic:" ++ decimal i ++ js "-" ++ decimal j;
          label := snd sl; similarity := fst sl; shared_keywords := shared |} ].

(** The same, as a total function (empty where the body throws). *)
Definition evidence_of (emb kw : value) (i j : nat) : list (evidence_record num) :=
  match evidence_between emb kw i j with
  | Ok ev => ev
  | Throw => []
  end.

(** The two edges pushed for a pair. *)
Definition edge_pair (ids : list jsstring) (ev : list (evidence_record num)) (i j : nat)
    : list (edge num) :=
  [directed_edge ids i j ev; directed_edge ids j i ev].

Definition pair_edges (emb kw : value) (nodes : list (node num)) (p : nat * nat)
    : result (list (edge num)) :=
  let* ev := evidence_between emb kw (fst p) (snd p) in
  let* _ := node_id_at nodes (fst p) in
  let* _ := node_id_at nodes (snd p) in
  Ok (edge_pair (map node_id nodes) ev (fst p) (snd p)).

(** The single evidence record of the pair [(i, j)]. *)
Definition evidence_at (emb : value) (i j : nat) : evidence_record num :=
  let sl := match similarity_label emb i j with
            | Ok sl => sl
            | Throw => (VNull, [])
            end in
  {| ref_id := js "client:semantic:" ++ decimal i ++ js "-" ++ decimal j;
     label := snd sl; similarity := fst sl; shared_keywords := [] |}.

(** The edges of a synthesized graph, pair by pair. *)
Definition edges_of (ids : list jsstring) (emb : value) (n : nat) : list (edge num) :=
  flat_map (fun p => [directed_edge ids (fst p) (snd p) [evidence_at emb (fst p) (snd p)];
                      directed_edge ids (snd p) (fst p) [evidence_at emb (fst p) (snd p)]])
    (pairs n).

End EvidenceGraphVocabulary.

(** ** Points and differences *)

(** The fragments occur in the text one after the other, without overlap:
    the text is a gap, the first fragment, and a text in which the others
    occur in order. *)
Inductive occur_in_order : list jsstring -> jsstring -> Prop :=
| occur_none (s : jsstring) : occur_in_order [] s
| occur_next (gap f rest : jsstring) (fs : list jsstring) :
    occur_in_order fs rest -> occur_in_order (f :: fs) (gap ++ f ++ rest).

(** The points of the selection as the two nested loops meet them: each
    with the id of its paper. *)
Definition stream (data : list (jsstring * list jsstring)) : list (jsstring * jsstring) :=
  flat_map (fun d => map (pair (fst d)) (snd d)) data.

(** The texts pushed onto [common] by the last loop over a sentence map. *)
Definition commons (n : nat) (m : list (jsstring * point)) : list jsstring :=
  map (fun kv => point_text (snd kv))
    (List.filter (fun kv => (length (point_papers (snd kv)) =? n)%nat) m).

(** The texts pushed onto [unique[id]]. *)
Definition uniques (n : nat) (id : jsstring) (m : list (jsstring * point)) : list jsstring :=
  map (fun kv => point_text (snd kv))
    (List.filter (fun kv => negb (length (point_papers (snd kv)) =? n)%nat
                            && bool_decide (point_papers (snd kv) = [id])) m).

(** The own property keys of the object [unique]: the names under which it
    holds an array, [__proto__] apart (what is assigned under that name
    becomes the prototype, not a property). *)
Definition own_key (d : diffs) (k : jsstring) : Prop :=
  k <> js "__proto__" /\ is_Some (unique d !! k).

Section DiffsVocabulary.
Context {num : Type} {numbers : Numbers num} {casing : Casing}.

#[local] Abbreviation value := (value num).

(** The display text of a key: the first point met whose lower-casing is the key. *)
Definition display (k : jsstring) (st : list (jsstring * jsstring)) : option jsstring :=
  snd <$> List.find (fun ip => jseq (toLowerCase (snd ip)) k) st.

(** The ids of the papers that own a key (one of their points lower-cases
    to it), in selection order. *)
Definition owners (k : jsstring) (data : list (jsstring * list jsstring)) : list jsstring :=
  map fst (List.filter (fun d => existsb (fun pt => jseq (toLowerCase pt) k) (snd d)) data).

(** [sentenceMap] after the points of a stream were recorded. *)
Definition sentence_map (st : list (jsstring * jsstring)) (m : list (jsstring * point))
    : list (jsstring * point) :=
  fold_left (fun m ip => record_point (fst ip) m (snd ip)) st m.

Definition map_invariant (m : list (jsstring * point)) (st : list (jsstring * jsstring)) : Prop :=
  NoDup (map fst m)
  /\ (forall k v, In (k, v) m ->
        toLowerCase (point_text v) = k
        /\ display k st = Some (point_text v)
        /\ NoDup (point_papers v)
        /\ forall id, In id (point_papers v) <-> exists pt, In (id, pt) st /\ toLowerCase pt = k)
  /\ (forall id pt, In (id, pt) st -> In (toLowerCase pt) (map fst m)).

(** The identifier under which a backend summary is filed. *)
Definition backend_id (p : value) : result jsstring :=
  let* a := get p (js "paper_id") in
  let* b := get p (js "paperId") in
  to_string (if truthy a then a else if truthy b then b else a).

End DiffsVocabulary.

(** ** Topics and recommendations *)

(** A text cut at its runs of non-alphanumeric code units: alphanumeric
    fragments (possibly empty at either end) with a non-empty run between
    each two. *)
Inductive tokenized : jsstring -> list jsstring -> Prop :=
| tokenized_last (tok : jsstring) :
    Forall (fun c => is_alnum c = true) tok -> tokenized tok [tok]
| tokenized_more (tok sep rest : jsstring) (toks : list jsstring) :
    Forall (fun c => is_alnum c = true) tok ->
    sep <> [] -> Forall (fun c => is_alnum c = false) sep ->
    tokenized rest toks ->
    tokenized (tok ++ sep ++ rest) (tok :: toks).

(** How often a word occurs in a stream of words. *)
Definition occurrences (w : jsstring) (ws : list jsstring) : nat :=
  length (List.filter (jseq w) ws).

(** The position at which a word is first seen (the length of the stream
    when it never is). *)
Fixpoint first_index (w : jsstring) (ws : list jsstring) : nat :=
  match ws with
  | [] => 0
  | x :: rest => if jseq w x then 0 else S (first_index w rest)
  end.

(** The order of [Object.entries] on two keys of the table of a stream:
    array indices first, in ascending numeric order, then the other keys
    in the order they were first seen. *)
Definition enumerated_before (ws : list jsstring) (a b : jsstring) : Prop :=
  match array_index a, array_index b with
  | Some x, Some y => x < y
  | Some _, None => True
  | None, Some _ => False
  | None, None => (first_index a ws < first_index b ws)%nat
  end.

(** The order of the ranking: higher frequency first, ties in the order of
    [Object.entries]. *)
Definition ranks_before (ws : list jsstring) (a b : jsstring) : Prop :=
  (occurrences b ws < occurrences a ws)%nat
  \/ (occurrences a ws = occurrences b ws /\ enumerated_before ws a b).

(** The order the ranking would have if ties were broken by first-seen order. *)
Definition ranks_before_first_seen (ws : list jsstring) (a b : jsstring) : Prop :=
  (occurrences b ws < occurrences a ws)%nat
  \/ (occurrences a ws = occurrences b ws /\ (first_index a ws < first_index b ws)%nat).

Definition table_invariant (freq : list (jsstring * nat)) (ws : list jsstring) : Prop :=
  NoDup (map fst freq)
  /\ (forall w, In w (map fst freq) <-> In w ws)
  /\ (forall w n, In (w, n) freq -> n = occurrences w ws)
  /\ StronglySorted (fun a b => (first_index a ws < first_index b ws)%nat) (map fst freq).

Definition is_index (kv : jsstring * nat) : bool :=
  bool_decide (is_Some (array_index (fst kv))).

(** Larger count first, equal counts in the order [E] of the input. *)
Definition sorted_order (E : jsstring * nat -> jsstring * nat -> Prop)
    (x y : jsstring * nat) : Prop :=
  (snd y < snd x)%nat \/ (snd x = snd y /\ E x y).

Section RecommendationsVocabulary.
Context {num : Type} {numbers : Numbers num} {casing : Casing}.

#[local] Abbreviation value := (value num).

(** The words the loop counts, in the order it meets them. *)
Definition words (texts : list jsstring) : list jsstring :=
  flat_map (fun t => List.filter counted (map toLowerCase (split_tokens false t))) texts.

(** The candidates have derived ids, pairwise distinct and none a saved id. *)
Definition merge_invariant (savedIds : list jsstring) (cands : list value) : Prop :=
  exists ids, mapM derived_id cands = Ok ids
              /\ NoDup ids /\ forall id, In id ids -> ~ In id savedIds.

End RecommendationsVocabulary.

(** ** Separated lists *)

(** An item as the parsing leaves it: not empty, no white space at either
    end, no separator inside. *)
Definition clean (sep : N -> bool) (s : jsstring) : Prop :=
  s <> [] /\ trim s = s /\ Forall (fun c => sep c = false) s.

(** White space at neither end. *)
Definition trimmed (s : jsstring) : Prop :=
  drop_while is_space s = s /\ drop_while is_space (rev s) = rev s.

(** The fragments of a split that survive [map(s => s.trim()).filter(Boolean)]. *)
Definition kept (pieces : list jsstring) : list jsstring :=
  List.filter nonempty (map trim pieces).

Section ProfileVocabulary.
Context {num : Type} {numbers : Numbers num}.

#[local] Abbreviation value := (value num).

(** The name an entry of an author list stands for: a string for itself,
    an object for the first of its [name], [full_name] and [author] that is
    truthy, when that is a string; a falsy entry for no name. *)
Definition shown_name (a : value) : option jsstring :=
  match a with
  | VStr s => Some s
  | VObj fields =>
      match or_else (own (js "name") fields)
              (or_else (own (js "full_name") fields) (own (js "author") fields)) with
      | VStr s => if nonempty s then Some s else None
      | _ => None
      end
  | _ => if truthy a then None else Some []
  end.

End ProfileVocabulary.

(** ** The filters *)

(** The years of the range are in order, between 1900 and the current year. *)
Definition year_invariant (now : Z) (st : filters) : Prop :=
  (1900 <= fst (yearRange st) <= snd (yearRange st))%Z /\ (snd (yearRange st) <= now)%Z.

(** ** Recommendations *)

Section OfferedPapers.
Context {num : Type} {numbers : Numbers num}.

#[local] Abbreviation value := (value num).

(** The papers a search response offers: the list the merge iterates over
    (none for a failed request or a malformed response). *)
Definition offered (res : value) : list value :=
  if negb (truthy res) then [] else
  match get res (js "results"), get res (js "papers") with
  | Ok r, Ok ps =>
      match elements_of (or_else (if is_array r then r else or_else r (or_else ps (VArr [])))
                           (VArr [])) with
      | Ok items => items
      | Throw => []
      end
  | _, _ => []
  end.

End OfferedPapers.

(** ** Points *)

(** A fragment that holds no sentence boundary: no line feed or carriage
    return, and no white space right after one of [. ? !]. [prev_term]
    tells whether the code unit before the fragment is one of [. ? !]. *)
Fixpoint one_sentence (prev_term : bool) (p : jsstring) : bool :=
  match p with
  | [] => true
  | c :: rest =>
      negb ((c =? 10) || (c =? 13)) && negb (prev_term && is_space c)
      && one_sentence (is_terminator c) rest
  end.

(** ** Well-formed inputs *)

Section WellFormed.
Context {num : Type} {numbers : Numbers num}.

#[local] Abbreviation value := (value num).

(** A value whose string coercion cannot throw: anything but an array or an
    object. *)
Definition primitive (v : value) : bool :=
  match v with
  | VArr _ | VObj _ => false
  | _ => true
  end.

(** A value that [extractPoints] accepts: a string, or a falsy value. *)
Definition text_like (v : value) : bool :=
  match v with
  | VStr _ => true
  | _ => negb (truthy v)
  end.

(** A per-paper entry of the backend: an object whose [paper_id] and
    [paperId] are primitive and whose [summary] is a text. *)
Definition backend_entry (p : value) : bool :=
  match p with
  | VObj fields =>
      primitive (own (js "paper_id") fields) && primitive (own (js "paperId") fields)
      && text_like (own (js "summary") fields)
  | _ => false
  end.

(** A selected paper: an object whose [id] is primitive and whose
    [abstract] and [summary] are texts. *)
Definition listed_paper (s : value) : bool :=
  match s with
  | VObj fields =>
      primitive (own (js "id") fields) && text_like (own (js "abstract") fields)
      && text_like (own (js "summary") fields)
  | _ => false
  end.

(** A saved paper of the profile: an object whose [id] is primitive and
    whose [title] is a text. *)
Definition saved_paper (p : value) : bool :=
  match p with
  | VObj fields => primitive (own (js "id") fields) && text_like (own (js "title") fields)
  | _ => false
  end.

(** An entry of the search history: an object whose [query] is a text. *)
Definition history_entry (h : value) : bool :=
  match h with
  | VObj fields => text_like (own (js "query") fields)
  | _ => false
  end.

(** A list member of the profile: absent (falsy) or an array of such entries. *)
Definition list_member (ok : value -> bool) (v : value) : bool :=
  match v with
  | VArr xs => forallb ok xs
  | _ => negb (truthy v)
  end.

End WellFormed.

(** * Example inputs *)

Local Open Scope string_scope.

Definition paper_a : value Z :=
  obj [("id", VNum 1%Z); ("title", str "Attention in vision");
       ("abstract", str "Models improve performance significantly. Uses transformers in every layer.")].

Definition paper_b : value Z :=
  obj [("id", str "2"); ("name", str "Convolution revisited");
       ("abstract", str "models improve performance SIGNIFICANTLY. Uses convolution in every layer.")].

(** A paper whose id is the name of the accessor that plain objects inherit. *)
Definition paper_proto : value Z :=
  obj [("id", str "__proto__"); ("title", str "Prototypes");
       ("abstract", str "Objects inherit the accessor of their prototype.")].

(** A comparison result without per-paper summaries. *)
Definition no_summaries : value Z := obj [("papers", VArr [])].

(** The two points of the abstract of [paper_a]. *)
Definition point_1 : jsstring := js "Models improve performance significantly.".
Definition point_2 : jsstring := js "Uses transformers in every layer.".

(** The nodes of the two papers. *)
Definition nodes_ab : list (node Z) :=
  [ {| node_id := js "1"; node_title := str "Attention in vision" |};
    {| node_id := js "2"; node_title := str "Convolution revisited" |} ]%list.

(** A backend entry for paper 1 that has no summary, and a comparison
    result that holds it. *)
Definition bare_entry : value Z := obj [("paper_id", str "1")].

Definition entry_without_summary : value Z := obj [("papers", VArr [bare_entry])].

(** A comparison result whose [papers] is an object, not an array. *)
Definition papers_not_array : value Z :=
  obj [("papers", obj [("0", obj [("paper_id", str "1"); ("summary", str "A summary.")])])].

(** A similarity matrix with [null] off the diagonal. *)
Definition null_similarity : value Z :=
  obj [("metrics", obj [("embedding_similarity",
         VArr [VArr [VNum 1%Z; VNull]; VArr [VNull; VNum 1%Z]])])].

(** A similarity matrix of numbers. *)
Definition numeric_similarity : value Z :=
  obj [("metrics", obj [("embedding_similarity",
         VArr [VArr [VNum 1%Z; VNum 0%Z]; VArr [VNum 0%Z; VNum 1%Z]])])].

(** A similarity matrix with a string off the diagonal. *)
Definition textual_similarity : value Z :=
  obj [("metrics", obj [("embedding_similarity",
         VArr [VArr [VNum 1%Z; str "high"]; VArr [str "high"; VNum 1%Z]])])].

(** The evidence record of the pair (0, 1) under [textual_similarity]. *)
Definition textual_evidence : evidence_record Z :=
  {| ref_id := js "client:semantic:0-1"; label := js "Semantic similarity high";
     similarity := str "high"; shared_keywords := []%list |}.

(** A comparison result that brings an evidence graph with one edge. *)
Definition backend_graph : value Z :=
  obj [("nodes", VArr [obj [("id", str "1")]; obj [("id", str "2")] ]);
       ("edges", VArr [obj [("source", str "1"); ("target", str "2")] ])].

Definition with_backend_graph : value Z := obj [("evidence_graph", backend_graph)].

(** A corpus in which a year follows a word. *)
Definition corpus_with_year : list jsstring := [js "transformers 2023"].

(** A saved paper known by [paper_id] only, a profile that saved it, and a
    search endpoint that returns it for every query. *)
Definition saved_without_id : value Z :=
  obj [("paper_id", str "X"); ("title", str "Graph neural networks")].

Definition profile_x : value Z := obj [("savedPapers", VArr [saved_without_id])].

Definition search_x (query : jsstring) : value Z := obj [("results", VArr [saved_without_id])].

(** An author list with a string, two objects and a [null]. *)
Definition authors_mixed : list (value Z) :=
  [str "Ann Lee"; obj [("name", str "Bob Ray")]; VNull; obj [("full_name", str "Cy Dee")] ]%list.

(** An author object that names its affiliation only. *)
Definition affiliation_only : list (jsstring * value Z) :=
  [(js "affiliation", str "MIT")]%list.

(** A stored profile with two interests. *)
Definition profile_with_interests : value Z :=
  obj [("id", str "u1"); ("name", str "Ann Lee");
       ("interests", VArr [str "nlp"; str "graph learning"])].

(** An edit form whose interests field was typed carelessly. *)
Definition careless_form : edit_form Z :=
  {| form_name := str "Ann Lee"; form_email := str ""; form_institution := str "";
     form_bio := str ""; form_interests := js " nlp, , graph learning ," |}.

(** Filters with one selected topic, on page 3. *)
Definition filters_robotics : filters :=
  {| yearRange := (2000, 2024)%Z; selectedTopics := [js "Robotics"]%list; page := 3%Z |}.

(** A backend entry with a summary for paper 1, and a comparison result
    that holds it. *)
Definition entry_with_summary : value Z :=
  obj [("paper_id", VNum 1%Z); ("summary", str "Attention replaces recurrence in every layer.")].

Definition with_summary : value Z := obj [("papers", VArr [entry_with_summary])].

(** A paper with the abstract of [paper_a] under another id. *)
Definition paper_c : value Z :=
  obj [("id", str "3"); ("title", str "Attention in vision, revisited");
       ("abstract", str "Models improve performance significantly. Uses transformers in every layer.")].

(** The two points of the abstract of [paper_b]. *)
Definition point_3 : jsstring := js "models improve performance SIGNIFICANTLY.".
Definition point_4 : jsstring := js "Uses convolution in every layer.".

(** A profile that was never used. *)
Definition fresh_profile : value Z := obj [("id", str "u2")].

Local Close Scope string_scope.

(** * Proofs *)

(** ** Outcomes: inversion and loops *)

Lemma bind_Ok {A B : Type} (r : result A) (k : A -> result B) (b : B) :
  bind r k = Ok b <-> exists a, r = Ok a /\ k a = Ok b.
Proof.
  destruct r as [a|]; simpl; split.
  - eauto.
  - intros (a' & Ha & Hk). congruence.
  - discriminate.
  - intros (a' & Ha & _). discriminate.
Qed.

Ltac inv_bind H :=
  let x := fresh "x" in
  let E := fresh "E" in
  apply bind_Ok in H; destruct H as (x & E & H).

Lemma mapM_Forall2 {A B : Type} (f : A -> result B) (xs : list A) (ys : list B) :
  mapM f xs = Ok ys <-> Forall2 (fun x y => f x = Ok y) xs ys.
Proof.
  revert ys. induction xs as [|x xs IH]; intros ys; simpl.
  - split.
    + intros [= <-]. constructor.
    + intros H. inversion H. reflexivity.
  - split.
    + intros H. inv_bind H. inv_bind H. injection H as <-.
      constructor; [assumption|]. apply IH. assumption.
    + intros H. inversion H as [|? y ? ys' Hx Hrest]; subst.
      rewrite Hx. simpl. apply IH in Hrest. rewrite Hrest. reflexivity.
Qed.

Lemma mapM_length {A B : Type} (f : A -> result B) (xs : list A) (ys : list B) :
  mapM f xs = Ok ys -> length ys = length xs.
Proof.
  intros H. apply mapM_Forall2 in H. symmetry. eapply Forall2_length. eassumption.
Qed.

Lemma mapM_app {A B : Type} (f : A -> result B) (xs1 xs2 : list A) :
  mapM f (xs1 ++ xs2) =
  let* ys1 := mapM f xs1 in let* ys2 := mapM f xs2 in Ok (ys1 ++ ys2).
Proof.
  induction xs1 as [|x xs1 IH]; simpl.
  - destruct (mapM f xs2); reflexivity.
  - destruct (f x); simpl; [|reflexivity].
    rewrite IH. destruct (mapM f xs1); simpl; [|reflexivity].
    destruct (mapM f xs2); reflexivity.
Qed.

(** A loop whose body appends to the accumulator what it computes from the
    element alone is a [mapM] followed by a concatenation. *)
Lemma foldM_append {A B : Type} (f : list B -> A -> result (list B)) (g : A -> result (list B)) :
  (forall s x, f s x = let* ys := g x in Ok (s ++ ys)) ->
  forall xs s, foldM f xs s = let* yss := mapM g xs in Ok (s ++ concat yss).
Proof.
  intros Hf. induction xs as [|x xs IH]; intros s; simpl.
  - rewrite app_nil_r. reflexivity.
  - rewrite Hf. destruct (g x) as [ys|]; simpl; [|reflexivity].
    rewrite IH. destruct (mapM g xs) as [yss|]; simpl; [|reflexivity].
    rewrite app_assoc. reflexivity.
Qed.

Lemma mapM_flat_map {A B C : Type} (h : A -> list B) (g : B -> result C) (xs : list A) :
  mapM g (flat_map h xs) =
  let* yss := mapM (fun x => mapM g (h x)) xs in Ok (concat yss).
Proof.
  induction xs as [|x xs IH]; simpl; [reflexivity|].
  rewrite mapM_app. destruct (mapM g (h x)) as [ys|]; simpl; [|reflexivity].
  rewrite IH. destruct (mapM (fun x => mapM g (h x)) xs); reflexivity.
Qed.

Lemma mapM_ext {A B : Type} (f g : A -> result B) (xs : list A) :
  (forall x, In x xs -> f x = g x) -> mapM f xs = mapM g xs.
Proof.
  induction xs as [|x xs IH]; simpl; intros H; [reflexivity|].
  rewrite (H x) by (left; reflexivity). rewrite IH; [reflexivity|].
  intros y Hy. apply H. right. assumption.
Qed.

Lemma mapM_map {A B C : Type} (h : A -> B) (g : B -> result C) (xs : list A) :
  mapM g (map h xs) = mapM (fun x => g (h x)) xs.
Proof.
  induction xs as [|x xs IH]; simpl; [reflexivity|]. rewrite IH. reflexivity.
Qed.

Lemma pairs_spec (n i j : nat) : In (i, j) (pairs n) <-> (i < j < n)%nat.
Proof.
  unfold pairs. rewrite in_flat_map. split.
  - intros (i' & Hi & Hj). apply in_map_iff in Hj as (j' & [= <- <-] & Hj).
    apply in_seq in Hj. lia.
  - intros H. exists i. split.
    + apply in_seq. lia.
    + apply in_map. apply in_seq. lia.
Qed.

Lemma pairs_NoDup (n : nat) : NoDup (pairs n).
Proof.
  unfold pairs.
  assert (H : forall m a,
            NoDup (flat_map (fun i => map (pair i) (seq (S i) (n - S i))) (seq a m))).
  { induction m as [|m IH]; intros a; simpl.
    - constructor.
    - apply NoDup_app. split; [|split].
      + apply NoDup_fmap_2; [intros x y [= ->]; reflexivity|]. apply NoDup_seq.
      + intros [i j] H1 H2. apply list_elem_of_In in H1, H2.
        apply in_map_iff in H1 as (j' & [= <- <-] & _).
        apply in_flat_map in H2 as (i' & Hi' & H2).
        apply in_map_iff in H2 as (j'' & [= <- <-] & _).
        apply in_seq in Hi'. lia.
      + apply IH. }
  apply H.
Qed.

Lemma pairs_length (n : nat) : (2 * length (pairs n) = n * (n - 1))%nat.
Proof.
  unfold pairs.
  assert (H : forall m a, (a + m = n)%nat ->
            (2 * length (flat_map (fun i => map (pair i) (seq (S i) (n - S i))) (seq a m))
             = m * (m - 1))%nat).
  { induction m as [|m IH]; intros a Ha; simpl; [reflexivity|].
    rewrite length_app, length_map, length_seq.
    specialize (IH (S a) ltac:(lia)). nia. }
  apply (H n 0%nat). reflexivity.
Qed.

(** ** The evidence graph: the loops *)

Section EvidenceGraphFacts.
Context {num : Type} {numbers : Numbers num} {casing : Casing}.

#[local] Abbreviation value := (value num).

Lemma entry_total (m : value) (i j : nat) : exists o, entry m i j = Ok o.
Proof.
  unfold entry. destruct (truthy m) eqn:Hm; [|eauto].
  destruct m; try discriminate; simpl; eauto;
    match goal with |- context [truthy ?r] => destruct (truthy r) eqn:Hr; [|eauto]; destruct r; try discriminate; simpl; eauto end.
Qed.

Lemma shared_of_nil (kw : value) (i j : nat) : shared_of kw i j = Ok [].
Proof.
  unfold shared_of. destruct (entry_total kw i j) as [o ->]. destruct o; reflexivity.
Qed.

Lemma node_id_at_nth (nodes : list (node num)) (i : nat) :
  (i < length nodes)%nat -> node_id_at nodes i = Ok (nth i (map node_id nodes) []).
Proof.
  intros Hi. unfold node_id_at.
  destruct (nodes !! i) as [n|] eqn:E.
  - f_equal. symmetry. apply nth_lookup_Some. rewrite list_lookup_fmap, E. reflexivity.
  - apply lookup_ge_None in E. lia.
Qed.

Lemma pair_body_edges (emb kw : value) (nodes : list (node num)) (i : nat)
    (edges : list (edge num)) (j : nat) :
  pair_body emb kw nodes i edges j =
  let* es := pair_edges emb kw nodes (i, j) in Ok (edges ++ es).
Proof.
  unfold pair_body, pair_edges, evidence_between; simpl.
  destruct (similarity_label emb i j) as [sl|]; simpl; [|reflexivity].
  rewrite shared_of_nil; simpl.
  unfold node_id_at.
  destruct (nodes !! i) as [ni|] eqn:Ei; simpl; [|reflexivity].
  destruct (nodes !! j) as [nj|] eqn:Ej; simpl; [|reflexivity].
  unfold edge_pair, directed_edge.
  rewrite (nth_lookup_Some (map node_id nodes) i [] (node_id ni))
    by (rewrite list_lookup_fmap, Ei; reflexivity).
  rewrite (nth_lookup_Some (map node_id nodes) j [] (node_id nj))
    by (rewrite list_lookup_fmap, Ej; reflexivity).
  reflexivity.
Qed.

Lemma row_loop_edges (emb kw : value) (nodes : list (node num)) (edges : list (edge num)) (i : nat) :
  row_loop emb kw nodes edges i =
  let* ess := mapM (pair_edges emb kw nodes) (map (pair i) (seq (S i) (length nodes - S i))) in
  Ok (edges ++ concat ess).
Proof.
  unfold row_loop.
  rewrite (foldM_append _ (fun j => pair_edges emb kw nodes (i, j)))
    by (intros; apply pair_body_edges).
  rewrite mapM_map. reflexivity.
Qed.

Lemma loops_edges (emb kw : value) (nodes : list (node num)) :
  foldM (row_loop emb kw nodes) (seq 0 (length nodes)) [] =
  let* ess := mapM (pair_edges emb kw nodes) (pairs (length nodes)) in Ok (concat ess).
Proof.
  unfold pairs.
  assert (G : forall m a s,
    foldM (row_loop emb kw nodes) (seq a m) s =
    let* ess := mapM (pair_edges emb kw nodes)
                  (flat_map (fun i => map (pair i) (seq (S i) (length nodes - S i))) (seq a m)) in
    Ok (s ++ concat ess)).
  { induction m as [|m IH]; intros a s; simpl.
    - rewrite app_nil_r. reflexivity.
    - rewrite row_loop_edges, mapM_app.
      destruct (mapM _ (map (pair a) _)) as [ess1|]; simpl; [|reflexivity].
      rewrite IH.
      destruct (mapM _ (flat_map _ _)) as [ess2|]; simpl; [|reflexivity].
      rewrite concat_app, app_assoc. reflexivity. }
  rewrite G. reflexivity.
Qed.

Lemma mapM_pair_edges (emb kw : value) (nodes : list (node num)) (ps : list (nat * nat)) :
  (forall p, In p ps -> (fst p < snd p < length nodes)%nat) ->
  (forall p, In p ps -> exists ev, evidence_between emb kw (fst p) (snd p) = Ok ev) ->
  mapM (pair_edges emb kw nodes) ps =
  Ok (map (fun p => edge_pair (map node_id nodes) (evidence_of emb kw (fst p) (snd p)) (fst p) (snd p)) ps).
Proof.
  induction ps as [|p ps IH]; intros Hlt Hev; simpl; [reflexivity|].
  rewrite IH by (intros; first [apply Hlt | apply Hev]; right; assumption).
  destruct (Hev p (or_introl eq_refl)) as [ev Ep].
  specialize (Hlt p (or_introl eq_refl)).
  unfold pair_edges, evidence_of. rewrite Ep; simpl.
  rewrite !node_id_at_nth by lia. reflexivity.
Qed.

Lemma mapM_Ok_In {A B : Type} (f : A -> result B) (xs : list A) (ys : list B) (x : A) :
  mapM f xs = Ok ys -> In x xs -> exists y, f x = Ok y.
Proof.
  intros H. apply mapM_Forall2 in H.
  induction H as [|x' y xs ys Hx HF IH]; intros Hin; [contradiction|].
  destruct Hin as [<-|Hin]; eauto.
Qed.

Lemma pair_edges_evidence (emb kw : value) (nodes : list (node num)) (p : nat * nat) es :
  pair_edges emb kw nodes p = Ok es ->
  exists ev, evidence_between emb kw (fst p) (snd p) = Ok ev.
Proof.
  unfold pair_edges. intros H. inv_bind H. eauto.
Qed.

(** What the two loops return, and when. *)
Lemma loops_spec (emb kw : value) (nodes : list (node num)) :
  let n := length nodes in
  let all := flat_map (fun p => edge_pair (map node_id nodes)
                                  (evidence_of emb kw (fst p) (snd p)) (fst p) (snd p)) (pairs n) in
  (forall edges, foldM (row_loop emb kw nodes) (seq 0 n) [] = Ok edges ->
     edges = all /\ forall i j, (i < j < n)%nat -> exists ev, evidence_between emb kw i j = Ok ev)
  /\ ((forall i j, (i < j < n)%nat -> exists ev, evidence_between emb kw i j = Ok ev) ->
      foldM (row_loop emb kw nodes) (seq 0 n) [] = Ok all).
Proof.
  intros n all.
  assert (Hlt : forall p, In p (pairs n) -> (fst p < snd p < n)%nat).
  { intros [i j] Hp. apply pairs_spec in Hp. exact Hp. }
  assert (Hfwd : (forall i j, (i < j < n)%nat -> exists ev, evidence_between emb kw i j = Ok ev) ->
      foldM (row_loop emb kw nodes) (seq 0 n) [] = Ok all).
  { intros Hev. rewrite loops_edges. fold n.
    rewrite mapM_pair_edges; [|exact Hlt|intros p Hp; apply Hev, Hlt, Hp].
    simpl. unfold all. rewrite flat_map_concat_map. reflexivity. }
  split; [|exact Hfwd].
  intros edges H.
  assert (Hev : forall i j, (i < j < n)%nat -> exists ev, evidence_between emb kw i j = Ok ev).
  { intros i j Hij. rewrite loops_edges in H. inv_bind H.
    apply pairs_spec in Hij.
    destruct (mapM_Ok_In _ _ _ _ E Hij) as [es Hes].
    apply pair_edges_evidence in Hes. exact Hes. }
  split; [|exact Hev].
  rewrite (Hfwd Hev) in H. congruence.
Qed.

End EvidenceGraphFacts.

(** ** Reference ids *)

Lemma uint_digits_inj (d d' : Decimal.uint) : uint_digits d = uint_digits d' -> d = d'.
Proof.
  revert d'. induction d; intros d' H; destruct d'; simpl in H;
    try discriminate; try reflexivity;
    injection H as H; f_equal; apply IHd; exact H.
Qed.

Lemma decimal_inj (n m : nat) : decimal n = decimal m -> n = m.
Proof.
  unfold decimal. intros H. apply uint_digits_inj in H.
  apply Unsigned.to_uint_inj. exact H.
Qed.

Lemma uint_digits_digit (d : Decimal.uint) : Forall (fun c => is_digit c = true) (uint_digits d).
Proof. induction d; simpl; constructor; auto. Qed.

Lemma digits_before_hyphen (a b x y : jsstring) :
  Forall (fun c => is_digit c = true) a -> Forall (fun c => is_digit c = true) b ->
  a ++ 45 :: x = b ++ 45 :: y -> a = b.
Proof.
  revert b. induction a as [|c a IH]; intros b Ha Hb H; destruct b as [|c' b]; simpl in H.
  - reflexivity.
  - injection H as <- _. inversion Hb as [|? ? Hc _]. discriminate Hc.
  - injection H as -> _. inversion Ha as [|? ? Hc _]. discriminate Hc.
  - injection H as -> H. f_equal.
    inversion Ha; inversion Hb; subst. apply IH; assumption.
Qed.

Lemma ref_id_direction (i j : nat) :
  js "client:semantic:" ++ decimal i ++ js "-" ++ decimal j
  = js "client:semantic:" ++ decimal j ++ js "-" ++ decimal i -> i = j.
Proof.
  intros H. apply app_inv_head in H.
  apply decimal_inj. eapply digits_before_hyphen; [apply uint_digits_digit..|exact H].
Qed.

Lemma flat_map_ext_In {A B : Type} (f g : A -> list B) (l : list A) :
  (forall a, In a l -> f a = g a) -> flat_map f l = flat_map g l.
Proof.
  induction l as [|a l IH]; intros H; simpl; [reflexivity|].
  rewrite (H a) by (left; reflexivity). rewrite IH; [reflexivity|].
  intros b Hb. apply H. right. exact Hb.
Qed.

Section EvidenceGraphTheorems.
Context {num : Type} {numbers : Numbers num} {casing : Casing}.

#[local] Abbreviation value := (value num).

Lemma get_truthy (v : value) (k : jsstring) : truthy v = true -> exists x, get v k = Ok x.
Proof. destruct v; simpl; try discriminate; eauto. Qed.

Lemma get_member (v x : value) (k : jsstring) :
  get v k = Ok x -> x <> VUndef -> exists fields, v = VObj fields.
Proof.
  destruct v; simpl; intros [= <-] Hx; try congruence. eauto.
Qed.

Lemma metric_total (cr : value) (name : jsstring) :
  truthy cr = true -> exists m, metric cr name = Ok m.
Proof.
  intros Hcr. unfold metric.
  destruct (get_truthy cr (js "metrics") Hcr) as [m ->]. simpl.
  destruct (get_truthy (or_else m (VObj [])) name) as [e ->]; [|simpl; eauto].
  unfold or_else. destruct (truthy m) eqn:E; [exact E|reflexivity].
Qed.

Lemma backend_passthrough (cr eg : value) (sel : list value) :
  backend_edges cr eg -> buildFallbackEvidenceGraph cr sel = Ok (Backend eg).
Proof.
  intros (Hcr & e & es & Heg).
  destruct (get_member _ _ _ Heg ltac:(discriminate)) as [fs ->].
  destruct (get_member _ _ _ Hcr ltac:(discriminate)) as [fs' ->].
  unfold buildFallbackEvidenceGraph. simpl truthy. simpl negb. cbv iota.
  rewrite Hcr. simpl bind. simpl in Heg. injection Heg as ->. reflexivity.
Qed.

Lemma absent_empty (cr : value) (sel : list value) :
  truthy cr = false -> buildFallbackEvidenceGraph cr sel = Ok (Synthesized [] []).
Proof. intros H. unfold buildFallbackEvidenceGraph. rewrite H. reflexivity. Qed.

Lemma buildFallback_cases (cr : value) (sel : list value) :
  truthy cr = true ->
  (exists eg, backend_edges cr eg /\ buildFallbackEvidenceGraph cr sel = Ok (Backend eg))
  \/ ((forall eg, ~ backend_edges cr eg) /\ buildFallbackEvidenceGraph cr sel = synthesize cr sel).
Proof.
  intros Hcr. unfold buildFallbackEvidenceGraph. rewrite Hcr. simpl negb. cbv iota.
  destruct (get_truthy cr (js "evidence_graph") Hcr) as [eg Heg]. rewrite Heg. simpl bind.
  destruct (truthy eg) eqn:Teg.
  - destruct (get_truthy eg (js "edges") Teg) as [es Hes]. rewrite Hes. simpl bind.
    destruct es as [| | | | |[|e es]|];
      try (right; split; [|reflexivity]; intros eg' (H1 & e' & es' & H2); congruence).
    left. exists eg. split; [|reflexivity]. split; [exact Heg|eauto].
  - right. split; [|reflexivity].
    intros eg' (H1 & e' & es' & H2).
    assert (eg' = eg) as -> by congruence.
    destruct (get_member _ _ _ H2 ltac:(discriminate)) as [fs ->]. discriminate.
Qed.

Lemma synthesized_inv (cr : value) (sel : list value) nodes edges :
  buildFallbackEvidenceGraph cr sel = Ok (Synthesized nodes edges) ->
  (truthy cr = false /\ nodes = [] /\ edges = [])
  \/ (truthy cr = true /\ (forall eg, ~ backend_edges cr eg) /\
      mapM make_node sel = Ok nodes /\
      exists emb kw, metric cr (js "embedding_similarity") = Ok emb /\
                     metric cr (js "keyword_overlap") = Ok kw /\
                     foldM (row_loop emb kw nodes) (seq 0 (length nodes)) [] = Ok edges).
Proof.
  intros H. destruct (truthy cr) eqn:Hcr.
  - right. destruct (buildFallback_cases cr sel Hcr) as [(eg & _ & E)|(Hno & E)].
    + rewrite E in H. discriminate H.
    + rewrite E in H. unfold synthesize in H.
      inv_bind H. inv_bind H. inv_bind H. inv_bind H. injection H as <- <-.
      repeat split; eauto 10.
  - left. rewrite absent_empty in H by exact Hcr. injection H as <- <-. auto.
Qed.

Lemma evidence_between_at (emb kw : value) (i j : nat) ev :
  evidence_between emb kw i j = Ok ev -> ev = [evidence_at emb i j].
Proof.
  unfold evidence_between, evidence_at. intros H. inv_bind H.
  rewrite shared_of_nil in H. simpl in H. rewrite E. injection H as <-. reflexivity.
Qed.

Lemma evidence_between_label (emb kw : value) (i j : nat) :
  (exists ev, evidence_between emb kw i j = Ok ev) <->
  (exists sl, similarity_label emb i j = Ok sl).
Proof.
  unfold evidence_between. split.
  - intros [ev H]. inv_bind H. eauto.
  - intros [sl ->]. simpl. rewrite shared_of_nil. simpl. eauto.
Qed.

Lemma loops_edges_of (emb kw : value) (nodes : list (node num)) :
  (forall i j, (i < j < length nodes)%nat -> exists sl, similarity_label emb i j = Ok sl) ->
  flat_map (fun p => edge_pair (map node_id nodes) (evidence_of emb kw (fst p) (snd p)) (fst p) (snd p))
    (pairs (length nodes))
  = edges_of (map node_id nodes) emb (length nodes).
Proof.
  intros Hev. unfold edges_of. apply flat_map_ext_In. intros [i j] Hp.
  apply pairs_spec in Hp. simpl.
  destruct (proj2 (evidence_between_label emb kw i j) (Hev i j Hp)) as [ev Hb].
  unfold evidence_of. rewrite Hb. apply evidence_between_at in Hb. subst ev. reflexivity.
Qed.

Lemma synthesized_edges (cr : value) (sel : list value) nodes edges :
  buildFallbackEvidenceGraph cr sel = Ok (Synthesized nodes edges) ->
  exists emb,
    (truthy cr = true -> metric cr (js "embedding_similarity") = Ok emb) /\
    edges = edges_of (map node_id nodes) emb (length nodes) /\
    forall i j, (i < j < length nodes)%nat -> exists sl, similarity_label emb i j = Ok sl.
Proof.
  intros H. apply synthesized_inv in H as [(Hcr & -> & ->)|(Hcr & _ & Hn & emb & kw & He & Hk & Hl)].
  - exists VNull. split; [congruence|]. split; [reflexivity|]. simpl. intros; lia.
  - exists emb. split; [auto|].
    destruct (loops_spec emb kw nodes) as [Hinv _].
    destruct (Hinv edges Hl) as [-> Hev].
    assert (Hsl : forall i j, (i < j < length nodes)%nat -> exists sl, similarity_label emb i j = Ok sl).
    { intros i j Hij. apply (evidence_between_label emb kw). apply Hev, Hij. }
    split; [|exact Hsl]. apply loops_edges_of, Hsl.
Qed.

End EvidenceGraphTheorems.

Section EvidenceGraphClaims.
Context {num : Type} {numbers : Numbers num} {casing : Casing}.

#[local] Abbreviation value := (value num).

Lemma edges_of_directed (ids : list jsstring) (emb : value) (n : nat) :
  edges_of ids emb n =
  flat_map (fun p => [directed_edge ids (fst p) (snd p) [evidence_at emb (fst p) (snd p)];
                      directed_edge ids (snd p) (fst p) [evidence_at emb (fst p) (snd p)]])
    (pairs n).
Proof. reflexivity. Qed.

Lemma edges_of_length (ids : list jsstring) (emb : value) (n : nat) :
  length (edges_of ids emb n) = (n * (n - 1))%nat.
Proof.
  unfold edges_of. rewrite (flat_map_constant_length (c := 2%nat)) by reflexivity.
  pose proof (pairs_length n). lia.
Qed.

Lemma make_node_spec (s : value) (n : node num) :
  make_node s = Ok n ->
  exists id title name,
    get s (js "id") = Ok id /\ to_string id = Ok (node_id n) /\
    get s (js "title") = Ok title /\ get s (js "name") = Ok name /\
    node_title n = if truthy title then title
                   else if truthy name then name else VStr (node_id n).
Proof.
  unfold make_node. intros H. inv_bind H. inv_bind H. inv_bind H. inv_bind H.
  injection H as <-. simpl. exists x, x1, x2. unfold or_else. auto.
Qed.

(** C10: in a synthesized graph the edge from j to i carries the very
    evidence array of the edge from i to j (i < j), a single record whose
    reference id is built from the forward indices (so it is not the id the
    reverse indices would give) and whose shared-keyword list is empty. *)
Theorem fallback_reverse_edge_shares_evidence (cr : value) (sel : list value)
    (nodes : list (node num)) (edges : list (edge num)) :
  buildFallbackEvidenceGraph cr sel = Ok (Synthesized nodes edges) ->
  exists ev : nat -> nat -> evidence_record num,
    edges = flat_map (fun p => [directed_edge (map node_id nodes) (fst p) (snd p) [ev (fst p) (snd p)];
                                directed_edge (map node_id nodes) (snd p) (fst p) [ev (fst p) (snd p)]])
              (pairs (length nodes))
    /\ forall i j, (i < j < length nodes)%nat ->
         ref_id (ev i j) = js "client:semantic:" ++ decimal i ++ js "-" ++ decimal j
         /\ ref_id (ev i j) <> js "client:semantic:" ++ decimal j ++ js "-" ++ decimal i
         /\ shared_keywords (ev i j) = [].
Proof.
  intros H. apply synthesized_edges in H as (emb & _ & -> & _).
  exists (evidence_at emb). split; [apply edges_of_directed|].
  intros i j Hij. repeat split.
  simpl. intros E. apply ref_id_direction in E. lia.
Qed.

(** C3, as the code has it: a backend graph with at least one edge is
    returned as it came; an absent comparison result gives the empty graph;
    otherwise, when every selected paper yields a node and every similarity
    entry present for a pair can be formatted, the graph has one node per
    selected paper (id string-coerced, title falling back to name, then to
    the id) and k*(k-1) edges, two per pair i < j, one in each direction,
    with relation semantic_similarity. *)
Theorem buildFallbackEvidenceGraph_shape (cr : value) (sel : list value) :
  (forall eg, backend_edges cr eg -> buildFallbackEvidenceGraph cr sel = Ok (Backend eg))
  /\ (truthy cr = false -> buildFallbackEvidenceGraph cr sel = Ok (Synthesized [] []))
  /\ (truthy cr = true -> (forall eg, ~ backend_edges cr eg) ->
      forall nodes emb,
        mapM make_node sel = Ok nodes ->
        metric cr (js "embedding_similarity") = Ok emb ->
        (forall i j e, (i < j < length sel)%nat -> entry emb i j = Ok (Some e) ->
                       exists t, format_similarity e = Ok t) ->
        exists edges ev,
          buildFallbackEvidenceGraph cr sel = Ok (Synthesized nodes edges)
          /\ length nodes = length sel
          /\ Forall2 (fun s n => exists id title name,
                        get s (js "id") = Ok id /\ to_string id = Ok (node_id n) /\
                        get s (js "title") = Ok title /\ get s (js "name") = Ok name /\
                        node_title n = if truthy title then title
                                       else if truthy name then name else VStr (node_id n))
               sel nodes
          /\ length edges = (length sel * (length sel - 1))%nat
          /\ edges = flat_map (fun p => [directed_edge (map node_id nodes) (fst p) (snd p) (ev p);
                                         directed_edge (map node_id nodes) (snd p) (fst p) (ev p)])
                       (pairs (length sel))
          /\ NoDup (pairs (length sel))
          /\ forall i j, In (i, j) (pairs (length sel)) <-> (i < j < length sel)%nat).
Proof.
  split; [|split].
  - intros eg Heg. apply backend_passthrough, Heg.
  - apply absent_empty.
  - intros Hcr Hno nodes emb Hnodes Hemb Hfmt.
    pose proof (mapM_length _ _ _ Hnodes) as Hlen.
    destruct (metric_total cr (js "keyword_overlap") Hcr) as [kw Hkw].
    assert (Hsl : forall i j, (i < j < length nodes)%nat ->
                    exists sl, similarity_label emb i j = Ok sl).
    { intros i j Hij. unfold similarity_label.
      destruct (entry_total emb i j) as [[e|] He]; rewrite He; simpl; [|eauto].
      destruct (Hfmt i j e ltac:(lia) He) as [t ->]. simpl. eauto. }
    exists (edges_of (map node_id nodes) emb (length nodes)),
           (fun p => [evidence_at emb (fst p) (snd p)]).
    split; [|split; [|split; [|split; [|split; [|split]]]]].
    + destruct (buildFallback_cases cr sel Hcr) as [(eg & Heg & _)|(_ & ->)];
        [exfalso; eapply Hno, Heg|].
      unfold synthesize. rewrite Hnodes, Hemb, Hkw. simpl.
      destruct (loops_spec emb kw nodes) as [_ Hfwd]. rewrite Hfwd.
      * simpl. rewrite loops_edges_of by exact Hsl. reflexivity.
      * intros i j Hij. apply evidence_between_label, Hsl, Hij.
    + exact Hlen.
    + apply mapM_Forall2 in Hnodes.
      eapply Forall2_impl; [exact Hnodes|]. intros s n. apply make_node_spec.
    + rewrite edges_of_length, Hlen. reflexivity.
    + rewrite Hlen. apply edges_of_directed.
    + apply pairs_NoDup.
    + intros i j. apply pairs_spec.
Qed.

(** C7, as the code has it: every synthesized edge lies between two
    positions i < j and carries one record; its label is "Semantic relation"
    when the matrix has no entry for (i, j), "Semantic similarity " followed
    by the entry to three decimals when the entry is a number, and followed
    by the entry's string coercion when it is any other value. *)
Theorem fallback_edge_label (cr : value) (sel : list value)
    (nodes : list (node num)) (edges : list (edge num)) (emb : value) :
  truthy cr = true ->
  buildFallbackEvidenceGraph cr sel = Ok (Synthesized nodes edges) ->
  metric cr (js "embedding_similarity") = Ok emb ->
  forall e, In e edges ->
    exists i j r,
      (i < j < length nodes)%nat
      /\ (e = directed_edge (map node_id nodes) i j [r] \/
          e = directed_edge (map node_id nodes) j i [r])
      /\ match entry emb i j with
         | Ok None => label r = js "Semantic relation" /\ similarity r = VNull
         | Ok (Some (VNum n)) =>
             label r = js "Semantic similarity " ++ num_toFixed3 n /\ similarity r = VNum n
         | Ok (Some x) =>
             exists t, to_string x = Ok t /\
                       label r = js "Semantic similarity " ++ t /\ similarity r = x
         | Throw => False
         end.
Proof.
  intros Hcr H Hemb e He.
  apply synthesized_edges in H as (emb' & Hm & -> & Hsl).
  specialize (Hm Hcr). assert (emb' = emb) as -> by congruence.
  unfold edges_of in He. apply in_flat_map in He as ([i j] & Hp & He).
  apply pairs_spec in Hp. simpl in He.
  exists i, j, (evidence_at emb i j). split; [exact Hp|]. split.
  { unfold directed_edge. destruct He as [<-|[<-|[]]]; auto. }
  destruct (Hsl i j Hp) as [sl Hlab]. unfold evidence_at. rewrite Hlab. simpl.
  unfold similarity_label in Hlab.
  destruct (entry_total emb i j) as [[x|] Hx]; rewrite Hx in *; simpl in Hlab.
  - inv_bind Hlab. injection Hlab as <-. simpl.
    destruct x; cbn [format_similarity] in E; try discriminate E.
    + exists x0. auto.
    + injection E as <-. auto.
    + exists x0. auto.
    + exists x0. auto.
    + destruct (truthy (own (js "toFixed") fields)); [discriminate|].
      exists x0. auto.
  - injection Hlab as <-. auto.
Qed.

End EvidenceGraphClaims.

(** ** Points *)

Lemma occur_later (c : N) (fs : list jsstring) (s : jsstring) :
  occur_in_order fs s -> occur_in_order fs (c :: s).
Proof.
  intros H. destruct H as [s|gap f rest fs H].
  - constructor.
  - change (c :: gap ++ f ++ rest) with ((c :: gap) ++ f ++ rest). constructor. exact H.
Qed.

Lemma occur_tail (f : jsstring) (fs : list jsstring) (s : jsstring) :
  occur_in_order (f :: fs) s -> occur_in_order fs s.
Proof.
  intros H. inversion H as [|gap f' rest fs' Hrest]; subst. clear H.
  destruct Hrest as [s|gap' f' rest' fs'' H].
  - constructor.
  - replace (gap ++ f ++ gap' ++ f' ++ rest') with ((gap ++ f ++ gap') ++ f' ++ rest')
      by (rewrite <- !app_assoc; reflexivity).
    constructor. exact H.
Qed.

Lemma occur_filter (p : jsstring -> bool) (fs : list jsstring) (s : jsstring) :
  occur_in_order fs s -> occur_in_order (List.filter p fs) s.
Proof.
  intros H. induction H as [s|gap f rest fs H IH]; simpl.
  - constructor.
  - destruct (p f).
    + constructor. exact IH.
    + replace (gap ++ f ++ rest) with ((gap ++ f) ++ [] ++ rest)
        by (rewrite <- app_assoc; reflexivity).
      eapply occur_tail. constructor. exact IH.
Qed.

(** Replacing each fragment by a part of it keeps the order of occurrence. *)
Lemma occur_map (g : jsstring -> jsstring) (fs : list jsstring) (s : jsstring) :
  (forall f, exists a b, f = a ++ g f ++ b) ->
  occur_in_order fs s -> occur_in_order (map g fs) s.
Proof.
  intros Hg H. induction H as [s|gap f rest fs H IH]; simpl.
  - constructor.
  - destruct (Hg f) as (a & b & Hf). rewrite Hf at 2.
    replace (gap ++ (a ++ g f ++ b) ++ rest) with ((gap ++ a) ++ g f ++ (b ++ rest))
      by (rewrite <- !app_assoc; reflexivity).
    constructor.
    destruct IH as [s|gap' f' rest' fs' IH].
    + constructor.
    + replace (b ++ gap' ++ f' ++ rest') with ((b ++ gap') ++ f' ++ rest')
        by (rewrite <- app_assoc; reflexivity).
      constructor. exact IH.
Qed.

Lemma drop_while_suffix (p : N -> bool) (s : jsstring) :
  exists a, s = a ++ drop_while p s.
Proof.
  induction s as [|c s [a IH]]; simpl.
  - exists []. reflexivity.
  - destruct (p c).
    + exists (c :: a). simpl. f_equal. exact IH.
    + exists []. reflexivity.
Qed.

Lemma drop_while_head (p : N -> bool) (s : jsstring) (c : N) :
  head (drop_while p s) = Some c -> p c = false.
Proof.
  induction s as [|c' s IH]; simpl; [discriminate|].
  destruct (p c') eqn:E; [exact IH|]. simpl. intros [= <-]. exact E.
Qed.

Lemma trim_part (s : jsstring) : exists a b, s = a ++ trim s ++ b.
Proof.
  unfold trim.
  destruct (drop_while_suffix is_space s) as [a Ha].
  destruct (drop_while_suffix is_space (rev (drop_while is_space s))) as [b Hb].
  exists a, (rev b). rewrite Ha at 1. f_equal.
  rewrite <- rev_app_distr, <- Hb, rev_involutive. reflexivity.
Qed.

Lemma strip_markers_part (s : jsstring) : exists a b, s = a ++ strip_markers s ++ b.
Proof.
  destruct (drop_while_suffix is_marker s) as [a Ha].
  exists a, []. rewrite app_nil_r. exact Ha.
Qed.

(** The fragments of the split occur in order; outside a separator the
    first one starts the text. *)
Lemma split_points_occur (s : jsstring) :
  forall g t,
    occur_in_order (split_points g t s) s
    /\ (g = false -> exists p ps rest,
          split_points g t s = p :: ps /\ s = p ++ rest /\ occur_in_order ps rest).
Proof.
  induction s as [|c s IH]; intros g t.
  - simpl. split.
    + apply (occur_next [] [] [] []). constructor.
    + intros _. exists [], [], []. repeat split. constructor.
  - assert (Hcut : forall g', occur_in_order ([] :: split_points g' false s) (c :: s)
                  /\ exists p ps rest, [] :: split_points g' false s = p :: ps
                       /\ c :: s = p ++ rest /\ occur_in_order ps rest).
    { intros g'. destruct (IH g' false) as [H _]. split.
      - apply (occur_next [c] [] s). exact H.
      - exists [], (split_points g' false s), (c :: s). repeat split.
        apply occur_later. exact H. }
    simpl. destruct (g && is_space c) eqn:Eg.
    + destruct (IH true false) as [H _]. split.
      * apply occur_later. exact H.
      * intros ->. discriminate Eg.
    + destruct ((c =? 10) || (c =? 13)).
      * destruct (Hcut false) as [H1 H2]. split; [exact H1|intros _; exact H2].
      * destruct (t && is_space c).
        -- destruct (Hcut true) as [H1 H2]. split; [exact H1|intros _; exact H2].
        -- destruct (IH false (is_terminator c)) as [_ H].
           destruct (H eq_refl) as (p & ps & rest & -> & -> & Hps). simpl.
           split.
           ++ apply (occur_next [] (c :: p) rest). exact Hps.
           ++ intros _. exists (c :: p), ps, rest. repeat split. exact Hps.
Qed.

Section PointsClaims.
Context {num : Type} {numbers : Numbers num} {casing : Casing}.

#[local] Abbreviation value := (value num).

(** C5: every fragment [extractPoints] returns for a string is longer than
    20 code units and does not start with a hyphen, a bullet or white
    space; the fragments occur in the text in the order returned; the empty
    string, [null] and [undefined] give no fragment. *)
Theorem extractPoints_fragments (s : jsstring) :
  (exists frags,
     extractPoints (VStr s : value) = Ok frags
     /\ Forall (fun f => (20 < length f)%nat
                         /\ forall c, head f = Some c -> is_marker c = false) frags
     /\ occur_in_order frags s)
  /\ extractPoints (VStr [] : value) = Ok []
  /\ extractPoints (VNull : value) = Ok []
  /\ extractPoints (VUndef : value) = Ok [].
Proof.
  split; [|repeat split].
  destruct s as [|c s]; [exists []; repeat split; constructor|].
  eexists. split; [reflexivity|]. split.
  - apply List.Forall_forall. intros f Hf. apply filter_In in Hf as [Hf Hlen].
    split; [apply Nat.ltb_lt, Hlen|].
    apply in_map_iff in Hf as (f' & <- & _). apply drop_while_head.
  - apply occur_filter. apply occur_map; [apply strip_markers_part|].
    apply occur_filter. apply occur_map; [apply trim_part|].
    apply split_points_occur.
Qed.

End PointsClaims.

(** ** The sentence map *)

Lemma jseq_true (a b : jsstring) : jseq a b = true <-> a = b.
Proof. unfold jseq. apply bool_decide_eq_true. Qed.

Lemma jseq_false (a b : jsstring) : jseq a b = false <-> a <> b.
Proof. unfold jseq. apply bool_decide_eq_false. Qed.

Lemma jseq_refl (a : jsstring) : jseq a a = true.
Proof. apply jseq_true. reflexivity. Qed.

Lemma in_stream (data : list (jsstring * list jsstring)) (id pt : jsstring) :
  In (id, pt) (stream data) <-> exists pts, In (id, pts) data /\ In pt pts.
Proof.
  unfold stream. rewrite in_flat_map. split.
  - intros ([id' pts] & Hd & Hp). simpl in Hp.
    apply in_map_iff in Hp as (pt' & [= <- <-] & Hp). eauto.
  - intros (pts & Hd & Hp). exists (id, pts). split; [exact Hd|].
    simpl. apply in_map. exact Hp.
Qed.

Section SentenceMap.
Context {num : Type} {numbers : Numbers num} {casing : Casing}.

#[local] Abbreviation value := (value num).

Lemma map_has_In (k : jsstring) (m : list (jsstring * point)) :
  map_has k m = true <-> In k (map fst m).
Proof.
  unfold map_has. rewrite existsb_exists, in_map_iff. split.
  - intros (kv & Hin & E). apply jseq_true in E. eauto.
  - intros (kv & E & Hin). exists kv. split; [exact Hin|]. apply jseq_true. auto.
Qed.

Lemma add_paper_keys (k id : jsstring) (m : list (jsstring * point)) :
  map fst (add_paper k id m) = map fst m.
Proof.
  induction m as [|[k' v] m IH]; simpl; [reflexivity|].
  destruct (jseq k k'); simpl; [reflexivity|]. rewrite IH. reflexivity.
Qed.

Lemma add_paper_In (k id : jsstring) (m : list (jsstring * point)) (k' : jsstring) (v' : point) :
  NoDup (map fst m) ->
  (In (k', v') (add_paper k id m) <->
   if jseq k k'
   then exists v, In (k', v) m /\
                  v' = {| point_text := point_text v; point_papers := set_add id (point_papers v) |}
   else In (k', v') m).
Proof.
  induction m as [|[k0 v0] m IH]; simpl; intros Hnd.
  - destruct (jseq k k'); [|tauto]. split; [tauto|]. intros (v & [] & _).
  - inversion Hnd as [|? ? Hnotin Hnd']; subst.
    destruct (jseq k k0) eqn:E0; simpl.
    + apply jseq_true in E0. subst k0.
      destruct (jseq k k') eqn:E.
      * apply jseq_true in E. subst k'. split.
        -- intros [[= <-]|Hin]; [eauto|].
           exfalso. apply Hnotin, list_elem_of_In, in_map_iff. exists (k, v'). auto.
        -- intros (v & [[= <-]|Hin] & ->); [auto|].
           exfalso. apply Hnotin, list_elem_of_In, in_map_iff. exists (k, v). auto.
      * apply jseq_false in E. split.
        -- intros [[= <- _]|Hin]; [congruence|auto].
        -- intros [[= <- _]|Hin]; [congruence|auto].
    + apply jseq_false in E0. rewrite (IH Hnd').
      destruct (jseq k k') eqn:E.
      * apply jseq_true in E. subst k'. split.
        -- intros [[= <- _]|(v & Hin & ->)]; [congruence|eauto].
        -- intros (v & [[= <- _]|Hin] & ->); [congruence|eauto].
      * tauto.
Qed.

Lemma set_add_In (x y : jsstring) (s : list jsstring) :
  In y (set_add x s) <-> y = x \/ In y s.
Proof.
  unfold set_add. destruct (existsb (jseq x) s) eqn:E.
  - apply existsb_exists in E as (z & Hz & Ez). apply jseq_true in Ez. subst z.
    split; [auto|]. intros [->|]; auto.
  - rewrite in_app_iff. simpl. intuition congruence.
Qed.

Lemma set_add_NoDup (x : jsstring) (s : list jsstring) : NoDup s -> NoDup (set_add x s).
Proof.
  intros Hs. unfold set_add. destruct (existsb (jseq x) s) eqn:E; [exact Hs|].
  apply NoDup_app. split; [exact Hs|split; [|apply NoDup_singleton]].
  intros y Hy Hy'. apply list_elem_of_In in Hy. apply list_elem_of_singleton in Hy'. subst y.
  assert (existsb (jseq x) s = true); [|congruence].
  apply existsb_exists. exists x. split; [exact Hy|apply jseq_refl].
Qed.

Lemma display_app (k : jsstring) (st st' : list (jsstring * jsstring)) :
  display k (st ++ st') = match display k st with
                          | Some t => Some t
                          | None => display k st'
                          end.
Proof.
  unfold display. induction st as [|ip st IH]; simpl; [reflexivity|].
  destruct (jseq (toLowerCase (snd ip)) k); [reflexivity|]. exact IH.
Qed.

Lemma display_one (k id pt : jsstring) :
  display k [(id, pt)] = if jseq (toLowerCase pt) k then Some pt else None.
Proof. unfold display. simpl. destruct (jseq (toLowerCase pt) k); reflexivity. Qed.

Lemma display_None (k : jsstring) (st : list (jsstring * jsstring)) :
  display k st = None -> forall id pt, In (id, pt) st -> toLowerCase pt <> k.
Proof.
  unfold display. intros H id pt Hin E.
  destruct (List.find _ st) as [ip|] eqn:F; [discriminate|].
  apply (find_none _ _ F) in Hin. simpl in Hin. apply jseq_false in Hin. contradiction.
Qed.

Lemma record_point_invariant (m : list (jsstring * point)) (st : list (jsstring * jsstring))
    (id pt : jsstring) :
  map_invariant m st -> map_invariant (record_point id m pt) (st ++ [(id, pt)]).
Proof.
  intros (Hnd & Hent & Hcov). unfold record_point.
  set (key := toLowerCase pt).
  set (m1 := if map_has key m then m
             else m ++ [(key, {| point_text := pt; point_papers := [] |})]).
  assert (Hnd1 : NoDup (map fst m1)).
  { unfold m1. destruct (map_has key m) eqn:Hhas; [exact Hnd|].
    rewrite map_app. simpl. apply NoDup_app. split; [exact Hnd|split; [|apply NoDup_singleton]].
    intros y Hy Hy'. apply list_elem_of_In in Hy. apply list_elem_of_singleton in Hy'. subst y.
    apply map_has_In in Hy. congruence. }
  assert (Hfresh : map_has key m = false -> display key st = None).
  { intros Hhas. destruct (display key st) as [t|] eqn:D; [|reflexivity]. exfalso.
    unfold display in D. destruct (List.find _ st) as [[id' pt']|] eqn:F; [|discriminate].
    apply find_some in F as [Hin E]. simpl in E. apply jseq_true in E.
    apply Hcov in Hin. rewrite E in Hin. apply map_has_In in Hin. congruence. }
  split; [|split].
  - rewrite add_paper_keys. exact Hnd1.
  - intros k v Hin. apply (add_paper_In _ _ _ _ _ Hnd1) in Hin.
    destruct (jseq key k) eqn:E.
    + apply jseq_true in E. subst k. destruct Hin as (v0 & Hin0 & ->). simpl.
      unfold m1 in Hin0. destruct (map_has key m) eqn:Hhas.
      * destruct (Hent _ _ Hin0) as (Hk & Hd & Hp & Hids).
        split; [exact Hk|]. split; [rewrite display_app, Hd; reflexivity|].
        split; [apply set_add_NoDup, Hp|].
        intros id'. rewrite set_add_In, Hids. split.
        -- intros [->|(pt' & Hin' & E')].
           ++ exists pt. split; [apply in_or_app; right; left; reflexivity|reflexivity].
           ++ exists pt'. split; [apply in_or_app; left; exact Hin'|exact E'].
        -- intros (pt' & Hin' & E'). apply in_app_or in Hin' as [Hin'|[[= <- <-]|[]]]; eauto.
      * apply in_app_or in Hin0 as [Hin0|[[= <-]|[]]].
        { exfalso. assert (In key (map fst m)) as Hk by (apply in_map_iff; exists (key, v0); auto).
          apply map_has_In in Hk. congruence. }
        simpl. split; [reflexivity|].
        split; [rewrite display_app, (Hfresh eq_refl), display_one; fold key; rewrite jseq_refl; reflexivity|].
        split; [apply NoDup_singleton|].
        intros id'. simpl. split.
        -- intros [<-|[]]. exists pt. split; [apply in_or_app; right; left; reflexivity|reflexivity].
        -- intros (pt' & Hin' & E'). apply in_app_or in Hin' as [Hin'|[[= <- <-]|[]]]; [|auto].
           exfalso. eapply display_None; [apply (Hfresh eq_refl)|exact Hin'|exact E'].
    + apply jseq_false in E.
      assert (Hin0 : In (k, v) m).
      { unfold m1 in Hin. destruct (map_has key m); [exact Hin|].
        apply in_app_or in Hin as [Hin|[[= <- _]|[]]]; [exact Hin|congruence]. }
      destruct (Hent _ _ Hin0) as (Hk & Hd & Hp & Hids).
      split; [exact Hk|]. split; [rewrite display_app, Hd; reflexivity|].
      split; [exact Hp|].
      intros id'. rewrite Hids. split.
      * intros (pt' & Hin' & E'). exists pt'. split; [apply in_or_app; left; exact Hin'|exact E'].
      * intros (pt' & Hin' & E'). apply in_app_or in Hin' as [Hin'|[[= <- <-]|[]]]; [eauto|].
        contradiction.
  - intros id' pt' Hin. rewrite add_paper_keys.
    apply in_app_or in Hin as [Hin|[[= <- <-]|[]]].
    + apply Hcov in Hin. unfold m1. destruct (map_has key m); [exact Hin|].
      rewrite map_app. apply in_or_app. left. exact Hin.
    + fold key. unfold m1. destruct (map_has key m) eqn:Hhas.
      * apply map_has_In. exact Hhas.
      * rewrite map_app. apply in_or_app. right. left. reflexivity.
Qed.

Lemma sentence_map_invariant (st done : list (jsstring * jsstring)) (m : list (jsstring * point)) :
  map_invariant m done -> map_invariant (sentence_map st m) (done ++ st).
Proof.
  revert done m. induction st as [|[id pt] st IH]; intros done m Hm; simpl.
  - rewrite app_nil_r. exact Hm.
  - replace (done ++ (id, pt) :: st) with ((done ++ [(id, pt)]) ++ st)
      by (rewrite <- app_assoc; reflexivity).
    apply IH. apply record_point_invariant. exact Hm.
Qed.

Lemma sentence_map_spec (st : list (jsstring * jsstring)) : map_invariant (sentence_map st []) st.
Proof.
  apply (sentence_map_invariant st [] []).
  split; [constructor|]. split; [intros k v []|intros id pt []].
Qed.

End SentenceMap.

(** ** The classification loop *)

Lemma commons_In (n : nat) (m : list (jsstring * point)) (text : jsstring) :
  In text (commons n m) <->
  exists k v, In (k, v) m /\ point_text v = text /\ length (point_papers v) = n.
Proof.
  unfold commons. rewrite in_map_iff. split.
  - intros ([k v] & <- & Hin). apply filter_In in Hin as [Hin E]. simpl in *.
    apply Nat.eqb_eq in E. eauto.
  - intros (k & v & Hin & <- & E). exists (k, v). split; [reflexivity|].
    apply filter_In. split; [exact Hin|]. simpl. apply Nat.eqb_eq. exact E.
Qed.

Lemma uniques_In (n : nat) (id : jsstring) (m : list (jsstring * point)) (text : jsstring) :
  In text (uniques n id m) <->
  exists k v, In (k, v) m /\ point_text v = text
              /\ length (point_papers v) <> n /\ point_papers v = [id].
Proof.
  unfold uniques. rewrite in_map_iff. split.
  - intros ([k v] & <- & Hin). apply filter_In in Hin as [Hin E]. simpl in *.
    apply andb_true_iff in E as [E1 E2]. apply negb_true_iff, Nat.eqb_neq in E1.
    apply bool_decide_eq_true in E2. eauto 10.
  - intros (k & v & Hin & <- & E1 & E2). exists (k, v). split; [reflexivity|].
    apply filter_In. split; [exact Hin|]. simpl. apply andb_true_iff. split.
    + apply negb_true_iff, Nat.eqb_neq. exact E1.
    + apply bool_decide_eq_true. exact E2.
Qed.

Lemma commons_cons (n : nat) (k : jsstring) (v : point) (m : list (jsstring * point)) :
  commons n ((k, v) :: m) =
  if (length (point_papers v) =? n)%nat then point_text v :: commons n m else commons n m.
Proof. unfold commons. simpl. destruct (_ =? _)%nat; reflexivity. Qed.

Lemma uniques_cons (n : nat) (id k : jsstring) (v : point) (m : list (jsstring * point)) :
  uniques n id ((k, v) :: m) =
  if negb (length (point_papers v) =? n)%nat && bool_decide (point_papers v = [id])
  then point_text v :: uniques n id m else uniques n id m.
Proof. unfold uniques. simpl. destruct (_ && _); reflexivity. Qed.

Lemma classify_loop (n : nat) (m : list (jsstring * point)) :
  forall (c : list jsstring) (u : gmap jsstring (list jsstring)),
    (forall k v id, In (k, v) m -> In id (point_papers v) -> is_Some (u !! id)) ->
    exists u', foldM (classify n) m (c, u) = Ok (c ++ commons n m, u')
               /\ forall id, u' !! id = (fun l => l ++ uniques n id m) <$> (u !! id).
Proof.
  induction m as [|[k v] m IH]; intros c u Hdom.
  - exists u. simpl. rewrite app_nil_r. split; [reflexivity|].
    intros id. destruct (u !! id); simpl; [rewrite app_nil_r|]; reflexivity.
  - assert (Hdom' : forall u1 : gmap jsstring (list jsstring),
                      (forall id, is_Some (u !! id) -> is_Some (u1 !! id)) ->
                      forall k' v' id, In (k', v') m -> In id (point_papers v') -> is_Some (u1 !! id)).
    { intros u1 Hu k' v' id Hin Hid. apply Hu. eapply Hdom; [right; exact Hin|exact Hid]. }
    cbn [foldM]. unfold classify at 1. cbn [snd fst].
    rewrite commons_cons.
    destruct (length (point_papers v) =? n)%nat eqn:En; cbn [bind].
    + destruct (IH (c ++ [point_text v]) u (Hdom' u (fun _ H => H))) as (u' & -> & Hu').
      exists u'. rewrite <- app_assoc. split; [reflexivity|].
      intros id. rewrite Hu', uniques_cons, En. reflexivity.
    + destruct (length (point_papers v) =? 1)%nat eqn:E1.
      * apply Nat.eqb_eq in E1.
        destruct (point_papers v) as [|only [|? ?]] eqn:Ep; try discriminate E1.
        destruct (Hdom k v only (or_introl eq_refl)) as [l Hl]; [rewrite Ep; left; reflexivity|].
        rewrite Hl. cbn [bind].
        destruct (IH c (<[only := l ++ [point_text v]]> u)) as (u' & -> & Hu').
        { apply Hdom'. intros id His. rewrite lookup_insert. case_decide; eauto. }
        exists u'. split; [reflexivity|]. intros id. rewrite Hu', uniques_cons, Ep, En.
        rewrite lookup_insert. cbn [negb andb]. destruct (decide (only = id)) as [<-|Hne].
        -- rewrite Hl. rewrite bool_decide_eq_true_2 by reflexivity. simpl.
           rewrite <- app_assoc. reflexivity.
        -- rewrite bool_decide_eq_false_2 by congruence. reflexivity.
      * cbn [bind].
        destruct (IH c u (Hdom' u (fun _ H => H))) as (u' & -> & Hu').
        exists u'. split; [reflexivity|]. intros id. rewrite Hu', uniques_cons, En.
        rewrite bool_decide_eq_false_2; [reflexivity|].
        intros E. rewrite E in E1. discriminate E1.
Qed.

Section DiffsFacts.
Context {num : Type} {numbers : Numbers num} {casing : Casing}.

#[local] Abbreviation value := (value num).

Lemma unique0_lookup (al : list (aligned_paper num)) (u : gmap jsstring (list jsstring)) (id : jsstring) :
  fold_left (fun u a => <[aligned_id a := []]> u) al u !! id =
  if bool_decide (id ∈ map aligned_id al) then Some [] else u !! id.
Proof.
  revert u. induction al as [|a al IH]; intros u; cbn [fold_left map].
  - rewrite bool_decide_eq_false_2 by apply not_elem_of_nil. reflexivity.
  - rewrite IH. destruct (decide (id ∈ map aligned_id al)) as [Hin|Hnot].
    + rewrite !bool_decide_eq_true_2 by (try apply elem_of_cons; auto). reflexivity.
    + rewrite (bool_decide_eq_false_2 _ Hnot).
      rewrite lookup_insert. destruct (decide (aligned_id a = id)) as [E|E].
      * rewrite bool_decide_eq_true_2 by (apply elem_of_cons; auto). reflexivity.
      * rewrite bool_decide_eq_false_2; [reflexivity|].
        intros H. apply elem_of_cons in H as [H|H]; congruence.
Qed.

Lemma sentence_map_app (st st' : list (jsstring * jsstring)) (m : list (jsstring * point)) :
  sentence_map (st ++ st') m = sentence_map st' (sentence_map st m).
Proof. unfold sentence_map. apply fold_left_app. Qed.

Lemma sentence_map_paper (id : jsstring) (pts : list jsstring) (m : list (jsstring * point)) :
  sentence_map (map (pair id) pts) m = fold_left (record_point id) pts m.
Proof.
  unfold sentence_map. revert m. induction pts as [|pt pts IH]; intros m; simpl; [reflexivity|].
  apply IH.
Qed.

Lemma accumulate_stream (al : list (aligned_paper num)) :
  forall (ptss : list (list jsstring)) (m : list (jsstring * point)),
    mapM (fun a => extractPoints (aligned_text a)) al = Ok ptss ->
    foldM accumulate al m = Ok (sentence_map (stream (combine (map aligned_id al) ptss)) m).
Proof.
  induction al as [|a al IH]; intros ptss m H; simpl in H.
  - injection H as <-. reflexivity.
  - inv_bind H. inv_bind H. injection H as <-. simpl.
    unfold accumulate at 1. rewrite E. simpl.
    rewrite (IH _ _ E0). unfold stream. simpl.
    fold (stream (combine (map aligned_id al) x0)).
    rewrite sentence_map_app, sentence_map_paper. reflexivity.
Qed.

Lemma map_fst_combine {A B : Type} (l : list A) (l' : list B) :
  length l = length l' -> map fst (combine l l') = l.
Proof.
  revert l'. induction l as [|x l IH]; intros [|y l'] H; simpl in *; try discriminate; [reflexivity|].
  f_equal. apply IH. lia.
Qed.

(** What [computeDiffs] returns once the comparison result has an array of
    papers and every step before the loops went through. *)
Lemma computeDiffs_stages (cr : value) (sel ps : list value) (per : list (summary_entry num))
    (al : list (aligned_paper num)) (ptss : list (list jsstring)) :
  get cr (js "papers") = Ok (VArr ps) ->
  mapM make_entry ps = Ok per ->
  mapM (align per) sel = Ok al ->
  mapM (fun a => extractPoints (aligned_text a)) al = Ok ptss ->
  let data := combine (map aligned_id al) ptss in
  let m := sentence_map (stream data) [] in
  exists d, computeDiffs cr sel = Ok d
            /\ common d = commons (length sel) m
            /\ forall id, unique d !! id =
                 if bool_decide (id ∈ map aligned_id al)
                 then Some (uniques (length sel) id m) else None.
Proof.
  intros Hpapers Hper Hal Hpts data m.
  assert (Hlen : length al = length sel) by (eapply mapM_length; exact Hal).
  assert (Hlen' : length ptss = length al) by (eapply mapM_length; exact Hpts).
  assert (Hids : map fst data = map aligned_id al).
  { unfold data. apply map_fst_combine. rewrite length_map. lia. }
  pose proof (sentence_map_spec (stream data)) as (_ & Hent & _). fold m in Hent.
  destruct (classify_loop (length al) m []
              (fold_left (fun u a => <[aligned_id a := []]> u) al ∅)) as (u' & Hloop & Hu').
  { intros k v id Hin Hid. rewrite unique0_lookup.
    rewrite bool_decide_eq_true_2; [eauto|].
    destruct (Hent k v Hin) as (_ & _ & _ & Hpap).
    apply Hpap in Hid as (pt & Hst & _). apply in_stream in Hst as (pts & Hd & _).
    rewrite <- Hids. apply list_elem_of_In, in_map_iff. exists (id, pts). auto. }
  exists {| common := commons (length al) m; unique := u' |}.
  split; [|split].
  - unfold computeDiffs.
    assert (Hcr : truthy cr = true).
    { destruct cr; simpl in Hpapers; try discriminate; reflexivity. }
    rewrite Hcr, Hpapers. simpl. rewrite Hper. simpl. rewrite Hal. simpl.
    rewrite (accumulate_stream al ptss [] Hpts). simpl. fold data. fold m.
    rewrite Hloop. reflexivity.
  - simpl. rewrite Hlen. reflexivity.
  - intros id. simpl. rewrite Hu', unique0_lookup, lookup_empty, <- Hlen.
    destruct (bool_decide (id ∈ map aligned_id al)); reflexivity.
Qed.

Lemma align_id (per : list (summary_entry num)) (s : value) (a : aligned_paper num) :
  align per s = Ok a ->
  exists id, get s (js "id") = Ok id /\ to_string id = Ok (aligned_id a).
Proof.
  unfold align. intros H. inv_bind H. inv_bind H. inv_bind H. inv_bind H. inv_bind H. inv_bind H.
  injection H as <-. simpl. eauto.
Qed.

Lemma aligned_ids (per : list (summary_entry num)) (sel : list value) (al : list (aligned_paper num)) :
  mapM (align per) sel = Ok al ->
  forall k, In k (map aligned_id al) <->
            exists s id, In s sel /\ get s (js "id") = Ok id /\ to_string id = Ok k.
Proof.
  intros H. apply mapM_Forall2 in H. induction H as [|s a sel al Hs HF IH]; intros k; simpl.
  - split; [tauto|]. intros (s & id & [] & _).
  - destruct (align_id _ _ _ Hs) as (id & Hid & Hstr). rewrite IH. split.
    + intros [<-|(s' & id' & Hin & H1 & H2)]; [exists s, id; auto|exists s', id'; auto].
    + intros (s' & id' & [<-|Hin] & H1 & H2).
      * left. congruence.
      * right. eauto.
Qed.

(** X30: once the comparison result has an array of papers and the steps
    before the loops went through, the own keys of [unique] are exactly the
    string-coerced ids of the selected papers other than [__proto__], and
    for every selected paper, that one included, [unique[id]] reads an
    array. *)
Theorem computeDiffs_own_keys (cr : value) (sel ps : list value) (per : list (summary_entry num))
    (al : list (aligned_paper num)) (ptss : list (list jsstring)) :
  get cr (js "papers") = Ok (VArr ps) ->
  mapM make_entry ps = Ok per ->
  mapM (align per) sel = Ok al ->
  mapM (fun a => extractPoints (aligned_text a)) al = Ok ptss ->
  exists d, computeDiffs cr sel = Ok d
            /\ (forall k, own_key d k <->
                   k <> js "__proto__"
                   /\ exists s id, In s sel /\ get s (js "id") = Ok id /\ to_string id = Ok k)
            /\ (forall s id k, In s sel -> get s (js "id") = Ok id -> to_string id = Ok k ->
                   is_Some (unique d !! k)).
Proof.
  intros Hpapers Hper Hal Hpts.
  destruct (computeDiffs_stages cr sel ps per al ptss Hpapers Hper Hal Hpts) as (d & Hd & _ & Hu).
  assert (Hread : forall k, is_Some (unique d !! k) <->
                    exists s id, In s sel /\ get s (js "id") = Ok id /\ to_string id = Ok k).
  { intros k. rewrite Hu, <- (aligned_ids per sel al Hal), <- list_elem_of_In.
    case_bool_decide; split; eauto; try tauto. intros [? ?]; discriminate. }
  exists d. split; [exact Hd|]. split.
  - intros k. unfold own_key. rewrite Hread. reflexivity.
  - intros s id k Hs Hid Hk. apply Hread. eauto.
Qed.

End DiffsFacts.

Lemma NoDup_keys_value {A B : Type} (m : list (A * B)) (k : A) (v v' : B) :
  NoDup (map fst m) -> In (k, v) m -> In (k, v') m -> v = v'.
Proof.
  induction m as [|[k0 v0] m IH]; simpl; intros Hnd H1 H2; [contradiction|].
  apply NoDup_cons in Hnd as [Hnot Hnd].
  assert (Hk : forall w, In (k0, w) m -> False).
  { intros w Hw. apply Hnot, list_elem_of_In, in_map_iff. exists (k0, w). auto. }
  destruct H1 as [H1|H1], H2 as [H2|H2].
  - congruence.
  - injection H1 as -> _. exfalso. eapply Hk, H2.
  - injection H2 as -> _. exfalso. eapply Hk, H1.
  - eapply IH; eassumption.
Qed.

Lemma NoDup_map_filter {A B : Type} (f : A -> B) (p : A -> bool) (l : list A) :
  NoDup (map f l) -> NoDup (map f (List.filter p l)).
Proof.
  induction l as [|x l IH]; simpl; intros H; [constructor|].
  apply NoDup_cons in H as [Hnot Hnd]. destruct (p x); simpl; [|auto].
  apply NoDup_cons. split; [|auto].
  intros Hin. apply Hnot. apply list_elem_of_In in Hin. apply list_elem_of_In.
  apply in_map_iff in Hin as (y & E & Hy). apply filter_In in Hy as [Hy _].
  apply in_map_iff. eauto.
Qed.

Section DiffsClaims.
Context {num : Type} {numbers : Numbers num} {casing : Casing}.

#[local] Abbreviation value := (value num).

Lemma owners_In (k : jsstring) (data : list (jsstring * list jsstring)) (id : jsstring) :
  In id (owners k data) <-> exists pt, In (id, pt) (stream data) /\ toLowerCase pt = k.
Proof.
  unfold owners. rewrite in_map_iff. split.
  - intros ([id' pts] & <- & Hin). apply filter_In in Hin as [Hin E]. simpl in *.
    apply existsb_exists in E as (pt & Hpt & E). apply jseq_true in E.
    exists pt. split; [|exact E]. apply in_stream. eauto.
  - intros (pt & Hst & E). apply in_stream in Hst as (pts & Hd & Hpt).
    exists (id, pts). split; [reflexivity|]. apply filter_In. split; [exact Hd|].
    simpl. apply existsb_exists. exists pt. split; [exact Hpt|]. apply jseq_true. exact E.
Qed.

(** With distinct ids, the [Set] of a key holds exactly the ids of its owners. *)
Lemma papers_owners (data : list (jsstring * list jsstring)) (k : jsstring) (v : point) :
  NoDup (map fst data) ->
  In (k, v) (sentence_map (stream data) []) ->
  Permutation (point_papers v) (owners k data).
Proof.
  intros Hnd Hin.
  destruct (sentence_map_spec (stream data)) as (_ & Hent & _).
  destruct (Hent k v Hin) as (_ & _ & Hp & Hids).
  apply NoDup_Permutation; [exact Hp|apply NoDup_map_filter, Hnd|].
  intros id. rewrite !list_elem_of_In, Hids, owners_In. reflexivity.
Qed.

(** C1, as the code has it (a selection of at least two papers): the display
    text of a point is in [common] exactly when all selected papers own its
    key, in [unique[P]] exactly when P alone owns it, and in neither when
    the number of owners lies strictly between 1 and the selection size. *)
Theorem computeDiffs_classification (cr : value) (sel ps : list value)
    (per : list (summary_entry num)) (al : list (aligned_paper num))
    (ptss : list (list jsstring)) :
  get cr (js "papers") = Ok (VArr ps) ->
  mapM make_entry ps = Ok per ->
  mapM (align per) sel = Ok al ->
  mapM (fun a => extractPoints (aligned_text a)) al = Ok ptss ->
  NoDup (map aligned_id al) ->
  (2 <= length sel)%nat ->
  let data := combine (map aligned_id al) ptss in
  exists d, computeDiffs cr sel = Ok d /\
    forall id pt, In (id, pt) (stream data) ->
      let k := toLowerCase pt in
      exists text,
        display k (stream data) = Some text
        /\ (In text (common d) <-> length (owners k data) = length sel)
        /\ (forall P, In text (default [] (unique d !! P)) <-> owners k data = [P])
        /\ ((1 < length (owners k data) < length sel)%nat ->
            ~ In text (common d) /\ forall P, ~ In text (default [] (unique d !! P))).
Proof.
  intros Hpapers Hper Hal Hpts Hnd Hn data.
  destruct (computeDiffs_stages cr sel ps per al ptss Hpapers Hper Hal Hpts)
    as (d & Hd & Hc & Hu).
  fold data in Hc, Hu. set (m := sentence_map (stream data) []) in *.
  assert (Hids : map fst data = map aligned_id al).
  { unfold data. apply map_fst_combine. rewrite length_map.
    rewrite (mapM_length _ _ _ Hpts). reflexivity. }
  rewrite <- Hids in Hnd.
  exists d. split; [exact Hd|]. intros id pt Hst k.
  destruct (sentence_map_spec (stream data)) as (Hkeys & Hent & Hcov). fold m in Hkeys, Hent, Hcov.
  pose proof (Hcov id pt Hst) as Hk. fold k in Hk.
  apply in_map_iff in Hk as ([k' v] & E & Hin). simpl in E. subst k'.
  destruct (Hent k v Hin) as (Hlow & Hdisp & _ & _).
  pose proof (papers_owners data k v Hnd Hin) as Hperm.
  assert (Hsame : forall k' v', In (k', v') m -> point_text v' = point_text v -> v' = v).
  { intros k' v' Hin' E. destruct (Hent k' v' Hin') as (Hlow' & _).
    assert (k' = k) as -> by congruence. eapply NoDup_keys_value; eassumption. }
  assert (Hcommon : In (point_text v) (common d) <-> length (owners k data) = length sel).
  { rewrite Hc, commons_In, <- (Permutation_length Hperm). split.
    - intros (k' & v' & Hin' & E & Hlen). rewrite (Hsame k' v' Hin' E) in Hlen. exact Hlen.
    - intros Hlen. exists k, v. auto. }
  assert (Hunique : forall P, In (point_text v) (default [] (unique d !! P)) <-> owners k data = [P]).
  { intros P. rewrite Hu. split.
    - case_bool_decide; simpl; [|tauto]. intros Hin'.
      apply uniques_In in Hin' as (k' & v' & Hin' & E & _ & Hp).
      rewrite (Hsame k' v' Hin' E) in Hp. rewrite Hp in Hperm.
      apply Permutation_length_1_inv in Hperm. exact Hperm.
    - intros Ho. rewrite Ho in Hperm. apply Permutation_sym, Permutation_length_1_inv in Hperm.
      rewrite bool_decide_eq_true_2.
      + simpl. apply uniques_In. exists k, v. repeat split; auto. rewrite Hperm. simpl. lia.
      + rewrite <- Hids. apply list_elem_of_In. apply in_map_iff.
        assert (In P (owners k data)) as HP by (rewrite Ho; left; reflexivity).
        unfold owners in HP. apply in_map_iff in HP as (x & E & Hx).
        apply filter_In in Hx as [Hx _]. eauto. }
  exists (point_text v). split; [exact Hdisp|]. split; [exact Hcommon|]. split; [exact Hunique|].
  intros Hbetween. split.
  - rewrite Hcommon. lia.
  - intros P. rewrite Hunique. intros E. rewrite E in Hbetween. simpl in Hbetween. lia.
Qed.

Lemma make_entry_spec (p : value) (x : summary_entry num) :
  make_entry p = Ok x ->
  backend_id p = Ok (entry_id x)
  /\ exists sm, get p (js "summary") = Ok sm
                /\ entry_text x = if truthy sm then sm else VStr [].
Proof.
  unfold make_entry, backend_id. intros H. inv_bind H. inv_bind H. inv_bind H. inv_bind H.
  injection H as <-. simpl. rewrite E, E0. simpl. split.
  - rewrite <- E1. unfold or_else. destruct (truthy x0), (truthy x1); reflexivity.
  - exists x3. split; [exact E2|reflexivity].
Qed.

Lemma find_first (ps : list value) (per : list (summary_entry num)) (sid : jsstring)
    (x : summary_entry num) :
  Forall2 (fun p y => make_entry p = Ok y) ps per ->
  List.find (fun y => jseq (entry_id y) sid) per = Some x ->
  exists i p, ps !! i = Some p /\ make_entry p = Ok x /\ entry_id x = sid
              /\ forall i' p', (i' < i)%nat -> ps !! i' = Some p' -> backend_id p' <> Ok sid.
Proof.
  intros HF. induction HF as [|p y ps per Hp HF IH]; simpl; [discriminate|].
  destruct (jseq (entry_id y) sid) eqn:E.
  - intros [= <-]. apply jseq_true in E. exists 0%nat, p. repeat split; auto.
    intros i' p' Hlt. lia.
  - intros Hfind. destruct (IH Hfind) as (i & p0 & Hi & Hp0 & Hid & Hmin).
    exists (S i), p0. repeat split; auto.
    intros [|i'] p' Hlt Hlook; simpl in Hlook.
    + injection Hlook as <-. apply jseq_false in E.
      destruct (make_entry_spec _ _ Hp) as [Hb _]. congruence.
    + apply (Hmin i' p'); [lia|exact Hlook].
Qed.

Lemma find_none_backend (ps : list value) (per : list (summary_entry num)) (sid : jsstring) :
  Forall2 (fun p y => make_entry p = Ok y) ps per ->
  List.find (fun y => jseq (entry_id y) sid) per = None ->
  forall p, In p ps -> backend_id p <> Ok sid.
Proof.
  intros HF. induction HF as [|p y ps per Hp HF IH]; simpl; [tauto|].
  destruct (jseq (entry_id y) sid) eqn:E; [discriminate|].
  intros Hfind p' [<-|Hin]; [|auto].
  apply jseq_false in E. destruct (make_entry_spec _ _ Hp) as [Hb _]. congruence.
Qed.

(** X29: the text of a selected paper is the summary of
    the first backend entry filed under its string-coerced id (the empty
    string when that entry has no summary), and only when no entry is filed
    under the id the paper's abstract, else its summary, else the empty
    string. *)
Theorem resolved_text (ps : list value) (per : list (summary_entry num))
    (s : value) (a : aligned_paper num) :
  mapM make_entry ps = Ok per ->
  align per s = Ok a ->
  exists id, get s (js "id") = Ok id /\ to_string id = Ok (aligned_id a) /\
    ((exists i p sm,
        ps !! i = Some p /\ backend_id p = Ok (aligned_id a)
        /\ (forall i' p', (i' < i)%nat -> ps !! i' = Some p' -> backend_id p' <> Ok (aligned_id a))
        /\ get p (js "summary") = Ok sm
        /\ aligned_text a = if truthy sm then sm else VStr [])
     \/ ((forall p, In p ps -> backend_id p <> Ok (aligned_id a))
         /\ exists ab sm,
              get s (js "abstract") = Ok ab /\ get s (js "summary") = Ok sm
              /\ aligned_text a = if truthy ab then ab
                                  else if truthy sm then sm else VStr [])).
Proof.
  intros Hper Ha. apply mapM_Forall2 in Hper.
  unfold align in Ha. inv_bind Ha. inv_bind Ha. inv_bind Ha. inv_bind Ha. inv_bind Ha. inv_bind Ha.
  injection Ha as <-. simpl. exists x. split; [exact E|]. split; [exact E0|].
  destruct (List.find _ per) as [y|] eqn:F.
  - left. destruct (find_first ps per x0 y Hper F) as (i & p & Hi & Hp & Hid & Hmin).
    destruct (make_entry_spec _ _ Hp) as (Hb & sm & Hsm & Ht).
    exists i, p, sm. rewrite <- Hid at 1. auto.
  - right. split; [apply (find_none_backend ps per x0 Hper F)|].
    exists x3, x4. unfold or_else. auto.
Qed.

End DiffsClaims.

(** ** Topics *)

Lemma first_index_app (w : jsstring) (ws l : list jsstring) :
  In w ws -> first_index w (ws ++ l) = first_index w ws.
Proof.
  induction ws as [|x ws IH]; simpl; [tauto|].
  intros Hin. destruct (jseq w x) eqn:E; [reflexivity|].
  apply jseq_false in E. destruct Hin as [->|Hin]; [congruence|]. rewrite IH by exact Hin. reflexivity.
Qed.

Lemma first_index_lt (w : jsstring) (ws : list jsstring) :
  In w ws -> (first_index w ws < length ws)%nat.
Proof.
  induction ws as [|x ws IH]; simpl; [tauto|].
  intros Hin. destruct (jseq w x) eqn:E; [lia|].
  apply jseq_false in E. destruct Hin as [->|Hin]; [congruence|]. specialize (IH Hin). lia.
Qed.

Lemma first_index_fresh (w : jsstring) (ws l : list jsstring) :
  ~ In w ws -> first_index w (ws ++ w :: l) = length ws.
Proof.
  induction ws as [|x ws IH]; simpl; intros Hnot.
  - rewrite jseq_refl. reflexivity.
  - destruct (jseq w x) eqn:E.
    + apply jseq_true in E. subst x. tauto.
    + rewrite IH by tauto. reflexivity.
Qed.

Lemma occurrences_app (w : jsstring) (ws l : list jsstring) :
  occurrences w (ws ++ l) = (occurrences w ws + occurrences w l)%nat.
Proof. unfold occurrences. rewrite List.filter_app, length_app. reflexivity. Qed.

Lemma occurrences_pos (w : jsstring) (ws : list jsstring) :
  In w ws <-> (0 < occurrences w ws)%nat.
Proof.
  unfold occurrences. induction ws as [|x ws IH]; simpl; [split; [tauto|lia]|].
  destruct (jseq w x) eqn:E; simpl.
  - apply jseq_true in E. subst x. split; [lia|auto].
  - apply jseq_false in E. rewrite <- IH. split; [intros [?|?]; [congruence|auto]|auto].
Qed.

(** ** Sortedness *)

Lemma StronglySorted_app {A : Type} (R : A -> A -> Prop) (l1 l2 : list A) :
  StronglySorted R (l1 ++ l2) <->
  StronglySorted R l1 /\ StronglySorted R l2 /\ forall a b, In a l1 -> In b l2 -> R a b.
Proof.
  induction l1 as [|x l1 IH]; simpl.
  - split; [intros H; repeat split; [constructor|exact H|tauto]|tauto].
  - split.
    + intros H. apply StronglySorted_inv in H as [Hs Hf]. apply IH in Hs as (H1 & H2 & H12).
      rewrite List.Forall_forall in Hf.
      repeat split; [|exact H2|].
      * constructor; [exact H1|]. apply List.Forall_forall. intros y Hy. apply Hf, in_or_app. auto.
      * intros a b [<-|Ha] Hb; [apply Hf, in_or_app; auto|auto].
    + intros (H1 & H2 & H12). apply StronglySorted_inv in H1 as [Hs Hf].
      rewrite List.Forall_forall in Hf.
      constructor; [apply IH; repeat split; auto|].
      apply List.Forall_forall. intros y Hy. apply in_app_or in Hy as [Hy|Hy]; auto.
Qed.

Lemma StronglySorted_filter {A : Type} (R : A -> A -> Prop) (p : A -> bool) (l : list A) :
  StronglySorted R l -> StronglySorted R (List.filter p l).
Proof.
  induction 1 as [|x l Hs IH Hf]; simpl; [constructor|].
  destruct (p x); [|exact IH]. constructor; [exact IH|].
  rewrite List.Forall_forall in *. intros y Hy. apply filter_In in Hy as [Hy _]. auto.
Qed.

Lemma StronglySorted_map {A B : Type} (R : B -> B -> Prop) (f : A -> B) (l : list A) :
  StronglySorted (fun x y => R (f x) (f y)) l <-> StronglySorted R (map f l).
Proof.
  induction l as [|x l IH]; simpl.
  - split; constructor.
  - split; intros H; apply StronglySorted_inv in H as [Hs Hf]; constructor;
      try (apply IH; exact Hs); rewrite List.Forall_forall in *.
    + intros y Hy. apply in_map_iff in Hy as (z & <- & Hz). auto.
    + intros z Hz. apply Hf, in_map, Hz.
Qed.

Lemma StronglySorted_weaken {A : Type} (R R' : A -> A -> Prop) (l : list A) :
  (forall a b, In a l -> In b l -> R a b -> R' a b) ->
  StronglySorted R l -> StronglySorted R' l.
Proof.
  intros HR H. induction H as [|x l Hs IH Hf]; [constructor|].
  constructor.
  - apply IH. intros a b Ha Hb. apply HR; right; assumption.
  - rewrite List.Forall_forall in *. intros y Hy. apply HR; [left; reflexivity|right; exact Hy|auto].
Qed.

Lemma StronglySorted_firstn {A : Type} (R : A -> A -> Prop) (n : nat) (l : list A) :
  StronglySorted R l ->
  StronglySorted R (firstn n l) /\ forall a b, In a (firstn n l) -> In b (skipn n l) -> R a b.
Proof.
  intros H. rewrite <- (firstn_skipn n l) in H. apply StronglySorted_app in H. tauto.
Qed.

(** ** The frequency table *)

Lemma bump_keys (w : jsstring) (freq : list (jsstring * nat)) :
  map fst (bump w freq) =
  if existsb (jseq w) (map fst freq) then map fst freq else map fst freq ++ [w].
Proof.
  induction freq as [|[k n] freq IH]; simpl; [reflexivity|].
  destruct (jseq w k); simpl; [reflexivity|]. rewrite IH.
  destruct (existsb _ _); reflexivity.
Qed.

Lemma bump_In (w : jsstring) (freq : list (jsstring * nat)) (k : jsstring) (n : nat) :
  NoDup (map fst freq) ->
  In (k, n) (bump w freq) ->
  (k <> w /\ In (k, n) freq)
  \/ (k = w /\ ((exists n0, In (w, n0) freq /\ n = S n0)
                \/ (~ In w (map fst freq) /\ n = 1%nat))).
Proof.
  induction freq as [|[k0 n0] freq IH]; simpl; intros Hnd Hin.
  - destruct Hin as [[= <- <-]|[]]. right. split; [reflexivity|]. right. tauto.
  - apply NoDup_cons in Hnd as [Hnot Hnd].
    destruct (jseq w k0) eqn:E.
    + apply jseq_true in E. subst k0. destruct Hin as [[= <- <-]|Hin].
      * right. split; [reflexivity|]. left. eauto.
      * left. split; [|auto]. intros ->. apply Hnot, list_elem_of_In, in_map_iff.
        exists (w, n). auto.
    + apply jseq_false in E. destruct Hin as [[= <- <-]|Hin].
      * left. split; [congruence|auto].
      * destruct (IH Hnd Hin) as [[Hne H]|[-> [(m & H & ->)|[Hnotin ->]]]].
        -- left. auto.
        -- right. split; [reflexivity|]. left. eauto.
        -- right. split; [reflexivity|]. right. split; [|reflexivity]. intros [?|?]; [congruence|tauto].
Qed.

Lemma existsb_jseq (w : jsstring) (l : list jsstring) : existsb (jseq w) l = true <-> In w l.
Proof.
  rewrite existsb_exists. split.
  - intros (x & Hx & E). apply jseq_true in E. subst x. exact Hx.
  - intros H. exists w. split; [exact H|apply jseq_refl].
Qed.

Lemma occurrences_snoc (k w : jsstring) (ws : list jsstring) :
  occurrences k (ws ++ [w]) = if jseq k w then S (occurrences k ws) else occurrences k ws.
Proof.
  rewrite occurrences_app. unfold occurrences at 2. simpl.
  destruct (jseq k w); simpl; lia.
Qed.

Lemma bump_invariant (freq : list (jsstring * nat)) (ws : list jsstring) (w : jsstring) :
  table_invariant freq ws -> table_invariant (bump w freq) (ws ++ [w]).
Proof.
  intros (Hnd & Hkeys & Hcount & Hsorted).
  assert (Hmono : forall a b, In a (map fst freq) -> In b (map fst freq) ->
            (first_index a ws < first_index b ws)%nat ->
            (first_index a (ws ++ [w]) < first_index b (ws ++ [w]))%nat).
  { intros a b Ha Hb Hlt. rewrite !first_index_app by (apply Hkeys; assumption). exact Hlt. }
  split; [|split; [|split]].
  - rewrite bump_keys. destruct (existsb _ _) eqn:E; [exact Hnd|].
    apply NoDup_app. split; [exact Hnd|split; [|apply NoDup_singleton]].
    intros x Hx Hx'. apply list_elem_of_singleton in Hx'. subst x.
    apply list_elem_of_In, existsb_jseq in Hx. congruence.
  - intros k. rewrite bump_keys, in_app_iff. simpl.
    destruct (existsb _ _) eqn:E.
    + apply existsb_jseq in E. rewrite Hkeys. split; [auto|].
      intros [H|[<-|[]]]; [exact H|apply Hkeys, E].
    + rewrite in_app_iff, Hkeys. simpl. tauto.
  - intros k n Hin. rewrite occurrences_snoc.
    destruct (bump_In _ _ _ _ Hnd Hin) as [[Hne H]|[-> [(m & H & ->)|[Hnotin ->]]]].
    + rewrite (proj2 (jseq_false k w) Hne). apply Hcount, H.
    + rewrite jseq_refl. f_equal. apply Hcount, H.
    + rewrite jseq_refl. f_equal.
      destruct (occurrences w ws) eqn:Eo; [reflexivity|].
      exfalso. apply Hnotin, Hkeys, occurrences_pos. lia.
  - rewrite bump_keys. destruct (existsb _ _) eqn:E.
    + eapply StronglySorted_weaken; [|exact Hsorted]. exact Hmono.
    + apply StronglySorted_app. split; [|split].
      * eapply StronglySorted_weaken; [|exact Hsorted]. exact Hmono.
      * repeat constructor.
      * intros a b Ha [<-|[]].
        assert (Hnot : ~ In w ws).
        { intros Hb. apply Hkeys, existsb_jseq in Hb. congruence. }
        rewrite (first_index_fresh w ws [] Hnot).
        rewrite first_index_app by (apply Hkeys, Ha).
        apply first_index_lt, Hkeys, Ha.
Qed.

Lemma table_spec (ws done : list jsstring) (freq : list (jsstring * nat)) :
  table_invariant freq done ->
  table_invariant (fold_left (fun f w => bump w f) ws freq) (done ++ ws).
Proof.
  revert done freq. induction ws as [|w ws IH]; intros done freq H; simpl.
  - rewrite app_nil_r. exact H.
  - replace (done ++ w :: ws) with ((done ++ [w]) ++ ws) by (rewrite <- app_assoc; reflexivity).
    apply IH, bump_invariant, H.
Qed.

Lemma table_empty : table_invariant [] [].
Proof. repeat split; try constructor; simpl; tauto. Qed.

(** ** Array indices *)

Lemma digits_value_acc (s : jsstring) (acc : N) :
  fold_left (fun a c => 10 * a + (c - 48)) s acc
  = acc * 10 ^ N.of_nat (length s) + digits_value s.
Proof.
  unfold digits_value. revert acc. induction s as [|c s IH]; intros acc.
  - simpl. lia.
  - cbn [fold_left length]. rewrite IH, (IH (10 * 0 + (c - 48))).
    rewrite Nat2N.inj_succ, N.pow_succ_r'. lia.
Qed.

Lemma digits_value_cons (c : N) (s : jsstring) :
  digits_value (c :: s) = (c - 48) * 10 ^ N.of_nat (length s) + digits_value s.
Proof.
  unfold digits_value at 1. cbn [fold_left]. rewrite digits_value_acc. lia.
Qed.

Lemma is_digit_range (c : N) : is_digit c = true <-> 48 <= c <= 57.
Proof. unfold is_digit. rewrite andb_true_iff, !N.leb_le. reflexivity. Qed.

Lemma digits_value_bound (s : jsstring) :
  forallb is_digit s = true -> digits_value s < 10 ^ N.of_nat (length s).
Proof.
  induction s as [|c s IH]; intros H.
  - reflexivity.
  - cbn [forallb] in H. apply andb_true_iff in H as [Hc Hs]. apply is_digit_range in Hc.
    rewrite digits_value_cons. cbn [length]. rewrite Nat2N.inj_succ, N.pow_succ_r'.
    specialize (IH Hs). nia.
Qed.

Lemma digits_value_inj_length (s t : jsstring) :
  forallb is_digit s = true -> forallb is_digit t = true ->
  length s = length t -> digits_value s = digits_value t -> s = t.
Proof.
  revert t. induction s as [|c s IH]; intros [|d t] Hs Ht Hlen Hv; try discriminate; [reflexivity|].
  cbn [forallb] in Hs, Ht. apply andb_true_iff in Hs as [Hc Hs], Ht as [Hd Ht].
  apply is_digit_range in Hc, Hd. injection Hlen as Hlen.
  rewrite !digits_value_cons, <- Hlen in Hv.
  pose proof (digits_value_bound s Hs) as Bs.
  pose proof (digits_value_bound t Ht) as Bt. rewrite <- Hlen in Bt.
  assert (c - 48 = d - 48 /\ digits_value s = digits_value t) as [Hcd Hst].
  { apply (N.div_mod_unique (10 ^ N.of_nat (length s))); [exact Bs|exact Bt|lia]. }
  f_equal; [lia|]. apply IH; assumption.
Qed.

Lemma digits_value_lower (c : N) (s : jsstring) :
  is_digit c = true -> c <> 48 -> 10 ^ N.of_nat (length s) <= digits_value (c :: s).
Proof.
  intros Hc Hne. apply is_digit_range in Hc. rewrite digits_value_cons. nia.
Qed.

(** An array index has one spelling as a key. *)
Lemma array_index_inj (a b : jsstring) (x : N) :
  array_index a = Some x -> array_index b = Some x -> a = b.
Proof.
  unfold array_index. intros Ha Hb.
  destruct a as [|c s]; [discriminate|]. destruct b as [|d t]; [discriminate|].
  destruct (forallb is_digit (c :: s)) eqn:Da; [|discriminate].
  destruct (forallb is_digit (d :: t)) eqn:Db; [|discriminate].
  cbn [andb] in Ha, Hb.
  destruct (negb (c =? 48) || bool_decide (s = [])) eqn:Ca; [|discriminate].
  destruct (negb (d =? 48) || bool_decide (t = [])) eqn:Cb; [|discriminate].
  cbn [andb] in Ha, Hb.
  destruct (digits_value (c :: s) <? 4294967295); [|discriminate].
  destruct (digits_value (d :: t) <? 4294967295); [|discriminate].
  injection Ha as Ha. injection Hb as Hb.
  assert (Hv : digits_value (c :: s) = digits_value (d :: t)) by congruence.
  pose proof (digits_value_bound _ Da) as Ba. pose proof (digits_value_bound _ Db) as Bb.
  pose proof Da as Da'. pose proof Db as Db'.
  cbn [forallb] in Da', Db'. apply andb_true_iff in Da' as [Hc _], Db' as [Hd _].
  apply digits_value_inj_length; try assumption.
  apply orb_true_iff in Ca, Cb.
  assert (Hzero : forall c s, is_digit c = true -> c = 48 -> s = [] -> digits_value (c :: s) = 0).
  { intros c0 s0 _ -> ->. reflexivity. }
  assert (Hpow : forall n m : nat, 10 ^ N.of_nat n < 10 ^ N.of_nat (S m) -> (n <= m)%nat).
  { intros n m H. apply N.pow_lt_mono_r_iff in H; lia. }
  destruct (N.eq_dec c 48) as [Ec|Ec], (N.eq_dec d 48) as [Ed|Ed].
  - destruct Ca as [Ca|Ca]; [apply negb_true_iff, N.eqb_neq in Ca; contradiction|].
    destruct Cb as [Cb|Cb]; [apply negb_true_iff, N.eqb_neq in Cb; contradiction|].
    apply bool_decide_eq_true in Ca, Cb. subst. reflexivity.
  - destruct Ca as [Ca|Ca]; [apply negb_true_iff, N.eqb_neq in Ca; contradiction|].
    apply bool_decide_eq_true in Ca. rewrite (Hzero c s Hc Ec Ca) in Hv.
    pose proof (digits_value_lower d t Hd Ed) as L.
    pose proof (N.pow_nonzero 10 (N.of_nat (length t)) ltac:(lia)). lia.
  - destruct Cb as [Cb|Cb]; [apply negb_true_iff, N.eqb_neq in Cb; contradiction|].
    apply bool_decide_eq_true in Cb. rewrite (Hzero d t Hd Ed Cb) in Hv.
    pose proof (digits_value_lower c s Hc Ec) as L.
    pose proof (N.pow_nonzero 10 (N.of_nat (length s)) ltac:(lia)). lia.
  - pose proof (digits_value_lower c s Hc Ec) as La.
    pose proof (digits_value_lower d t Hd Ed) as Lb.
    cbn [length] in Ba, Bb |- *. f_equal.
    assert ((length s <= length t)%nat) by (apply Hpow; lia).
    assert ((length t <= length s)%nat) by (apply Hpow; lia).
    lia.
Qed.

(** ** The order of [Object.entries] *)

Lemma insert_index_perm (x : N * (jsstring * nat)) (l : list (N * (jsstring * nat))) :
  Permutation (insert_index x l) (x :: l).
Proof.
  induction l as [|y l IH]; simpl; [reflexivity|].
  destruct (fst x <? fst y); [reflexivity|].
  rewrite IH. apply perm_swap.
Qed.

Lemma insert_index_sorted (x : N * (jsstring * nat)) (l : list (N * (jsstring * nat))) :
  (forall y, In y l -> fst y <> fst x) ->
  StronglySorted (fun a b => fst a < fst b) l ->
  StronglySorted (fun a b => fst a < fst b) (insert_index x l).
Proof.
  intros Hne H. induction H as [|y l Hs IH Hf]; simpl; [repeat constructor|].
  rewrite List.Forall_forall in Hf.
  destruct (fst x <? fst y) eqn:E.
  - apply N.ltb_lt in E. constructor; [constructor; [exact Hs|apply List.Forall_forall, Hf]|].
    apply List.Forall_forall. intros z [<-|Hz]; [lia|]. specialize (Hf z Hz). simpl in Hf. lia.
  - apply N.ltb_ge in E. constructor.
    + apply IH. intros z Hz. apply Hne. right. exact Hz.
    + apply List.Forall_forall. intros z Hz.
      apply (Permutation_in _ (insert_index_perm x l)) in Hz as [<-|Hz]; [|auto].
      specialize (Hne y (or_introl eq_refl)). lia.
Qed.

Lemma index_entries_spec (freq : list (jsstring * nat)) :
  Permutation (map snd (index_entries freq)) (List.filter is_index freq)
  /\ forall i kv, In (i, kv) (index_entries freq) ->
                  In kv freq /\ array_index (fst kv) = Some i.
Proof.
  induction freq as [|kv freq (IHp & IHt)]; simpl.
  - split; [apply perm_nil|tauto].
  - unfold is_index at 1. destruct (array_index (fst kv)) as [i|] eqn:E.
    + rewrite bool_decide_eq_true_2 by eauto. split.
      * rewrite (insert_index_perm (i, kv)). simpl. apply perm_skip, IHp.
      * intros j kv' Hin.
        apply (Permutation_in _ (insert_index_perm (i, kv) _)) in Hin as [[= <- <-]|Hin]; [auto|].
        destruct (IHt _ _ Hin). auto.
    + rewrite bool_decide_eq_false_2 by (intros [? ?]; discriminate). split; [exact IHp|].
      intros j kv' Hin. destruct (IHt _ _ Hin). auto.
Qed.

Lemma index_entries_sorted (freq : list (jsstring * nat)) :
  NoDup (map fst freq) ->
  StronglySorted (fun a b => fst a < fst b) (index_entries freq).
Proof.
  induction freq as [|kv freq IH]; simpl; intros Hnd; [constructor|].
  apply NoDup_cons in Hnd as [Hnot Hnd].
  destruct (array_index (fst kv)) as [i|] eqn:E; [|auto].
  apply insert_index_sorted; [|auto].
  intros [j kv'] Hin Hj. simpl in Hj. subst j.
  destruct (index_entries_spec freq) as (_ & Ht). destruct (Ht _ _ Hin) as [Hin' E'].
  apply Hnot, list_elem_of_In, in_map_iff. exists kv'. split; [|exact Hin'].
  eapply array_index_inj; eassumption.
Qed.

Lemma filter_split_perm {A : Type} (p : A -> bool) (l : list A) :
  Permutation (List.filter p l ++ List.filter (fun x => negb (p x)) l) l.
Proof.
  induction l as [|x l IH]; simpl; [reflexivity|].
  destruct (p x); simpl.
  - apply perm_skip, IH.
  - rewrite <- Permutation_middle. apply perm_skip, IH.
Qed.

Lemma object_entries_perm (freq : list (jsstring * nat)) :
  Permutation (object_entries freq) freq.
Proof.
  unfold object_entries. destruct (index_entries_spec freq) as (Hp & _).
  rewrite Hp. apply (filter_split_perm is_index).
Qed.

Lemma object_entries_sorted (freq : list (jsstring * nat)) (ws : list jsstring) :
  table_invariant freq ws ->
  StronglySorted (fun x y => enumerated_before ws (fst x) (fst y)) (object_entries freq).
Proof.
  intros (Hnd & _ & _ & Hsorted). unfold object_entries.
  destruct (index_entries_spec freq) as (Hp & Ht).
  pose proof (index_entries_sorted freq Hnd) as Hs.
  apply StronglySorted_app. split; [|split].
  - apply (proj1 (StronglySorted_map (fun x y => enumerated_before ws (fst x) (fst y)) snd _)).
    eapply StronglySorted_weaken; [|exact Hs].
    intros [i x] [j y] Hx Hy Hlt. simpl in *.
    unfold enumerated_before.
    rewrite (proj2 (Ht _ _ Hx)), (proj2 (Ht _ _ Hy)). exact Hlt.
  - apply (proj2 (StronglySorted_map _ fst freq)) in Hsorted.
    eapply StronglySorted_weaken; [|apply StronglySorted_filter, Hsorted].
    intros x y Hx Hy Hlt. apply filter_In in Hx as [_ Hx], Hy as [_ Hy].
    apply negb_true_iff, bool_decide_eq_false in Hx, Hy.
    unfold enumerated_before.
    destruct (array_index (fst x)); [exfalso; eauto|].
    destruct (array_index (fst y)); [exfalso; eauto|]. exact Hlt.
  - intros x y Hx Hy. apply in_map_iff in Hx as ([i x'] & <- & Hx). simpl.
    apply filter_In in Hy as [_ Hy]. apply negb_true_iff, bool_decide_eq_false in Hy.
    unfold enumerated_before. rewrite (proj2 (Ht _ _ Hx)).
    destruct (array_index (fst y)); [exfalso; eauto|]. exact I.
Qed.

(** ** The stable sort *)

Lemma insert_desc_perm (x : jsstring * nat) (l : list (jsstring * nat)) :
  Permutation (insert_desc x l) (x :: l).
Proof.
  induction l as [|y l IH]; simpl; [reflexivity|].
  destruct (snd x <? snd y)%nat; [|reflexivity].
  rewrite IH. apply perm_swap.
Qed.

Lemma sort_desc_perm (l : list (jsstring * nat)) : Permutation (sort_desc l) l.
Proof.
  induction l as [|x l IH]; simpl; [reflexivity|].
  rewrite insert_desc_perm. apply perm_skip, IH.
Qed.

Section Stable.
Variable E : jsstring * nat -> jsstring * nat -> Prop.

Lemma insert_desc_sorted (x : jsstring * nat) (l : list (jsstring * nat)) :
  StronglySorted (sorted_order E) l -> Forall (E x) l ->
  StronglySorted (sorted_order E) (insert_desc x l).
Proof.
  induction 1 as [|y l Hs IH Hf]; intros HE; simpl; [repeat constructor|].
  rewrite List.Forall_forall in Hf. rewrite List.Forall_forall in HE.
  destruct (snd x <? snd y)%nat eqn:C.
  - apply Nat.ltb_lt in C. constructor.
    + apply IH. apply List.Forall_forall. intros z Hz. apply HE. right. exact Hz.
    + apply List.Forall_forall. intros z Hz.
      apply (Permutation_in _ (insert_desc_perm x l)) in Hz as [<-|Hz]; [left; exact C|auto].
  - apply Nat.ltb_ge in C. constructor.
    + constructor; [exact Hs|apply List.Forall_forall, Hf].
    + apply List.Forall_forall. intros z Hz.
      assert (Hzy : (snd z <= snd y)%nat).
      { destruct Hz as [<-|Hz]; [lia|]. destruct (Hf z Hz) as [?|[? _]]; lia. }
      destruct (Nat.eq_dec (snd x) (snd z)) as [Heq|Hne].
      * right. split; [exact Heq|]. apply HE, Hz.
      * left. lia.
Qed.

Lemma sort_desc_sorted (l : list (jsstring * nat)) :
  StronglySorted E l -> StronglySorted (sorted_order E) (sort_desc l).
Proof.
  induction 1 as [|x l Hs IH Hf]; simpl; [constructor|].
  apply insert_desc_sorted; [exact IH|].
  rewrite List.Forall_forall in *. intros z Hz.
  apply Hf. apply (Permutation_in _ (sort_desc_perm l)). exact Hz.
Qed.

End Stable.

Lemma tokenized_cons (c : N) (t : jsstring) (toks : list jsstring) :
  is_alnum c = true -> tokenized t toks -> tokenized (c :: t) (cons_head c toks).
Proof.
  intros Hc H. destruct H as [tok Htok|tok sep rest toks Htok Hsep Hnon Hrest]; simpl.
  - constructor. constructor; assumption.
  - change (c :: tok ++ sep ++ rest) with ((c :: tok) ++ sep ++ rest).
    constructor; try assumption. constructor; assumption.
Qed.

Lemma split_tokens_spec (t : jsstring) :
  tokenized t (split_tokens false t)
  /\ exists sep rest, t = sep ++ rest /\ Forall (fun c => is_alnum c = false) sep
                      /\ tokenized rest (split_tokens true t).
Proof.
  induction t as [|c t (IHf & sep & rest & Ht & Hsep & IHt)]; simpl.
  - split; [repeat constructor|]. exists [], []. repeat split; repeat constructor.
  - destruct (is_alnum c) eqn:Hc.
    + split; [apply tokenized_cons; assumption|].
      exists [], (c :: t). repeat split; [constructor|]. apply tokenized_cons; assumption.
    + split.
      * rewrite Ht at 1. apply (tokenized_more [] (c :: sep) rest); try assumption.
        -- constructor.
        -- discriminate.
        -- constructor; assumption.
      * exists (c :: sep), rest. split; [rewrite Ht at 1; reflexivity|].
        split; [constructor; assumption|exact IHt].
Qed.

Section RankingClaims.
Context {num : Type} {numbers : Numbers num} {casing : Casing}.

Lemma tally_tokens (toks : list jsstring) (freq : list (jsstring * nat)) :
  fold_left tally_token toks freq =
  fold_left (fun f w => bump w f) (List.filter counted (map toLowerCase toks)) freq.
Proof.
  revert freq. induction toks as [|tok toks IH]; intros freq; simpl; [reflexivity|].
  rewrite IH. unfold tally_token. destruct (counted (toLowerCase tok)); reflexivity.
Qed.

Lemma tally_words (texts : list jsstring) :
  tally texts = fold_left (fun f w => bump w f) (words texts) [].
Proof.
  unfold tally, words. generalize (@nil (jsstring * nat)) as freq.
  induction texts as [|t texts IH]; intros freq; simpl; [reflexivity|].
  rewrite IH, tally_tokens, fold_left_app. reflexivity.
Qed.

Lemma words_In (texts : list jsstring) (w : jsstring) :
  In w (words texts) <->
  exists t tok, In t texts /\ In tok (split_tokens false t) /\ w = toLowerCase tok
                /\ (3 < length w)%nat /\ ~ In w stopwords.
Proof.
  unfold words. rewrite in_flat_map. split.
  - intros (t & Ht & Hw). apply filter_In in Hw as [Hw Hc].
    apply in_map_iff in Hw as (tok & <- & Htok).
    unfold counted in Hc. apply andb_true_iff in Hc as [Hlen Hstop].
    apply Nat.ltb_lt in Hlen. apply negb_true_iff in Hstop.
    exists t, tok. repeat split; auto.
    intros Hin. apply existsb_jseq in Hin. congruence.
  - intros (t & tok & Ht & Htok & -> & Hlen & Hstop). exists t. split; [exact Ht|].
    apply filter_In. split; [apply in_map, Htok|].
    unfold counted. apply andb_true_iff. split; [apply Nat.ltb_lt, Hlen|].
    apply negb_true_iff. destruct (existsb _ stopwords) eqn:E; [|reflexivity].
    apply existsb_jseq in E. contradiction.
Qed.

(** C8, as the code has it (for a corpus none of whose counted words is
    [constructor]): every text is cut at its runs of non-alphanumeric code
    units, the lower-cased fragments longer than 3 that are no stopword are
    counted, and the topics are the first 8 of the ranking of the distinct
    counted words by descending frequency, ties in the order in which the
    frequency object enumerates its keys: array-index words first, in
    ascending numeric order, then the other words as first seen. *)
Theorem topics_ranking (texts : list jsstring) :
  ~ In (js "constructor") (words texts) ->
  (forall t, In t texts -> tokenized t (split_tokens false t))
  /\ (forall w, In w (words texts) <->
        exists t tok, In t texts /\ In tok (split_tokens false t) /\ w = toLowerCase tok
                      /\ (3 < length w)%nat /\ ~ In w stopwords)
  /\ exists ranking,
       topics_of texts = firstn 8 ranking
       /\ NoDup ranking
       /\ (forall w, In w ranking <-> In w (words texts))
       /\ StronglySorted (ranks_before (words texts)) ranking.
Proof.
  intros _. split; [intros t _; apply split_tokens_spec|]. split; [apply words_In|].
  pose proof (table_spec (words texts) [] [] table_empty) as Hinv. simpl in Hinv.
  rewrite <- tally_words in Hinv.
  set (ws := words texts) in *. set (freq := tally texts) in *.
  pose proof Hinv as (Hnd & Hkeys & Hcount & _).
  pose proof (object_entries_perm freq) as Hperm1.
  pose proof (sort_desc_perm (object_entries freq)) as Hperm2.
  assert (Hperm : Permutation (sort_desc (object_entries freq)) freq)
    by (rewrite Hperm2; exact Hperm1).
  exists (map fst (sort_desc (object_entries freq))).
  split; [|split; [|split]].
  - unfold topics_of, ranked. fold freq. rewrite firstn_map. reflexivity.
  - rewrite Hperm. exact Hnd.
  - intros w. rewrite <- Hkeys. split; apply Permutation_in; [|symmetry];
      apply Permutation_map, Hperm.
  - apply (proj1 (StronglySorted_map _ fst _)).
    eapply StronglySorted_weaken;
      [|apply (sort_desc_sorted (fun x y => enumerated_before ws (fst x) (fst y))),
          object_entries_sorted, Hinv].
    intros [a n] [b m] Ha Hb Hord.
    apply (Permutation_in _ Hperm) in Ha, Hb.
    apply Hcount in Ha, Hb. subst n m.
    unfold sorted_order in Hord. simpl in Hord. exact Hord.
Qed.

End RankingClaims.

(** ** Recommendations *)

Section MergeFacts.
Context {num : Type} {numbers : Numbers num} {casing : Casing}.

#[local] Abbreviation value := (value num).

Lemma someM_derived (cands : list value) (ids : list jsstring) (pid : jsstring) :
  mapM derived_id cands = Ok ids ->
  someM (fun cp => let* c := derived_id cp in Ok (jseq c pid)) cands
  = Ok (existsb (fun c => jseq c pid) ids).
Proof.
  revert ids. induction cands as [|cp cands IH]; intros ids H; simpl in H.
  - injection H as <-. reflexivity.
  - inv_bind H. inv_bind H. injection H as <-. simpl. rewrite E. simpl.
    destruct (jseq x pid); [reflexivity|]. apply IH, E0.
Qed.

Lemma consider_invariant (savedIds : list jsstring) (cands cands' : list value) (p : value) :
  merge_invariant savedIds cands ->
  consider savedIds cands p = Ok cands' ->
  merge_invariant savedIds cands'.
Proof.
  intros (ids & Hids & Hnd & Hsaved) H. unfold consider in H. inv_bind H.
  destruct (existsb (jseq x) savedIds) eqn:Es.
  { injection H as <-. exists ids. auto. }
  rewrite (someM_derived cands ids x Hids) in H. simpl in H.
  destruct (existsb (fun c => jseq c x) ids) eqn:Ed.
  { injection H as <-. exists ids. auto. }
  injection H as <-. exists (ids ++ [x]). split; [|split].
  - rewrite mapM_app, Hids. simpl. rewrite E. reflexivity.
  - apply NoDup_app. split; [exact Hnd|split; [|apply NoDup_singleton]].
    intros y Hy Hy'. apply list_elem_of_singleton in Hy'. subst y.
    apply list_elem_of_In in Hy.
    assert (existsb (fun c => jseq c x) ids = true); [|congruence].
    apply existsb_exists. exists x. split; [exact Hy|apply jseq_refl].
  - intros id Hin. apply in_app_or in Hin as [Hin|[<-|[]]]; [auto|].
    intros Hs. apply existsb_jseq in Hs. congruence.
Qed.

Lemma run_until_throw_invariant {A S : Type} (I : S -> Prop) (f : S -> A -> result S) :
  (forall s x s', I s -> f s x = Ok s' -> I s') ->
  forall xs s, I s -> I (fst (run_until_throw f xs s)).
Proof.
  intros Hf. induction xs as [|x xs IH]; intros s Hs; simpl; [exact Hs|].
  destruct (f s x) as [s'|] eqn:E; [|exact Hs]. apply IH. eapply Hf; eassumption.
Qed.

Lemma merge_result_invariant (savedIds : list jsstring) (cands : list value) (res : value) :
  merge_invariant savedIds cands ->
  merge_invariant savedIds (fst (merge_result savedIds cands res)).
Proof.
  intros H. unfold merge_result.
  destruct (negb (truthy res)); [exact H|].
  destruct (get res (js "results")) as [r|]; [|exact H].
  destruct (get res (js "papers")) as [ps|]; [|exact H].
  destruct (elements_of _) as [items|]; [|exact H].
  apply (run_until_throw_invariant (merge_invariant savedIds) (consider savedIds)); [|exact H].
  intros s x s'. apply consider_invariant.
Qed.

Lemma merge_results_invariant (savedIds : list jsstring) (results : list value) :
  forall cands, merge_invariant savedIds cands ->
                merge_invariant savedIds (merge_results savedIds results cands).
Proof.
  induction results as [|res results IH]; intros cands H; simpl; [exact H|].
  pose proof (merge_result_invariant savedIds cands res H) as H'.
  destruct (merge_result savedIds cands res) as [c [|]]; simpl in H'; [apply IH|]; exact H'.
Qed.

Lemma mapM_firstn {A B : Type} (f : A -> result B) (n : nat) (xs : list A) (ys : list B) :
  mapM f xs = Ok ys -> mapM f (firstn n xs) = Ok (firstn n ys).
Proof.
  intros H. apply mapM_Forall2. apply mapM_Forall2 in H.
  revert n. induction H as [|x y xs ys Hx HF IH]; intros [|n]; simpl; constructor; auto.
Qed.

Lemma firstn_sublist_In {A : Type} (n : nat) (l : list A) (x : A) : In x (firstn n l) -> In x l.
Proof.
  intros H. rewrite <- (firstn_skipn n l). apply in_or_app. left. exact H.
Qed.

Lemma NoDup_firstn {A : Type} (n : nat) (l : list A) : NoDup l -> NoDup (firstn n l).
Proof.
  intros H. rewrite <- (firstn_skipn n l) in H. apply NoDup_app in H. tauto.
Qed.

Variable search : jsstring -> value.

(** The recommended papers have pairwise distinct derived ids, and none of
    them has a derived id that is the string-coerced [id] member of a saved
    paper. *)
Lemma compute_fallback_papers (prof : value) (r : recommendations) :
  compute_fallback search prof = Ok r ->
  exists sp saved savedIds ids,
    get prof (js "savedPapers") = Ok sp
    /\ elements_of (or_else sp (VArr [])) = Ok saved
    /\ mapM saved_id saved = Ok savedIds
    /\ mapM derived_id (papers r) = Ok ids
    /\ NoDup ids
    /\ forall id, In id ids -> ~ In id savedIds.
Proof.
  unfold compute_fallback. intros H.
  inv_bind H. inv_bind H. inv_bind H. inv_bind H. inv_bind H. inv_bind H. inv_bind H. inv_bind H.
  injection H as <-. simpl.
  destruct (merge_results_invariant x6 (map search (firstn 4 (topics_of x5))) [])
    as (ids & Hids & Hnd & Hsaved).
  { exists []. repeat split; [constructor|]. intros id []. }
  exists x, x0, x6, (firstn 10 ids). repeat split; auto.
  - apply mapM_firstn, Hids.
  - apply NoDup_firstn, Hnd.
  - intros id Hin. apply Hsaved. eapply firstn_sublist_In, Hin.
Qed.

End MergeFacts.

Lemma mapM_In_image {A B : Type} (f : A -> result B) (xs : list A) (ys : list B) (x : A) (y : B) :
  mapM f xs = Ok ys -> In x xs -> f x = Ok y -> In y ys.
Proof.
  intros H. apply mapM_Forall2 in H.
  induction H as [|x' y' xs ys Hx HF IH]; intros Hin Hy; [contradiction|].
  destruct Hin as [<-|Hin]; [left; congruence|right; auto].
Qed.

Section RecommendationClaims.
Context {num : Type} {numbers : Numbers num} {casing : Casing}.

#[local] Abbreviation value := (value num).

Variable search : jsstring -> value.

(** X1: the recommended papers have pairwise distinct derived identifiers. *)
Theorem recommendations_distinct (prof : value) (r : recommendations) :
  compute_fallback search prof = Ok r ->
  exists ids, mapM derived_id (papers r) = Ok ids /\ NoDup ids.
Proof.
  intros H.
  apply compute_fallback_papers in H as (sp & saved & savedIds & ids & _ & _ & _ & Hids & Hnd & _).
  exists ids. split; assumption.
Qed.

(** X2: no recommended paper has a derived identifier that is the
    string-coerced [id] member of a saved paper. *)
Theorem recommendations_exclude_saved_ids (prof : value) (r : recommendations) (saved : list value) :
  compute_fallback search prof = Ok r ->
  get prof (js "savedPapers") = Ok (VArr saved) ->
  forall p s pid sid,
    In p (papers r) -> In s saved ->
    derived_id p = Ok pid -> saved_id s = Ok sid -> pid <> sid.
Proof.
  intros H Hsaved p s pid sid Hp Hs Hpid Hsid.
  apply compute_fallback_papers in H as (sp & saved' & savedIds & ids & Hsp & Hel & Hsv & Hids & _ & Hex).
  rewrite Hsaved in Hsp. injection Hsp as <-. simpl in Hel. injection Hel as <-.
  intros ->. apply (Hex sid).
  - eapply mapM_In_image; eassumption.
  - eapply mapM_In_image; eassumption.
Qed.

(** X3: an absent comparison result, or one without papers, gives empty results. *)
Theorem absent_results_are_empty (cr : value) (sel : list value) :
  (truthy cr = false ->
     computeDiffs cr sel = Ok {| common := []; unique := ∅ |}
     /\ buildFallbackEvidenceGraph cr sel = Ok (Synthesized [] []))
  /\ (forall p, get cr (js "papers") = Ok p -> truthy p = false ->
        computeDiffs cr sel = Ok {| common := []; unique := ∅ |}).
Proof.
  split.
  - intros H. unfold computeDiffs, buildFallbackEvidenceGraph. rewrite H. auto.
  - intros p Hp Hf. unfold computeDiffs. destruct (truthy cr); [|reflexivity].
    simpl. rewrite Hp. simpl. rewrite Hf. reflexivity.
Qed.

End RecommendationClaims.


(** * Further properties *)

(** ** Separated lists *)

Lemma split_on_nonempty (sep : N -> bool) (s : jsstring) : split_on sep s <> [].
Proof.
  induction s as [|c s IH]; simpl; [discriminate|].
  destruct (sep c); [discriminate|]. destruct (split_on sep s); [contradiction|discriminate].
Qed.

Lemma cons_head_app (c : N) (l l' : list jsstring) :
  l <> [] -> cons_head c (l ++ l') = cons_head c l ++ l'.
Proof. destruct l; [contradiction|reflexivity]. Qed.

(** A separator cuts the text in two parts that are split on their own. *)
Lemma split_on_app (sep : N -> bool) (a b : jsstring) (c : N) :
  sep c = true -> split_on sep (a ++ c :: b) = split_on sep a ++ split_on sep b.
Proof.
  intros Hc. induction a as [|x a IH]; simpl.
  - rewrite Hc. reflexivity.
  - rewrite IH. destruct (sep x); [reflexivity|].
    apply cons_head_app, split_on_nonempty.
Qed.

Lemma split_on_free (sep : N -> bool) (s : jsstring) :
  Forall (fun c => sep c = false) s -> split_on sep s = [s].
Proof.
  induction 1 as [|c s Hc _ IH]; simpl; [reflexivity|]. rewrite Hc, IH. reflexivity.
Qed.

Lemma split_on_pieces (sep : N -> bool) (s : jsstring) :
  Forall (Forall (fun c => sep c = false)) (split_on sep s).
Proof.
  induction s as [|c s IH]; simpl.
  - repeat constructor.
  - destruct (sep c) eqn:E; [constructor; [constructor|exact IH]|].
    destruct (split_on sep s) as [|p ps]; simpl.
    + repeat constructor. exact E.
    + apply Forall_cons in IH as [Hp Hps]. constructor; [constructor; assumption|exact Hps].
Qed.

Lemma drop_while_fixed (p : N -> bool) (s : jsstring) :
  drop_while p s = s <-> match s with [] => True | c :: _ => p c = false end.
Proof.
  destruct s as [|c s]; simpl; [tauto|].
  destruct (p c) eqn:E; split; try reflexivity; try discriminate.
  intros H. destruct (drop_while_suffix p s) as [a Ha].
  rewrite H in Ha. apply (f_equal (@length N)) in Ha. rewrite length_app in Ha. simpl in Ha. lia.
Qed.

Lemma drop_while_idem (p : N -> bool) (s : jsstring) :
  drop_while p (drop_while p s) = drop_while p s.
Proof.
  apply drop_while_fixed. destruct (drop_while p s) as [|c t] eqn:E; [exact I|].
  apply (drop_while_head p s). rewrite E. reflexivity.
Qed.

Lemma trimmed_trim (s : jsstring) : trimmed s -> trim s = s.
Proof. intros [H1 H2]. unfold trim. rewrite H1, H2. apply rev_involutive. Qed.

Lemma trim_trimmed (s : jsstring) : trimmed (trim s).
Proof.
  unfold trimmed, trim. set (t := drop_while is_space s).
  rewrite rev_involutive, drop_while_idem. split; [|reflexivity].
  apply drop_while_fixed.
  destruct (rev (drop_while is_space (rev t))) as [|c u] eqn:E; [exact I|].
  (* c is the first code unit of t *)
  destruct (drop_while_suffix is_space (rev t)) as [a Ha].
  apply (f_equal (@rev N)) in Ha. rewrite rev_involutive, rev_app_distr, E in Ha.
  apply (drop_while_head is_space s). fold t. rewrite Ha. reflexivity.
Qed.

Lemma trim_idem (s : jsstring) : trim (trim s) = trim s.
Proof. apply trimmed_trim, trim_trimmed. Qed.

Lemma trim_space (c : N) (s : jsstring) : is_space c = true -> trim (c :: s) = trim s.
Proof. intros H. unfold trim. simpl. rewrite H. reflexivity. Qed.

Lemma trim_free (sep : N -> bool) (s : jsstring) :
  Forall (fun c => sep c = false) s -> Forall (fun c => sep c = false) (trim s).
Proof.
  intros H. destruct (trim_part s) as (a & b & E). rewrite E in H.
  apply Forall_app in H as [_ H]. apply Forall_app in H as [H _]. exact H.
Qed.

(** Every item is clean. *)
Lemma items_clean (sep : N -> bool) (s : jsstring) : Forall (clean sep) (items sep s).
Proof.
  unfold items. apply List.Forall_forall. intros x Hx.
  apply filter_In in Hx as [Hx Hne]. apply in_map_iff in Hx as (p & <- & Hp).
  split; [|split].
  - unfold nonempty in Hne. apply negb_true_iff, bool_decide_eq_false in Hne. exact Hne.
  - apply trim_idem.
  - apply trim_free. pose proof (split_on_pieces sep s) as H.
    rewrite List.Forall_forall in H. apply H, Hp.
Qed.

(** The parts on either side of a separator are parsed on their own. *)
Lemma items_app (sep : N -> bool) (a b : jsstring) (c : N) :
  sep c = true -> items sep (a ++ c :: b) = items sep a ++ items sep b.
Proof.
  intros Hc. unfold items. rewrite split_on_app by exact Hc.
  rewrite map_app, List.filter_app. reflexivity.
Qed.

Lemma items_one (sep : N -> bool) (x : jsstring) :
  clean sep x -> items sep x = [x].
Proof.
  intros (Hne & Ht & Hf). unfold items. rewrite split_on_free by exact Hf. simpl.
  rewrite Ht. unfold nonempty. rewrite bool_decide_eq_false_2 by exact Hne. reflexivity.
Qed.

Lemma items_space (sep : N -> bool) (c : N) (s : jsstring) :
  is_space c = true -> sep c = false -> items sep (c :: s) = items sep s.
Proof.
  intros Hs Hc. unfold items. simpl. rewrite Hc.
  destruct (split_on sep s) as [|p ps] eqn:E; [exfalso; eapply split_on_nonempty, E|].
  simpl. rewrite trim_space by exact Hs. reflexivity.
Qed.

(** Clean items joined by a comma and a blank are read back as they were. *)
Lemma items_join (l : list jsstring) :
  Forall (clean is_comma) l -> items is_comma (join_with (js ", ") l) = l.
Proof.
  induction 1 as [|x l Hx Hl IH]; [reflexivity|].
  destruct l as [|y l].
  - simpl. apply items_one, Hx.
  - change (join_with (js ", ") (x :: y :: l))
      with (x ++ 44 :: 32 :: join_with (js ", ") (y :: l)).
    rewrite items_app by reflexivity.
    rewrite items_space by reflexivity. rewrite IH, items_one by exact Hx. reflexivity.
Qed.

Section ProfileFacts.
Context {num : Type} {numbers : Numbers num}.

#[local] Abbreviation value := (value num).

Lemma element_string_str (l : list jsstring) :
  mapM element_string (map (VStr : jsstring -> value) l) = Ok l.
Proof. induction l as [|x l IH]; simpl; [reflexivity|]. rewrite IH. reflexivity. Qed.

Lemma author_name_shown (a : value) (n : jsstring) :
  shown_name a = Some n -> author_name a = Ok (VStr n).
Proof.
  unfold shown_name, author_name. destruct a as [| |b|z|s|xs|fields]; simpl.
  - intros [= <-]. reflexivity.
  - intros [= <-]. reflexivity.
  - destruct b; [discriminate|]. intros [= <-]. reflexivity.
  - destruct (num_truthy z); [discriminate|]. intros [= <-]. reflexivity.
  - intros [= <-]. destruct s; reflexivity.
  - discriminate.
  - unfold or_else.
    destruct (truthy (own (js "name") fields)) eqn:T1.
    { destruct (own (js "name") fields); try discriminate.
      simpl in T1. unfold nonempty. rewrite T1. intros [= <-]. reflexivity. }
    destruct (truthy (own (js "full_name") fields)) eqn:T2.
    { destruct (own (js "full_name") fields); try discriminate.
      simpl in T2. unfold nonempty. rewrite T2. intros [= <-]. reflexivity. }
    destruct (own (js "author") fields) eqn:E; try discriminate.
    unfold nonempty. destruct (negb (bool_decide (s = []))) eqn:T3; [|discriminate].
    intros [= <-]. simpl. rewrite T3. reflexivity.
Qed.

Lemma filter_truthy_str (l : list jsstring) :
  List.filter truthy (map (VStr : jsstring -> value) l) = map VStr (List.filter nonempty l).
Proof.
  induction l as [|x l IH]; simpl; [reflexivity|]. unfold nonempty at 1.
  destruct (negb (bool_decide (x = []))); simpl; rewrite IH; reflexivity.
Qed.

Lemma author_name_blank (a : value) : truthy a = false -> author_name a = Ok (VStr []).
Proof. intros H. unfold author_name. rewrite H. reflexivity. Qed.

End ProfileFacts.

Section ProfileTheorems.
Context {num : Type} {numbers : Numbers num}.

#[local] Abbreviation value := (value num).

(** X13: the authors of a list whose entries are strings, objects that name
    their author under [name], [full_name] or [author], or falsy values are
    shown as the non-empty names, in order, separated by a comma and a
    blank. *)
Theorem formatAuthors_names (xs : list value) (ns : list jsstring) :
  Forall2 (fun a n => shown_name a = Some n) xs ns ->
  formatAuthors (VArr xs) = Ok (join_with (js ", ") (List.filter nonempty ns)).
Proof.
  intros H. unfold formatAuthors. simpl.
  assert (Hn : mapM author_name xs = Ok (map VStr ns)).
  { apply mapM_Forall2. induction H; simpl; constructor; auto using author_name_shown. }
  rewrite Hn. simpl. rewrite filter_truthy_str, element_string_str. reflexivity.
Qed.

(** X14: a falsy entry of an author list (null, an empty string, zero) leaves no
    trace in the text: no name and no separator. *)
Theorem formatAuthors_skips_blank (xs ys : list value) (a : value) :
  truthy a = false ->
  formatAuthors (VArr (xs ++ a :: ys)) = formatAuthors (VArr (xs ++ ys)).
Proof.
  intros H. unfold formatAuthors. simpl.
  rewrite !mapM_app. simpl. rewrite (author_name_blank a H). simpl.
  destruct (mapM author_name xs) as [nx|]; simpl; [|reflexivity].
  destruct (mapM author_name ys) as [ny|]; simpl; [|reflexivity].
  rewrite !List.filter_app. reflexivity.
Qed.

(** X15: an author object without a truthy [name], [full_name] or [author] is
    shown as the string coercion of the object itself. *)
Theorem formatAuthors_unnamed_object (fields : list (jsstring * value)) :
  truthy (own (js "name") fields) = false ->
  truthy (own (js "full_name") fields) = false ->
  truthy (own (js "author") fields) = false ->
  has_own (js "toString") fields = false ->
  formatAuthors (VArr [VObj fields]) = Ok (js "[object Object]").
Proof.
  intros H1 H2 H3 H4. unfold formatAuthors, author_name. simpl.
  unfold or_else. rewrite H1, H2, H3. simpl. rewrite H4. reflexivity.
Qed.

(** X16: opening the edit dialog and saving without a change keeps the
    interests, when each of them is clean (not empty, no comma, no white
    space at either end). *)
Theorem interests_round_trip (p profile id : value) (l : list jsstring) :
  get p (js "interests") = Ok (VArr (map VStr l)) ->
  get profile (js "id") = Ok id ->
  Forall (clean is_comma) l ->
  exists f u, openEdit p = Ok f /\ saveProfile profile f = Ok u /\ update_interests u = l.
Proof.
  intros Hp Hid Hl.
  destruct p; simpl in Hp; try discriminate. injection Hp as Hp.
  unfold openEdit. simpl. rewrite Hp. simpl. rewrite element_string_str. simpl.
  eexists. eexists. split; [reflexivity|]. unfold saveProfile. rewrite Hid. simpl.
  split; [reflexivity|]. simpl. apply items_join, Hl.
Qed.

(** X17: the interests that [saveProfile] stores are clean, whatever the text of
    the field. *)
Theorem saved_interests_clean (profile : value) (f : edit_form num) (u : profile_update num) :
  saveProfile profile f = Ok u -> Forall (clean is_comma) (update_interests u).
Proof.
  unfold saveProfile. intros H. inv_bind H. injection H as <-. simpl. apply items_clean.
Qed.

(** X18: the references sent for a draft: for every text of the field the
    references are clean, and a separator (a line feed, a comma or a
    semicolon) cuts the text in two parts whose references are read one
    after the other. *)
Theorem refs_separated (a b : jsstring) (c : N) :
  is_reference_separator c = true ->
  exists la lb,
    refs (VStr a : value) = Ok la /\ refs (VStr b : value) = Ok lb
    /\ refs (VStr (a ++ c :: b) : value) = Ok (la ++ lb)
    /\ Forall (clean is_reference_separator) (la ++ lb).
Proof.
  intros Hc.
  assert (Hr : forall s, refs (VStr s : value) = Ok (items is_reference_separator s)).
  { intros [|x s]; reflexivity. }
  exists (items is_reference_separator a), (items is_reference_separator b).
  rewrite !Hr. split; [reflexivity|]. split; [reflexivity|].
  rewrite items_app by exact Hc. split; [reflexivity|].
  apply Forall_app. split; apply items_clean.
Qed.

End ProfileTheorems.

(** ** Points, line by line *)

Lemma kept_app (X Y : list jsstring) : kept (X ++ Y) = kept X ++ kept Y.
Proof. unfold kept. rewrite map_app, List.filter_app. reflexivity. Qed.

Lemma split_points_nonempty (g t : bool) (s : jsstring) : split_points g t s <> [].
Proof.
  revert g t. induction s as [|c s IH]; intros g t; simpl; [discriminate|].
  destruct (g && is_space c); [apply IH|].
  destruct ((c =? 10) || (c =? 13)); [discriminate|].
  destruct (t && is_space c); [discriminate|].
  destruct (split_points false (is_terminator c) s) eqn:E; [exfalso; eapply IH, E|discriminate].
Qed.

Lemma kept_cons_head_space (c : N) (X : list jsstring) :
  is_space c = true -> X <> [] -> kept (cons_head c X) = kept X.
Proof.
  intros Hc HX. destruct X as [|p X]; [contradiction|].
  unfold kept. simpl. rewrite trim_space by exact Hc. reflexivity.
Qed.

Lemma space_not_terminator (c : N) : is_space c = true -> is_terminator c = false.
Proof.
  intros H. unfold is_terminator.
  destruct (N.eqb_spec c 46) as [->|_]; [discriminate H|].
  destruct (N.eqb_spec c 63) as [->|_]; [discriminate H|].
  destruct (N.eqb_spec c 33) as [->|_]; [discriminate H|]. reflexivity.
Qed.

Lemma line_break_space (c : N) : (c =? 10) || (c =? 13) = true -> is_space c = true.
Proof.
  intros H. apply orb_true_iff in H as [H|H]; apply N.eqb_eq in H; subst c; reflexivity.
Qed.

(** Leading white space is dropped either by the separator that swallows it
    or by [trim]. *)
Lemma kept_gap (s : jsstring) :
  kept (split_points true false s) = kept (split_points false false s).
Proof.
  induction s as [|c s IH]; [reflexivity|]. simpl.
  destruct (is_space c) eqn:Hs; simpl.
  - destruct ((c =? 10) || (c =? 13)).
    + rewrite IH. reflexivity.
    + rewrite (space_not_terminator c Hs).
      rewrite kept_cons_head_space; [exact IH|exact Hs|apply split_points_nonempty].
  - destruct ((c =? 10) || (c =? 13)) eqn:Hn; [|reflexivity].
    apply line_break_space in Hn. congruence.
Qed.

(** A line break ends the fragment being read; when it falls into the white
    space after a terminator, that separator swallows it. *)
Lemma split_points_line (nl : N) (b : jsstring) :
  (nl =? 10) || (nl =? 13) = true ->
  forall (a : jsstring) (g t : bool),
    split_points g t (a ++ nl :: b) = split_points g t a ++ split_points false false b
    \/ exists X, split_points g t a = X ++ [[]]
                 /\ (g = true \/ X <> [])
                 /\ split_points g t (a ++ nl :: b) = X ++ split_points true false b.
Proof.
  intros Hnl. pose proof (line_break_space nl Hnl) as Hs.
  induction a as [|c a IH]; intros g t.
  - simpl. rewrite Hs, Hnl. destruct g; simpl.
    + right. exists []. auto.
    + left. reflexivity.
  - simpl. destruct (g && is_space c) eqn:Hg.
    + destruct (IH true false) as [H|(X & HX & _ & H)]; [left; exact H|].
      right. exists X. apply andb_true_iff in Hg as [-> _]. auto.
    + destruct ((c =? 10) || (c =? 13)).
      { destruct (IH false false) as [->|(X & -> & _ & ->)]; [left; reflexivity|].
        right. exists ([] :: X). split; [reflexivity|]. split; [right; discriminate|reflexivity]. }
      destruct (t && is_space c).
      { destruct (IH true false) as [->|(X & -> & _ & ->)]; [left; reflexivity|].
        right. exists ([] :: X). split; [reflexivity|]. split; [right; discriminate|reflexivity]. }
      destruct (IH false (is_terminator c)) as [->|(X & -> & [Hf|HX] & ->)];
        [|discriminate Hf|].
      * left. destruct (split_points false (is_terminator c) a) eqn:E;
          [exfalso; eapply split_points_nonempty, E|reflexivity].
      * right. exists (cons_head c X). destruct X as [|p X]; [contradiction|].
        split; [reflexivity|]. split; [right; discriminate|reflexivity].
Qed.

Lemma kept_line (nl : N) (a b : jsstring) :
  (nl =? 10) || (nl =? 13) = true ->
  kept (split_points false false (a ++ nl :: b))
  = kept (split_points false false a) ++ kept (split_points false false b).
Proof.
  intros Hnl. destruct (split_points_line nl b Hnl a false false) as [->|(X & -> & _ & ->)].
  - apply kept_app.
  - rewrite !kept_app, kept_gap. unfold kept at 3. simpl. rewrite app_nil_r. reflexivity.
Qed.

Section PointsLines.
Context {num : Type} {numbers : Numbers num}.

#[local] Abbreviation value := (value num).

Lemma extractPoints_string (s : jsstring) :
  extractPoints (VStr s : value)
  = Ok (List.filter (fun s => 20 <? length s)%nat
          (map strip_markers (kept (split_points false false s)))).
Proof. destruct s; reflexivity. Qed.

(** X4: the points of a text are the points of its lines, one line after the
    other: a line feed or a carriage return cuts the text in two parts
    whose points are extracted on their own. *)
Theorem extractPoints_lines (a b : jsstring) (nl : N) :
  nl = 10 \/ nl = 13 ->
  exists pa pb,
    extractPoints (VStr a : value) = Ok pa
    /\ extractPoints (VStr b : value) = Ok pb
    /\ extractPoints (VStr (a ++ nl :: b) : value) = Ok (pa ++ pb).
Proof.
  intros Hnl.
  assert (H : (nl =? 10) || (nl =? 13) = true) by (destruct Hnl as [-> | ->]; reflexivity).
  rewrite !extractPoints_string. eexists. eexists.
  split; [reflexivity|]. split; [reflexivity|].
  rewrite (kept_line nl a b H), map_app, List.filter_app. reflexivity.
Qed.

End PointsLines.

(** ** Points, sentence by sentence *)

Lemma one_sentence_weaken (t : bool) (p : jsstring) :
  one_sentence t p = true -> one_sentence false p = true.
Proof.
  destruct p as [|c p]; simpl; [auto|]. intros H.
  apply andb_true_iff in H as [H H3]. apply andb_true_iff in H as [H1 _].
  rewrite H1, H3. reflexivity.
Qed.

Lemma one_sentence_suffix (t : bool) (a p : jsstring) :
  one_sentence t (a ++ p) = true -> one_sentence false p = true.
Proof.
  revert t. induction a as [|c a IH]; intros t; simpl; [apply one_sentence_weaken|].
  intros H. apply andb_true_iff in H as [_ H]. eapply IH, H.
Qed.

Lemma one_sentence_prefix (t : bool) (p b : jsstring) :
  one_sentence t (p ++ b) = true -> one_sentence t p = true.
Proof.
  revert t. induction p as [|c p IH]; intros t; simpl; [reflexivity|].
  intros H. apply andb_true_iff in H as [H H3]. rewrite H. simpl. eapply IH, H3.
Qed.

Lemma one_sentence_part (a p b : jsstring) :
  one_sentence false (a ++ p ++ b) = true -> one_sentence false p = true.
Proof. intros H. apply one_sentence_suffix in H. eapply one_sentence_prefix, H. Qed.

(** What [one_sentence] says, spelled out. *)
Lemma one_sentence_spec (t : bool) (p : jsstring) :
  one_sentence t p = true ->
  Forall (fun c => c <> 10 /\ c <> 13) p
  /\ forall a x y b, p = a ++ x :: y :: b -> is_terminator x = true -> is_space y = false.
Proof.
  revert t. induction p as [|c p IH]; intros t H.
  - split; [constructor|]. intros [|? ?] x y b E; discriminate E.
  - simpl in H. apply andb_true_iff in H as [H H3]. apply andb_true_iff in H as [H1 H2].
    destruct (IH _ H3) as [Hall Hadj]. split.
    + constructor; [|exact Hall]. apply negb_true_iff, orb_false_iff in H1 as [Ha Hb].
      apply N.eqb_neq in Ha, Hb. auto.
    + intros [|c' a] x y b E Hx.
      * simpl in E. injection E as -> ->. simpl in H3. rewrite Hx in H3.
        apply andb_true_iff in H3 as [H3 _]. apply andb_true_iff in H3 as [_ H3].
        apply negb_true_iff in H3. exact H3.
      * simpl in E. injection E as -> ->. eapply Hadj; [reflexivity|exact Hx].
Qed.

(** Every fragment of the split holds no sentence boundary; the first one
    does not start with white space when the split starts inside a
    separator or right after a terminator. *)
Lemma split_points_sentences (s : jsstring) :
  forall g t : bool,
    Forall (fun p => one_sentence false p = true) (split_points g t s)
    /\ forall p, head (split_points g t s) = Some p -> one_sentence (t || g) p = true.
Proof.
  induction s as [|c s IH]; intros g t.
  - simpl. split; [repeat constructor|]. intros p [= <-]. reflexivity.
  - simpl. destruct (g && is_space c) eqn:Hg.
    { apply andb_true_iff in Hg as [-> Hc]. destruct (IH true false) as [H1 H2].
      split; [exact H1|]. intros p Hp. rewrite orb_true_r. apply (H2 p Hp). }
    destruct ((c =? 10) || (c =? 13)) eqn:Hn.
    { destruct (IH false false) as [H1 _]. split; [constructor; [reflexivity|exact H1]|].
      intros p [= <-]. reflexivity. }
    destruct (t && is_space c) eqn:Ht.
    { destruct (IH true false) as [H1 _]. split; [constructor; [reflexivity|exact H1]|].
      intros p [= <-]. reflexivity. }
    destruct (IH false (is_terminator c)) as [H1 H2].
    destruct (split_points false (is_terminator c) s) as [|q qs] eqn:E;
      [exfalso; eapply split_points_nonempty, E|].
    specialize (H2 q eq_refl). rewrite orb_false_r in H2.
    assert (Hq : one_sentence (t || g) (c :: q) = true).
    { simpl. rewrite Hn, H2. simpl.
      destruct t, g; simpl in *; try rewrite Hg; try rewrite Ht; reflexivity. }
    apply Forall_cons in H1 as [_ H1]. simpl. split.
    + constructor; [eapply one_sentence_weaken, Hq|exact H1].
    + intros p [= <-]. exact Hq.
Qed.

Section PointsSentences.
Context {num : Type} {numbers : Numbers num}.

#[local] Abbreviation value := (value num).

(** X5: no point spans two lines or two sentences: a point holds no line feed
    and no carriage return, and inside a point no white space follows one
    of [. ? !]. *)
Theorem extractPoints_one_sentence (s : jsstring) (pts : list jsstring) (f : jsstring) :
  extractPoints (VStr s : value) = Ok pts ->
  In f pts ->
  Forall (fun c => c <> 10 /\ c <> 13) f
  /\ forall a x y b, f = a ++ x :: y :: b -> is_terminator x = true -> is_space y = false.
Proof.
  rewrite extractPoints_string. intros [= <-] Hf.
  apply filter_In in Hf as [Hf _]. apply in_map_iff in Hf as (q & <- & Hq).
  unfold kept in Hq. apply filter_In in Hq as [Hq _]. apply in_map_iff in Hq as (p & <- & Hp).
  apply (one_sentence_spec false).
  destruct (split_points_sentences s false false) as [Hall _].
  rewrite List.Forall_forall in Hall. specialize (Hall p Hp).
  destruct (trim_part p) as (a & b & E). rewrite E in Hall. apply one_sentence_part in Hall.
  destruct (strip_markers_part (trim p)) as (a' & b' & E'). rewrite E' in Hall.
  eapply one_sentence_part, Hall.
Qed.

End PointsSentences.

(** ** The lists of differences *)

Lemma mapM_In_source {A B : Type} (f : A -> result B) (xs : list A) (ys : list B) (y : B) :
  mapM f xs = Ok ys -> In y ys -> exists x, In x xs /\ f x = Ok y.
Proof.
  intros H. apply mapM_Forall2 in H.
  induction H as [|x' y' xs ys Hx HF IH]; intros Hin; [contradiction|].
  destruct Hin as [<-|Hin]; [exists x'; split; [left; reflexivity|exact Hx]|].
  destruct (IH Hin) as (x & Hx' & E). exists x. split; [right; exact Hx'|exact E].
Qed.

Section DiffsLists.
Context {num : Type} {numbers : Numbers num} {casing : Casing}.

#[local] Abbreviation value := (value num).

Lemma extractPoints_long (t : value) (pts : list jsstring) (x : jsstring) :
  extractPoints t = Ok pts -> In x pts -> (20 < length x)%nat.
Proof.
  unfold extractPoints. destruct (negb (truthy t)); [intros [= <-] []|].
  destruct t; try discriminate. intros [= <-] Hx.
  apply filter_In in Hx as [_ Hx]. apply Nat.ltb_lt, Hx.
Qed.

(** In a sentence map the texts of two entries differ. *)
Lemma point_texts_NoDup (st : list (jsstring * jsstring)) (m : list (jsstring * point)) :
  map_invariant m st -> NoDup (map (fun kv => point_text (snd kv)) m).
Proof.
  intros (Hnd & Hent & _). revert Hnd Hent.
  induction m as [|[k v] m IH]; simpl; intros Hnd Hent; [constructor|].
  apply NoDup_cons in Hnd as [Hk Hnd]. constructor.
  - rewrite list_elem_of_In, in_map_iff. intros ([k' v'] & E & Hin). simpl in E.
    apply Hk. rewrite list_elem_of_In, in_map_iff. exists (k', v'). split; [|exact Hin].
    simpl. destruct (Hent k v (or_introl eq_refl)) as (<- & _).
    destruct (Hent k' v' (or_intror Hin)) as (<- & _). congruence.
  - apply IH; [exact Hnd|]. intros k' v' Hin. apply Hent. right. exact Hin.
Qed.

Lemma same_text_same_point (st : list (jsstring * jsstring)) (m : list (jsstring * point))
    (k k' : jsstring) (v v' : point) :
  map_invariant m st -> In (k, v) m -> In (k', v') m -> point_text v = point_text v' -> v = v'.
Proof.
  intros (Hnd & Hent & _) H H' E.
  destruct (Hent k v H) as (Hk & _), (Hent k' v' H') as (Hk' & _).
  assert (k = k') as <- by congruence. eapply NoDup_keys_value; eassumption.
Qed.

(** X6: what [computeDiffs] lists: no text twice in [common] or in the list of
    a paper, no text both in [common] and in the list of a paper or in the
    lists of two papers, and every text is a point (longer than 20 code
    units) extracted from the text of a selected paper. *)
Theorem computeDiffs_lists (cr : value) (sel ps : list value) (per : list (summary_entry num))
    (al : list (aligned_paper num)) (ptss : list (list jsstring)) :
  get cr (js "papers") = Ok (VArr ps) ->
  mapM make_entry ps = Ok per ->
  mapM (align per) sel = Ok al ->
  mapM (fun a => extractPoints (aligned_text a)) al = Ok ptss ->
  exists d, computeDiffs cr sel = Ok d
    /\ NoDup (common d)
    /\ (forall P l, unique d !! P = Some l ->
          NoDup l /\ forall t, In t l -> ~ In t (common d))
    /\ (forall P Q l l' t, unique d !! P = Some l -> unique d !! Q = Some l' ->
          In t l -> In t l' -> P = Q)
    /\ (forall t, In t (common d) \/ (exists P l, unique d !! P = Some l /\ In t l) ->
          (20 < length t)%nat /\ exists pts, In pts ptss /\ In t pts).
Proof.
  intros Hpapers Hper Hal Hpts.
  destruct (computeDiffs_stages cr sel ps per al ptss Hpapers Hper Hal Hpts)
    as (d & Hd & Hc & Hu).
  set (data := combine (map aligned_id al) ptss) in *.
  set (m := sentence_map (stream data) []) in *.
  pose proof (sentence_map_spec (stream data)) as Hinv. fold m in Hinv.
  pose proof (point_texts_NoDup _ _ Hinv) as Htexts.
  assert (Hul : forall P l, unique d !! P = Some l -> l = uniques (length sel) P m).
  { intros P l H. rewrite Hu in H. destruct (bool_decide _); congruence. }
  assert (Hsound : forall k v, In (k, v) m ->
            (20 < length (point_text v))%nat
            /\ exists pts, In pts ptss /\ In (point_text v) pts).
  { intros k v Hin. destruct Hinv as (_ & Hent & _).
    destruct (Hent k v Hin) as (_ & Hdisp & _).
    unfold display in Hdisp. destruct (List.find _ (stream data)) as [[id pt]|] eqn:F; [|discriminate].
    simpl in Hdisp. injection Hdisp as ->. apply find_some in F as [F _].
    apply in_stream in F as (pts & Hdata & Hpt).
    apply in_combine_r in Hdata.
    destruct (mapM_In_source _ _ _ _ Hpts Hdata) as (a & _ & Ha).
    split; [eapply extractPoints_long; eassumption|eauto]. }
  exists d. split; [exact Hd|]. split; [|split; [|split]].
  - rewrite Hc. unfold commons. apply NoDup_map_filter, Htexts.
  - intros P l Hl. apply Hul in Hl. subst l. split.
    + unfold uniques. apply NoDup_map_filter, Htexts.
    + intros t Ht Hcm. rewrite Hc in Hcm.
      apply uniques_In in Ht as (k & v & Hin & Ev & Hne & _).
      apply commons_In in Hcm as (k' & v' & Hin' & Ev' & Hlen).
      assert (v = v') as <- by (eapply same_text_same_point; try eassumption; congruence).
      contradiction.
  - intros P Q l l' t Hl Hl' Ht Ht'. apply Hul in Hl, Hl'. subst l l'.
    apply uniques_In in Ht as (k & v & Hin & Ev & _ & Hp).
    apply uniques_In in Ht' as (k' & v' & Hin' & Ev' & _ & Hp').
    assert (v = v') as <- by (eapply same_text_same_point; try eassumption; congruence).
    congruence.
  - intros t [Ht|(P & l & Hl & Ht)].
    + rewrite Hc in Ht. apply commons_In in Ht as (k & v & Hin & <- & _). eapply Hsound, Hin.
    + apply Hul in Hl. subst l.
      apply uniques_In in Ht as (k & v & Hin & <- & _). eapply Hsound, Hin.
Qed.

End DiffsLists.

(** ** Where the recommended papers come from *)

Section RecommendationSources.
Context {num : Type} {numbers : Numbers num} {casing : Casing}.

#[local] Abbreviation value := (value num).

Lemma consider_source (savedIds : list jsstring) (cands cands' : list value) (p : value) :
  consider savedIds cands p = Ok cands' ->
  forall q, In q cands' -> In q cands \/ q = p.
Proof.
  unfold consider. intros H q Hq. inv_bind H.
  destruct (existsb _ savedIds); [injection H as <-; auto|].
  inv_bind H. destruct x0; injection H as <-; [auto|].
  apply in_app_or in Hq as [Hq|[<-|[]]]; auto.
Qed.

Lemma run_until_throw_source (savedIds : list jsstring) (items : list value) :
  forall cands q,
    In q (fst (run_until_throw (consider savedIds) items cands)) -> In q cands \/ In q items.
Proof.
  induction items as [|p items IH]; intros cands q Hq; simpl in Hq; [auto|].
  destruct (consider savedIds cands p) as [c|] eqn:E; [|auto].
  apply IH in Hq as [Hq|Hq]; [|simpl; auto].
  destruct (consider_source _ _ _ _ E q Hq) as [H| ->]; simpl; auto.
Qed.

Lemma merge_result_source (savedIds : list jsstring) (cands : list value) (res q : value) :
  In q (fst (merge_result savedIds cands res)) -> In q cands \/ In q (offered res).
Proof.
  unfold merge_result, offered. destruct (negb (truthy res)); [auto|].
  destruct (get res (js "results")) as [r|]; [|auto].
  destruct (get res (js "papers")) as [ps|]; [|auto].
  destruct (elements_of _) as [items|]; [|auto].
  apply run_until_throw_source.
Qed.

Lemma merge_results_source (savedIds : list jsstring) (results : list value) :
  forall cands q,
    In q (merge_results savedIds results cands) ->
    In q cands \/ exists res, In res results /\ In q (offered res).
Proof.
  induction results as [|res results IH]; intros cands q Hq; simpl in Hq; [auto|].
  pose proof (merge_result_source savedIds cands res) as Hs.
  destruct (merge_result savedIds cands res) as [c [|]]; simpl in Hs.
  - apply IH in Hq as [Hq|(res' & Hin & Hq)].
    + apply Hs in Hq as [Hq|Hq]; [auto|]. right. exists res. simpl. auto.
    + right. exists res'. simpl. auto.
  - apply Hs in Hq as [Hq|Hq]; [auto|]. right. exists res. simpl. auto.
Qed.

Variable search : jsstring -> value.

(** X11: every recommended paper was offered by the search for one of the first
    four topics; there are at most ten papers and at most eight topics, and
    without topics no paper is recommended. *)
Theorem recommendations_from_search (prof : value) (r : recommendations) :
  compute_fallback search prof = Ok r ->
  (forall p, In p (papers r) ->
     exists t, In t (firstn 4 (topics r)) /\ In p (offered (search t)))
  /\ (length (papers r) <= 10)%nat
  /\ (length (topics r) <= 8)%nat
  /\ (topics r = [] -> papers r = []).
Proof.
  unfold compute_fallback. intros H.
  inv_bind H. inv_bind H. inv_bind H. inv_bind H. inv_bind H. inv_bind H. inv_bind H. inv_bind H.
  injection H as <-. simpl.
  assert (Hsrc : forall p, In p (firstn 10 (merge_results x6 (map search (firstn 4 (topics_of x5))) [])) ->
            exists t, In t (firstn 4 (topics_of x5)) /\ In p (offered (search t))).
  { intros p Hp. apply firstn_sublist_In in Hp.
    apply merge_results_source in Hp as [[]|(res & Hres & Hp)].
    apply in_map_iff in Hres as (t & <- & Ht). eauto. }
  split; [exact Hsrc|]. split; [apply List.firstn_le_length|]. split.
  - unfold topics_of, ranked. rewrite length_map. apply List.firstn_le_length.
  - intros Htop. rewrite Htop. reflexivity.
Qed.

(** X12: a profile without saved papers and without search history gets no
    topics and no papers (and no search is made for it). *)
Theorem fresh_profile_no_recommendations (prof sp sh : value) :
  get prof (js "savedPapers") = Ok sp ->
  get prof (js "searchHistory") = Ok sh ->
  elements_of (or_else sp (VArr [])) = Ok [] ->
  elements_of (or_else sh (VArr [])) = Ok [] ->
  compute_fallback search prof = Ok {| topics := []; papers := [] |}.
Proof.
  intros Hsp Hsh Es Eh. unfold compute_fallback.
  rewrite Hsp. simpl. rewrite Es. simpl. rewrite Hsh. simpl. rewrite Eh. reflexivity.
Qed.

End RecommendationSources.

(** ** Papers with the same points *)

Lemma filter_all {A : Type} (p : A -> bool) (l : list A) :
  (forall x, In x l -> p x = true) -> List.filter p l = l.
Proof.
  induction l as [|x l IH]; simpl; intros H; [reflexivity|].
  rewrite (H x (or_introl eq_refl)). f_equal. apply IH. intros y Hy. apply H. right. exact Hy.
Qed.

Lemma filter_none {A : Type} (p : A -> bool) (l : list A) :
  (forall x, In x l -> p x = false) -> List.filter p l = [].
Proof.
  induction l as [|x l IH]; simpl; intros H; [reflexivity|].
  rewrite (H x (or_introl eq_refl)). apply IH. intros y Hy. apply H. right. exact Hy.
Qed.

Section SameText.
Context {num : Type} {numbers : Numbers num} {casing : Casing}.

#[local] Abbreviation value := (value num).

(** X7: papers whose texts give the same points have no unique point: every
    point is common, under a text that is one of the points, no text and no
    lowercased key is listed twice, and the list of every paper is empty. *)
Theorem same_points_all_common (cr : value) (sel ps : list value)
    (per : list (summary_entry num)) (al : list (aligned_paper num))
    (ptss : list (list jsstring)) (pts : list jsstring) :
  get cr (js "papers") = Ok (VArr ps) ->
  mapM make_entry ps = Ok per ->
  mapM (align per) sel = Ok al ->
  mapM (fun a => extractPoints (aligned_text a)) al = Ok ptss ->
  NoDup (map aligned_id al) ->
  (forall pts', In pts' ptss -> pts' = pts) ->
  sel <> [] ->
  exists d, computeDiffs cr sel = Ok d
    /\ (forall P l, unique d !! P = Some l -> l = [])
    /\ (forall t, In t (common d) -> In t pts)
    /\ (forall pt, In pt pts -> exists t, In t (common d) /\ toLowerCase t = toLowerCase pt)
    /\ NoDup (common d)
    /\ NoDup (map toLowerCase (common d)).
Proof.
  intros Hpapers Hper Hal Hpts Hnd Hsame Hsel.
  destruct (computeDiffs_stages cr sel ps per al ptss Hpapers Hper Hal Hpts)
    as (d & Hd & Hc & Hu).
  set (data := combine (map aligned_id al) ptss) in *.
  set (m := sentence_map (stream data) []) in *.
  assert (Hlen : length al = length sel) by (eapply mapM_length; exact Hal).
  assert (Hlen' : length ptss = length al) by (eapply mapM_length; exact Hpts).
  assert (Hids : map fst data = map aligned_id al).
  { unfold data. apply map_fst_combine. rewrite length_map. lia. }
  rewrite <- Hids in Hnd.
  assert (Hdata : forall id pts', In (id, pts') data -> pts' = pts).
  { intros id pts' H. apply Hsame. eapply in_combine_r, H. }
  destruct (sentence_map_spec (stream data)) as (Hkeys & Hent & Hcov).
  fold m in Hkeys, Hent, Hcov.
  assert (Hin_pts : forall k v, In (k, v) m ->
            In (point_text v) pts /\ exists pt, In pt pts /\ toLowerCase pt = k).
  { intros k v Hin. destruct (Hent k v Hin) as (Hk & Hdisp & _).
    unfold display in Hdisp.
    destruct (List.find _ (stream data)) as [[id pt]|] eqn:F; [|discriminate].
    simpl in Hdisp. injection Hdisp as E. apply find_some in F as [F _].
    apply in_stream in F as (pts' & Hd' & Hpt). apply Hdata in Hd'. subst pts'.
    rewrite <- E. split; [exact Hpt|]. exists pt. split; [exact Hpt|]. congruence. }
  assert (Hall : forall k v, In (k, v) m -> length (point_papers v) = length sel).
  { intros k v Hin. rewrite (Permutation_length (papers_owners data k v Hnd Hin)).
    unfold owners. rewrite filter_all.
    - rewrite length_map. unfold data. rewrite length_combine, length_map. lia.
    - intros [id pts'] Hd'. simpl. pose proof (Hdata id pts' Hd') as ->.
      destruct (Hin_pts k v Hin) as (_ & pt & Hpt & E).
      apply existsb_exists. exists pt. split; [exact Hpt|]. apply jseq_true, E. }
  exists d. split; [exact Hd|]. split; [|split; [|split; [|split]]].
  - intros P l Hl. rewrite Hu in Hl. destruct (bool_decide _); [|discriminate].
    injection Hl as <-. unfold uniques. rewrite filter_none; [reflexivity|].
    intros [k v] Hin. simpl. rewrite (Hall k v Hin), Nat.eqb_refl. reflexivity.
  - intros t Ht. rewrite Hc in Ht. apply commons_In in Ht as (k & v & Hin & <- & _).
    apply (Hin_pts k v Hin).
  - intros pt Hpt.
    destruct al as [|a al]; [destruct sel; [contradiction|discriminate Hlen]|].
    destruct ptss as [|pts' ptss]; [discriminate Hlen'|].
    assert (pts' = pts) as -> by (apply Hsame; left; reflexivity).
    assert (Hst : In (aligned_id a, pt) (stream data)).
    { apply in_stream. exists pts. split; [left; reflexivity|exact Hpt]. }
    apply Hcov in Hst. apply in_map_iff in Hst as ([k v] & Ek & Hin). simpl in Ek. subst k.
    exists (point_text v). split.
    + rewrite Hc. apply commons_In. exists (toLowerCase pt), v.
      split; [exact Hin|]. split; [reflexivity|]. apply (Hall _ _ Hin).
    + apply (Hent _ _ Hin).
  - rewrite Hc. unfold commons. apply NoDup_map_filter.
    apply (point_texts_NoDup (stream data)). apply sentence_map_spec.
  - rewrite Hc. unfold commons. rewrite List.map_map.
    rewrite (List.map_ext_in _ fst).
    + apply NoDup_map_filter. exact Hkeys.
    + intros [k v] Hin. apply filter_In in Hin as [Hin _]. simpl. apply (Hent k v Hin).
Qed.

End SameText.

(** ** The summary cards *)

Section SummaryCardFacts.
Context {num : Type} {numbers : Numbers num}.

#[local] Abbreviation value := (value num).

Lemma make_entry_paper_id (p : value) (y : summary_entry num) (id : value) :
  make_entry p = Ok y -> get p (js "paper_id") = Ok id -> truthy id = true ->
  to_string id = Ok (entry_id y)
  /\ exists fields sm, p = VObj fields /\ get p (js "summary") = Ok sm
                       /\ entry_text y = or_else sm (VStr []).
Proof.
  unfold make_entry. intros H Hid Ht. rewrite Hid in H. simpl in H.
  inv_bind H. inv_bind H. inv_bind H. injection H as <-. simpl.
  unfold or_else in E0. rewrite Ht in E0. split; [exact E0|].
  destruct (get_member p id (js "paper_id") Hid) as [fields ->].
  { intros ->. discriminate Ht. }
  exists fields, x1. auto.
Qed.

(** The entry the card finds is the one [computeDiffs] finds, when every
    backend entry has a truthy [paper_id]. *)
Lemma findM_entries (ps : list value) (per : list (summary_entry num)) (s i : value)
    (sid : jsstring) :
  Forall2 (fun p y => make_entry p = Ok y) ps per ->
  (forall p, In p ps -> exists id, get p (js "paper_id") = Ok id /\ truthy id = true) ->
  get s (js "id") = Ok i -> to_string i = Ok sid ->
  exists o,
    findM (fun x => let* a := get x (js "paper_id") in
                    let* sa := to_string a in
                    let* i := get s (js "id") in
                    let* si := to_string i in
                    Ok (jseq sa si)) ps = Ok o
    /\ match o, List.find (fun y => jseq (entry_id y) sid) per with
       | Some p, Some y => In p ps /\ make_entry p = Ok y
       | None, None => True
       | _, _ => False
       end.
Proof.
  intros HF Hid Hi Hsid.
  set (f := fun x : value => let* a := get x (js "paper_id") in
                             let* sa := to_string a in
                             let* i := get s (js "id") in
                             let* si := to_string i in
                             Ok (jseq sa si)).
  induction HF as [|p y ps per Hp HF IH]; cbn [findM List.find].
  - exists None. auto.
  - destruct (Hid p (or_introl eq_refl)) as (id & Hg & Ht).
    destruct (make_entry_paper_id p y id Hp Hg Ht) as (Hs & _).
    assert (Hf : f p = Ok (jseq (entry_id y) sid)).
    { unfold f. rewrite Hg. simpl. rewrite Hs. simpl. rewrite Hi. simpl. rewrite Hsid. reflexivity. }
    rewrite Hf. simpl.
    destruct (jseq (entry_id y) sid).
    + exists (Some p). auto.
    + destruct IH as (o & Ho & Hm); [intros p' Hp'; apply Hid; right; exact Hp'|].
      exists o. split; [exact Ho|].
      destruct o as [p'|], (List.find _ per) as [y'|]; try exact Hm.
      destruct Hm as [Hin Hm]. split; [right; exact Hin|exact Hm].
Qed.

End SummaryCardFacts.

Section SummaryCardTheorems.
Context {num : Type} {numbers : Numbers num}.

#[local] Abbreviation value := (value num).

(** X8: the card of a selected paper shows the very text from which
    [computeDiffs] takes the paper's points, whenever that text is not
    empty and every backend entry has a truthy [paper_id]. *)
Theorem summary_card_agrees (cr s : value) (ps : list value)
    (per : list (summary_entry num)) (a : aligned_paper num) :
  get cr (js "papers") = Ok (VArr ps) ->
  mapM make_entry ps = Ok per ->
  align per s = Ok a ->
  (forall p, In p ps -> exists id, get p (js "paper_id") = Ok id /\ truthy id = true) ->
  truthy (aligned_text a) = true ->
  summaryText cr s = Ok (aligned_text a).
Proof.
  intros Hcr Hper Ha Hids Ht. apply mapM_Forall2 in Hper.
  unfold align in Ha. inv_bind Ha. inv_bind Ha. inv_bind Ha. inv_bind Ha. inv_bind Ha. inv_bind Ha.
  injection Ha as <-. simpl in Ht |- *.
  destruct (findM_entries ps per s x x0 Hper Hids E E0) as (o & Ho & Hm).
  unfold summaryText. rewrite Hcr. simpl. rewrite Ho. simpl.
  destruct o as [p|], (List.find _ per) as [y|]; try contradiction.
  - destruct Hm as [Hin Hp]. destruct (Hids p Hin) as (id & Hg & Hti).
    destruct (make_entry_paper_id p y id Hp Hg Hti) as (_ & fields & sm & -> & Hsm & Hy).
    simpl default. unfold or_else at 1. simpl truthy. cbv iota. rewrite Hsm. simpl.
    rewrite Hy in Ht |- *. unfold or_else in Ht |- *.
    destruct (truthy sm); [reflexivity|discriminate Ht].
  - simpl. rewrite E3. simpl. unfold or_else in Ht |- *.
    destruct (truthy x3); [reflexivity|]. rewrite E4. simpl.
    destruct (truthy x4); [reflexivity|discriminate Ht].
Qed.

(** X9: a card is never blank: the text it shows is truthy (at the least the
    notice that no summary is available). *)
Theorem summary_card_never_blank (cr p t : value) :
  summaryText cr p = Ok t -> truthy t = true.
Proof.
  unfold summaryText. intros H. inv_bind H. inv_bind H. inv_bind H. inv_bind H.
  destruct (truthy x2) eqn:T2; [injection H as <-; exact T2|].
  inv_bind H. destruct (truthy x3) eqn:T3; [injection H as <-; exact T3|].
  inv_bind H. injection H as <-. unfold or_else.
  destruct (truthy x4) eqn:T4; [exact T4|reflexivity].
Qed.

End SummaryCardTheorems.

(** ** The evidence graph: edges and nodes *)

Lemma nth_map_lookup {A : Type} (f : A -> jsstring) (l : list A) (k : nat) (x : A) :
  l !! k = Some x -> nth k (map f l) [] = f x.
Proof.
  revert k. induction l as [|y l IH]; intros [|k]; simpl; try discriminate.
  - intros [= ->]. reflexivity.
  - apply IH.
Qed.

Section GraphClosed.
Context {num : Type} {numbers : Numbers num} {casing : Casing}.

#[local] Abbreviation value := (value num).

(** X10: every edge of a synthesized graph joins two nodes of the graph, at
    different positions of the selection, and carries exactly one evidence
    record. *)
Theorem synthesized_edges_closed (cr : value) (sel : list value)
    (nodes : list (node num)) (edges : list (edge num)) (e : edge num) :
  buildFallbackEvidenceGraph cr sel = Ok (Synthesized nodes edges) ->
  In e edges ->
  exists i j ni nj,
    i <> j
    /\ nodes !! i = Some ni /\ nodes !! j = Some nj
    /\ source e = node_id ni /\ target e = node_id nj
    /\ length (evidence e) = 1%nat.
Proof.
  intros H He. apply synthesized_edges in H as (emb & _ & -> & _).
  unfold edges_of in He. apply in_flat_map in He as ([i j] & Hp & He).
  apply pairs_spec in Hp. simpl in He.
  assert (Hn : forall k, (k < length nodes)%nat ->
                 exists n, nodes !! k = Some n /\ nth k (map node_id nodes) [] = node_id n).
  { intros k Hk. destruct (lookup_lt_is_Some_2 nodes k Hk) as [n Hn]. exists n.
    split; [exact Hn|]. apply nth_map_lookup, Hn. }
  destruct (Hn i ltac:(lia)) as (ni & Hi & Ei), (Hn j ltac:(lia)) as (nj & Hj & Ej).
  destruct He as [<-|[<-|[]]].
  - exists i, j, ni, nj. simpl. repeat split; auto. lia.
  - exists j, i, nj, ni. simpl. repeat split; auto. lia.
Qed.

End GraphClosed.

(** ** The filters *)

Lemma filter_other_id (topic : jsstring) (l : list jsstring) :
  ~ In topic l -> List.filter (fun t => negb (jseq t topic)) l = l.
Proof.
  induction l as [|x l IH]; simpl; intros H; [reflexivity|].
  destruct (jseq x topic) eqn:E.
  - apply jseq_true in E. subst x. tauto.
  - simpl. f_equal. apply IH. tauto.
Qed.

Lemma filter_other_In (topic t : jsstring) (l : list jsstring) :
  In t (List.filter (fun t => negb (jseq t topic)) l) <-> In t l /\ t <> topic.
Proof.
  rewrite filter_In. rewrite negb_true_iff, jseq_false. reflexivity.
Qed.

Lemma NoDup_filter_list {A : Type} (p : A -> bool) (l : list A) :
  NoDup l -> NoDup (List.filter p l).
Proof.
  induction 1 as [|x l Hx Hl IH]; simpl; [constructor|].
  destruct (p x); [|exact IH]. constructor; [|exact IH].
  rewrite list_elem_of_In, filter_In. rewrite list_elem_of_In in Hx. tauto.
Qed.

Lemma filter_remove_perm (topic : jsstring) (l : list jsstring) :
  NoDup l -> In topic l ->
  Permutation (List.filter (fun t => negb (jseq t topic)) l ++ [topic]) l.
Proof.
  induction 1 as [|x l Hx Hl IH]; simpl; [contradiction|].
  rewrite list_elem_of_In in Hx. intros [->|Hin].
  - rewrite jseq_refl. simpl. rewrite filter_other_id by exact Hx.
    symmetry. apply Permutation_cons_append.
  - destruct (jseq x topic) eqn:E.
    + apply jseq_true in E. subst x. contradiction.
    + simpl. apply perm_skip, IH, Hin.
Qed.

(** X19: clicking a topic toggles it and nothing else: the topic is selected
    afterwards exactly when it was not before, every other topic keeps its
    state, no topic comes to be listed twice, and the results go back to
    page 1 with the year range as it was. *)
Theorem topic_toggle (topic : jsstring) (st : filters) :
  (In topic (selectedTopics (handleTopicChange topic st)) <-> ~ In topic (selectedTopics st))
  /\ (forall t, t <> topic ->
        (In t (selectedTopics (handleTopicChange topic st)) <-> In t (selectedTopics st)))
  /\ (NoDup (selectedTopics st) -> NoDup (selectedTopics (handleTopicChange topic st)))
  /\ page (handleTopicChange topic st) = 1%Z
  /\ yearRange (handleTopicChange topic st) = yearRange st.
Proof.
  unfold handleTopicChange. simpl.
  destruct (existsb (jseq topic) (selectedTopics st)) eqn:E.
  - apply existsb_jseq in E. split; [|split; [|split; [|split; reflexivity]]].
    + rewrite filter_other_In. tauto.
    + intros t Ht. rewrite filter_other_In. tauto.
    + apply NoDup_filter_list.
  - assert (Hn : ~ In topic (selectedTopics st)).
    { intros H. apply existsb_jseq in H. congruence. }
    split; [|split; [|split; [|split; reflexivity]]].
    + rewrite in_app_iff. simpl. tauto.
    + intros t Ht. rewrite in_app_iff. simpl. split; [intros [H|[H|[]]]; congruence|auto].
    + intros Hnd. apply NoDup_app. split; [exact Hnd|]. split; [|apply NoDup_singleton].
      intros x Hx Hx'. apply list_elem_of_singleton in Hx'. subst x.
      apply list_elem_of_In in Hx. contradiction.
Qed.

(** X20: clicking a topic twice gives back the selection: the same topics (in
    the same order when the topic was not selected before; with the topic
    moved to the end when it was). *)
Theorem topic_toggle_twice (topic : jsstring) (st : filters) :
  NoDup (selectedTopics st) ->
  Permutation (selectedTopics (handleTopicChange topic (handleTopicChange topic st)))
              (selectedTopics st)
  /\ (~ In topic (selectedTopics st) ->
      selectedTopics (handleTopicChange topic (handleTopicChange topic st)) = selectedTopics st)
  /\ (In topic (selectedTopics st) ->
      selectedTopics (handleTopicChange topic (handleTopicChange topic st))
      = List.filter (fun t => negb (jseq t topic)) (selectedTopics st) ++ [topic]).
Proof.
  intros Hnd. unfold handleTopicChange. simpl.
  destruct (existsb (jseq topic) (selectedTopics st)) eqn:E.
  - apply existsb_jseq in E.
    assert (Hn : existsb (jseq topic)
                   (List.filter (fun t => negb (jseq t topic)) (selectedTopics st)) = false).
    { destruct (existsb _ (List.filter _ _)) eqn:E'; [|reflexivity].
      apply existsb_jseq, filter_other_In in E'. tauto. }
    rewrite Hn. split; [apply filter_remove_perm; assumption|]. split; [tauto|reflexivity].
  - assert (Hn : ~ In topic (selectedTopics st)).
    { intros H. apply existsb_jseq in H. congruence. }
    assert (Hy : existsb (jseq topic) (selectedTopics st ++ [topic]) = true).
    { apply existsb_jseq, in_or_app. right. left. reflexivity. }
    rewrite Hy. rewrite List.filter_app. simpl. rewrite jseq_refl. simpl.
    rewrite app_nil_r, filter_other_id by exact Hn.
    split; [reflexivity|]. split; [reflexivity|tauto].
Qed.

(** *** Years *)

Lemma take_while_all (p : N -> bool) (s : jsstring) :
  Forall (fun c => p c = true) s -> take_while p s = s.
Proof. induction 1 as [|c s Hc _ IH]; simpl; [reflexivity|]. rewrite Hc, IH. reflexivity. Qed.

Lemma of_uint_acc_digits (d : Decimal.uint) (acc : nat) :
  N.of_nat (Nat.of_uint_acc d acc) =
  fold_left (fun a c => 10 * a + (c - 48)) (uint_digits d) (N.of_nat acc).
Proof.
  revert acc. induction d; intros acc; cbn [Nat.of_uint_acc uint_digits fold_left];
    [reflexivity| | | | | | | | | |];
    rewrite IHd; f_equal; rewrite Nat.tail_mul_spec; lia.
Qed.

Lemma digits_value_decimal (n : nat) : digits_value (decimal n) = N.of_nat n.
Proof.
  unfold decimal, digits_value.
  pose proof (of_uint_acc_digits (Nat.to_uint n) 0) as H.
  change (Nat.of_uint_acc (Nat.to_uint n) 0) with (Nat.of_uint (Nat.to_uint n)) in H.
  rewrite DecimalNat.Unsigned.of_to in H. symmetry. exact H.
Qed.

Lemma decimal_digits (n : nat) : Forall (fun c => is_digit c = true) (decimal n).
Proof. apply uint_digits_digit. Qed.

Lemma decimal_nonempty (n : nat) : decimal n <> [].
Proof.
  unfold decimal. intros H.
  assert (E : Nat.to_uint n = Decimal.Nil).
  { destruct (Nat.to_uint n); simpl in H; try discriminate. reflexivity. }
  assert (n = 0%nat) as -> by (rewrite <- (DecimalNat.Unsigned.of_to n), E; reflexivity).
  discriminate E.
Qed.

Lemma decimal_head_digit (n : nat) :
  exists c r, decimal n = c :: r /\ is_digit c = true.
Proof.
  pose proof (decimal_digits n) as H. pose proof (decimal_nonempty n) as Hn.
  destruct (decimal n) as [|c r]; [contradiction|].
  apply Forall_cons in H as [Hc _]. eauto.
Qed.

Lemma digit_not_space (c : N) : is_digit c = true -> is_space c = false /\ c <> 45 /\ c <> 43.
Proof.
  intros H. apply is_digit_range in H.
  assert (Hc : c = 48 \/ c = 49 \/ c = 50 \/ c = 51 \/ c = 52 \/ c = 53 \/ c = 54
               \/ c = 55 \/ c = 56 \/ c = 57) by lia.
  repeat split; try lia.
  destruct Hc as [->|[->|[->|[->|[->|[->|[->|[->|[->| ->]]]]]]]]]; reflexivity.
Qed.

Lemma parseInt_digits (s : jsstring) (c : N) (r : jsstring) :
  s = c :: r -> Forall (fun c => is_digit c = true) s ->
  parseInt s = Some (Z.of_N (digits_value s)).
Proof.
  intros -> H. pose proof H as H'. apply Forall_cons in H' as [Hc _].
  destruct (digit_not_space c Hc) as (Hs & Hm & Hp).
  unfold parseInt. cbn [drop_while]. rewrite Hs.
  assert (E : match c :: r with
              | 45 :: r0 => (true, r0)
              | 43 :: r0 => (false, r0)
              | _ => (false, c :: r)
              end = (false, c :: r)).
  { destruct c as [|p]; [reflexivity|].
    do 6 (destruct p as [p|p|]; try reflexivity); congruence. }
  rewrite E. cbn [snd fst]. rewrite take_while_all by exact H. reflexivity.
Qed.

(** Reading back the decimal text of an integer gives the integer. *)
Lemma parseInt_toString (z : Z) : parseInt (Z_toString z) = Some z.
Proof.
  destruct z as [|p|p]; [reflexivity| |].
  - unfold Z_toString. destruct (decimal_head_digit (Pos.to_nat p)) as (c & r & E & Hc).
    rewrite (parseInt_digits _ c r E (decimal_digits _)), digits_value_decimal.
    f_equal. lia.
  - unfold Z_toString. change (js "-" ++ decimal (Pos.to_nat p)) with (45 :: decimal (Pos.to_nat p)).
    unfold parseInt. cbn [drop_while]. change (is_space 45) with false. cbv iota. cbn [snd fst].
    rewrite take_while_all by apply decimal_digits.
    destruct (decimal (Pos.to_nat p)) as [|c r] eqn:E; [exfalso; eapply decimal_nonempty, E|].
    rewrite <- E, digits_value_decimal. f_equal. lia.
Qed.

Lemma parseInt_blank (s : jsstring) : Forall (fun c => is_space c = true) s -> parseInt s = None.
Proof.
  intros H. unfold parseInt.
  assert (E : drop_while is_space s = []).
  { induction H as [|c s Hc _ IH]; simpl; [reflexivity|]. rewrite Hc. exact IH. }
  rewrite E. reflexivity.
Qed.

(** X21: the two year fields keep the range in order, between 1900 and the
    current year, whatever is typed, and each field leaves the other year
    alone. *)
Theorem year_range_invariant (now : Z) (input : jsstring) (st : filters) :
  year_invariant now st ->
  year_invariant now (handleYearFromChange input st)
  /\ snd (yearRange (handleYearFromChange input st)) = snd (yearRange st)
  /\ year_invariant now (handleYearToChange now input st)
  /\ fst (yearRange (handleYearToChange now input st)) = fst (yearRange st).
Proof.
  unfold year_invariant, handleYearFromChange, handleYearToChange. intros H.
  destruct (parseInt input) as [val|]; simpl; repeat split; try tauto; lia.
Qed.

(** X22: typing a year into the From field sets the first year to it, moved into
    the range from 1900 to the last year; typing a year into the To field
    sets the last year to it, moved into the range from the first year to
    the current year. In both cases the results go back to page 1. *)
Theorem year_typed (now z : Z) (st : filters) :
  year_invariant now st ->
  yearRange (handleYearFromChange (Z_toString z) st)
  = ((if z <? 1900 then 1900 else if snd (yearRange st) <? z then snd (yearRange st) else z)%Z,
     snd (yearRange st))
  /\ yearRange (handleYearToChange now (Z_toString z) st)
     = (fst (yearRange st),
        (if z <? fst (yearRange st) then fst (yearRange st) else if now <? z then now else z)%Z)
  /\ page (handleYearFromChange (Z_toString z) st) = 1%Z
  /\ page (handleYearToChange now (Z_toString z) st) = 1%Z.
Proof.
  unfold year_invariant, handleYearFromChange, handleYearToChange. intros H.
  rewrite parseInt_toString. simpl. repeat split; f_equal.
  - destruct (Z.ltb_spec z 1900), (Z.ltb_spec (snd (yearRange st)) z); lia.
  - destruct (Z.ltb_spec z (fst (yearRange st))), (Z.ltb_spec now z); lia.
Qed.

(** X23: a year field that is cleared (or holds white space only) changes
    nothing: the range, the topics and the page stay as they are. *)
Theorem year_blank_ignored (now : Z) (input : jsstring) (st : filters) :
  Forall (fun c => is_space c = true) input ->
  handleYearFromChange input st = st /\ handleYearToChange now input st = st.
Proof.
  intros H. unfold handleYearFromChange, handleYearToChange.
  rewrite (parseInt_blank input H). split; reflexivity.
Qed.

(** *** Columns and pages *)

(** X24: the cards of the compare dialog are between 3 and 12 columns wide, and
    the cards of all selected papers fit the 12 columns of one row exactly
    when at most four papers are selected. *)
Theorem compare_columns_fit (n : nat) :
  (3 <= compareColMd n <= 12)%nat
  /\ ((n * compareColMd n <= 12)%nat <-> (n <= 4)%nat).
Proof.
  unfold compareColMd.
  destruct (Nat.le_gt_cases n 12) as [Hle|Hgt].
  - do 13 (destruct n as [|n]; [simpl; lia|]). lia.
  - rewrite (Nat.max_r 1 n) by lia. rewrite Nat.div_small by lia. simpl. lia.
Qed.

Lemma round_div_bounds (a b : N) : b <> 0 -> a / b <= round_div a b <= a / b + 1.
Proof.
  intros Hb. unfold round_div.
  destruct (2 * (a mod b) <? b); [lia|]. destruct (b <? 2 * (a mod b)); [lia|].
  destruct (N.even (a / b)); lia.
Qed.

Lemma round_div_up (a b : N) : b < 2 * (a mod b) -> round_div a b = a / b + 1.
Proof.
  intros H. unfold round_div.
  destruct (N.ltb_spec (2 * (a mod b)) b); [lia|].
  destruct (N.ltb_spec b (2 * (a mod b))); [reflexivity|lia].
Qed.

Lemma round_div_exact (a b : N) : a mod b = 0 -> b <> 0 -> round_div a b = a / b.
Proof.
  intros H Hb. unfold round_div. rewrite H.
  destruct (N.ltb_spec (2 * 0) b); [reflexivity|lia].
Qed.

(** At a scale of 8 or more, the rounded quotient of a number that is not a
    multiple of ten lies strictly above the integer below the exact
    quotient, and not above the integer above it. *)
Lemma round_tenth (k r P : N) :
  8 <= P -> 0 < r < 10 ->
  k * P < round_div ((10 * k + r) * P) 10 <= (k + 1) * P.
Proof.
  intros HP Hr.
  set (a := (10 * k + r) * P).
  pose proof (N.div_mod a 10 ltac:(lia)) as Hdm.
  pose proof (N.mod_lt a 10 ltac:(lia)) as Hlt.
  pose proof (round_div_bounds a 10 ltac:(lia)) as Hb.
  assert (Ha : a = 10 * (k * P) + r * P) by (unfold a; lia).
  set (q := a / 10) in *. set (m := a mod 10) in *.
  split.
  - destruct (N.le_gt_cases q (k * P)) as [Hq|Hq]; [|lia].
    assert (q = k * P) by nia.
    assert (m = r * P) by lia.
    rewrite round_div_up; fold q m; nia.
  - assert (q < (k + 1) * P) by nia. lia.
Qed.

Lemma ceil_between (m k P s : N) :
  P = 2 ^ s -> k * P < m <= (k + 1) * P ->
  ceil {| numerator := m; scale := s |} = k + 1.
Proof.
  intros HP H. unfold ceil. simpl. rewrite <- HP.
  assert (P <> 0) by (subst P; apply N.pow_nonzero; lia).
  pose proof (N.div_mod m P ltac:(assumption)) as Hdm.
  pose proof (N.mod_lt m P ltac:(assumption)) as Hlt.
  set (q := m / P) in *. set (r := m mod P) in *.
  destruct (N.eqb_spec r 0) as [E|E].
  - rewrite E in Hdm. nia.
  - nia.
Qed.

Lemma ceil_exact (k P s : N) :
  P = 2 ^ s -> ceil {| numerator := k * P; scale := s |} = k.
Proof.
  intros HP. unfold ceil. simpl. rewrite <- HP.
  assert (P <> 0) by (subst P; apply N.pow_nonzero; lia).
  rewrite N.Div0.mod_mul, N.div_mul by assumption. reflexivity.
Qed.

(** Below [2 ^ 53] the quotient is rounded at a scale of 8 or more. *)
Lemma safe_scale (count : N) :
  0 < count -> count < 2 ^ 53 ->
  exists s, 8 <= 2 ^ s
    /\ divide_by_ten count = {| numerator := round_div (count * 2 ^ s) 10; scale := s |}.
Proof.
  intros H0 H. unfold divide_by_ten.
  destruct (N.eqb_spec count 0); [lia|].
  assert (Hl : N.log2 count < 53) by (apply N.log2_lt_pow2; [lia|exact H]).
  set (la := N.log2 count) in *.
  set (t := if 5 * 2 ^ la <=? 4 * count then 55 else 56).
  assert (Ht : 55 <= t) by (unfold t; destruct (_ <=? _); lia).
  destruct (N.leb_spec la t); [|lia].
  exists (t - la). split; [|reflexivity].
  change 8 with (2 ^ 3). apply N.pow_le_mono_r; lia.
Qed.

(** Below [2 ^ 53] the ceiling of the rounded quotient is the ceiling of the
    exact one. *)
Lemma ceil_tenth (count : N) :
  count < 2 ^ 53 ->
  ceil (divide_by_ten count) = if count mod 10 =? 0 then count / 10 else count / 10 + 1.
Proof.
  intros H. destruct (N.eqb_spec count 0) as [->|Hc]; [reflexivity|].
  destruct (safe_scale count ltac:(lia) H) as (s & Hs & ->).
  pose proof (N.div_mod count 10 ltac:(lia)) as Hdm.
  pose proof (N.mod_lt count 10 ltac:(lia)) as Hlt.
  set (k := count / 10) in *. set (r := count mod 10) in *.
  destruct (N.eqb_spec r 0) as [E|E].
  - assert (count * 2 ^ s = k * 2 ^ s * 10) as -> by lia.
    rewrite round_div_exact; [|apply N.Div0.mod_mul|lia].
    rewrite N.div_mul by lia. apply ceil_exact. reflexivity.
  - rewrite Hdm. apply ceil_between with (P := 2 ^ s); [reflexivity|].
    apply round_tenth; lia.
Qed.

(** X25: for a count below [2 ^ 53] the page count covers every result with
    pages of ten and has no empty last page; without results there is one
    page. *)
Theorem pages_cover (count : N) :
  count < 2 ^ 53 ->
  1 <= totalPages count
  /\ count <= 10 * totalPages count
  /\ (0 < count -> 10 * (totalPages count - 1) < count)
  /\ (count = 0 -> totalPages count = 1).
Proof.
  intros H. unfold totalPages. rewrite ceil_tenth by exact H.
  pose proof (N.div_mod count 10 ltac:(lia)) as Hdm.
  pose proof (N.mod_lt count 10 ltac:(lia)) as Hlt.
  set (q := count / 10) in *. set (r := count mod 10) in *. clearbody q r.
  destruct (N.eqb_spec r 0) as [E|E].
  - destruct (N.max_spec 1 q) as [[? ->]|[? ->]];
      (split; [lia|]); (split; [lia|]); (split; [lia|]); intros; lia.
  - destruct (N.max_spec 1 (q + 1)) as [[? ->]|[? ->]];
      (split; [lia|]); (split; [lia|]); (split; [lia|]); intros; lia.
Qed.

(** Beyond [2 ^ 53] the rounding of the quotient can lose results: the count
    below is a double, and its pages do not hold it. *)
Lemma pages_beyond_safe_integers :
  10 * totalPages 22517998136852492 < 22517998136852492.
Proof. vm_compute. reflexivity. Qed.

(** ** Inputs on which nothing throws *)

Lemma mapM_total {A B : Type} (f : A -> result B) (Q : B -> Prop) (xs : list A) :
  (forall x, In x xs -> exists y, f x = Ok y /\ Q y) ->
  exists ys, mapM f xs = Ok ys /\ Forall Q ys.
Proof.
  induction xs as [|x xs IH]; intros H; simpl.
  - exists []. split; [reflexivity|constructor].
  - destruct (H x (or_introl eq_refl)) as (y & -> & Hy).
    destruct IH as (ys & -> & Hys); [intros x' Hx'; apply H; right; exact Hx'|].
    exists (y :: ys). split; [reflexivity|constructor; assumption].
Qed.

Section WellFormedFacts.
Context {num : Type} {numbers : Numbers num} {casing : Casing}.

#[local] Abbreviation value := (value num).

Lemma primitive_to_string (v : value) : primitive v = true -> exists s, to_string v = Ok s.
Proof. destruct v as [| |[|]| | | |]; simpl; try discriminate; eauto. Qed.

Lemma text_like_or_else (a b : value) :
  text_like a = true -> text_like b = true -> text_like (or_else a b) = true.
Proof. unfold or_else. destruct (truthy a); auto. Qed.

Lemma primitive_or_else (a b : value) :
  primitive a = true -> primitive b = true -> primitive (or_else a b) = true.
Proof. unfold or_else. destruct (truthy a); auto. Qed.

Lemma text_like_points (t : value) : text_like t = true -> exists pts, extractPoints t = Ok pts.
Proof.
  intros H. unfold extractPoints. destruct (truthy t) eqn:T; simpl; [|eauto].
  destruct t; simpl in H, T; try (rewrite T in H; discriminate H); try discriminate; eauto.
Qed.

Lemma backend_entry_made (p : value) :
  backend_entry p = true -> exists x, make_entry p = Ok x /\ text_like (entry_text x) = true.
Proof.
  destruct p as [| | | | | |fields]; simpl; try discriminate. intros H.
  apply andb_true_iff in H as [H H3]. apply andb_true_iff in H as [H1 H2].
  unfold make_entry. simpl.
  destruct (primitive_to_string
              (or_else (own (js "paper_id") fields)
                 (or_else (own (js "paperId") fields)
                    (or_else (own (js "paper_id") fields) (own (js "paper_id") fields)))))
    as [id ->]; [repeat apply primitive_or_else; assumption|].
  simpl. eexists. split; [reflexivity|]. simpl. apply text_like_or_else; [exact H3|reflexivity].
Qed.

Lemma listed_paper_aligned (per : list (summary_entry num)) (s : value) :
  Forall (fun x => text_like (entry_text x) = true) per ->
  listed_paper s = true ->
  exists a, align per s = Ok a /\ text_like (aligned_text a) = true.
Proof.
  intros Hper. destruct s as [| | | | | |fields]; simpl; try discriminate. intros H.
  apply andb_true_iff in H as [H H3]. apply andb_true_iff in H as [H1 H2].
  unfold align. simpl. destruct (primitive_to_string _ H1) as [sid ->]. simpl.
  eexists. split; [reflexivity|]. simpl.
  destruct (List.find _ per) as [x|] eqn:F.
  - apply find_some in F as [F _]. rewrite List.Forall_forall in Hper. apply Hper, F.
  - repeat apply text_like_or_else; auto.
Qed.

(** X26: for a comparison result whose [papers] is an array of well-formed
    entries and a selection of well-formed papers, [computeDiffs] returns. *)
Theorem computeDiffs_returns (cr : value) (sel ps : list value) :
  get cr (js "papers") = Ok (VArr ps) ->
  forallb backend_entry ps = true ->
  forallb listed_paper sel = true ->
  exists d, computeDiffs cr sel = Ok d.
Proof.
  intros Hpapers Hps Hsel. rewrite forallb_forall in Hps, Hsel.
  destruct (mapM_total make_entry (fun x => text_like (entry_text x) = true) ps)
    as (per & Hper & Hper'); [intros p Hp; apply backend_entry_made, Hps, Hp|].
  destruct (mapM_total (align per) (fun a => text_like (aligned_text a) = true) sel)
    as (al & Hal & Hal'); [intros s Hs; apply listed_paper_aligned; [exact Hper'|apply Hsel, Hs]|].
  destruct (mapM_total (fun a => extractPoints (aligned_text a)) (fun _ => True) al)
    as (ptss & Hpts & _).
  { intros a Ha. rewrite List.Forall_forall in Hal'.
    destruct (text_like_points _ (Hal' a Ha)) as [pts Hp]. eauto. }
  destruct (computeDiffs_stages cr sel ps per al ptss Hpapers Hper Hal Hpts) as (d & Hd & _).
  eauto.
Qed.

Lemma list_member_elements (ok : value -> bool) (v : value) :
  list_member ok v = true ->
  exists xs, elements_of (or_else v (VArr [])) = Ok xs /\ forall x, In x xs -> ok x = true.
Proof.
  intros H. destruct (truthy v) eqn:T.
  - destruct v as [| | | | |xs|]; cbn [list_member] in H; try (rewrite T in H; discriminate H).
    rewrite forallb_forall in H. unfold or_else. simpl. eauto.
  - unfold or_else. rewrite T. exists []. split; [reflexivity|intros x []].
Qed.

Variable search : jsstring -> value.

(** X27: for a profile whose saved papers and search history are absent or
    lists of well-formed entries, the fallback recommendation computation
    returns (whatever the search answers). *)
Theorem compute_fallback_returns (fields : list (jsstring * value)) :
  list_member saved_paper (own (js "savedPapers") fields) = true ->
  list_member history_entry (own (js "searchHistory") fields) = true ->
  exists r, compute_fallback search (VObj fields) = Ok r.
Proof.
  intros Hs Hh.
  destruct (list_member_elements _ _ Hs) as (saved & Es & Hsaved).
  destruct (list_member_elements _ _ Hh) as (history & Eh & Hhistory).
  unfold compute_fallback. cbn [get bind]. rewrite Es. cbn [bind].
  destruct (mapM_total (fun p => get p (js "title")) (fun t => text_like t = true) saved)
    as (titles & -> & Ht).
  { intros p Hp. apply Hsaved in Hp. destruct p; simpl in Hp; try discriminate.
    apply andb_true_iff in Hp as [_ Hp]. simpl. eauto. }
  cbn [bind]. rewrite Eh. cbn [bind].
  destruct (mapM_total (fun h => get h (js "query")) (fun t => text_like t = true) (firstn 10 history))
    as (queries & -> & Hq).
  { intros h Hh'. apply firstn_sublist_In, Hhistory in Hh'.
    destruct h as [| | | | | |hf]; cbn [history_entry] in Hh'; try discriminate Hh'.
    exists (own (js "query") hf). split; [reflexivity|exact Hh']. }
  cbn [bind].
  destruct (mapM_total text_of (fun _ => True) (List.filter truthy (titles ++ queries)))
    as (texts & -> & _).
  { intros t Ht'. apply filter_In in Ht' as [Hin T].
    assert (Hl : text_like t = true).
    { rewrite List.Forall_forall in Ht, Hq. apply in_app_or in Hin as [Hin|Hin]; auto. }
    destruct t; simpl in Hl, T; try discriminate T; try discriminate Hl;
      try (rewrite T in Hl; discriminate Hl).
    simpl. eauto. }
  cbn [bind].
  destruct (mapM_total saved_id (fun _ => True) saved) as (ids & -> & _).
  { intros p Hp. apply Hsaved in Hp. destruct p; simpl in Hp; try discriminate.
    apply andb_true_iff in Hp as [Hp _]. unfold saved_id. simpl.
    destruct (primitive_to_string _ Hp) as [s ->]. eauto. }
  cbn [bind]. eauto.
Qed.

End WellFormedFacts.

(** ** A comparison that failed *)

Section FailedCompare.
Context {num : Type} {numbers : Numbers num} {casing : Casing}.

#[local] Abbreviation value := (value num).

Lemma runCompare_error (o : compare_outcome num) :
  (forall data, o <> Answered data) -> exists e, runCompare o = VObj [(js "error", e)].
Proof. destruct o; simpl; intros H; eauto. exfalso. eapply H. reflexivity. Qed.

(** X28: after a comparison that failed (an exception, or a response that is
    not ok) the views have an error to show and nothing else from the
    backend: [computeDiffs] finds no common and no unique point, and the
    evidence graph is synthesized from the selection alone, every edge with
    the label "Semantic relation" and no similarity. After a response that
    is not ok the error is truthy. *)
Theorem failed_compare_views (o : compare_outcome num) (sel : list value)
    (nodes : list (node num)) :
  (forall data, o <> Answered data) ->
  mapM make_node sel = Ok nodes ->
  computeDiffs (runCompare o) sel = Ok {| common := []; unique := ∅ |}
  /\ (exists edges,
        buildFallbackEvidenceGraph (runCompare o) sel = Ok (Synthesized nodes edges)
        /\ length edges = (length sel * (length sel - 1))%nat
        /\ forall e r, In e edges -> In r (evidence e) ->
             label r = js "Semantic relation" /\ similarity r = VNull)
  /\ match o with
     | Refused _ _ _ => exists e, get (runCompare o) (js "error") = Ok e /\ truthy e = true
     | _ => True
     end.
Proof.
  intros Ho Hnodes. destruct (runCompare_error o Ho) as [err Hcr].
  split; [|split].
  - rewrite Hcr. reflexivity.
  - rewrite Hcr. set (cr := VObj [(js "error", err)]).
    assert (Hemb : metric cr (js "embedding_similarity") = Ok VNull) by reflexivity.
    assert (Hkw : metric cr (js "keyword_overlap") = Ok VNull) by reflexivity.
    assert (Hsl : forall i j, similarity_label (VNull : value) i j = Ok (VNull, js "Semantic relation"))
      by reflexivity.
    exists (edges_of (map node_id nodes) VNull (length nodes)).
    split; [|split].
    + destruct (buildFallback_cases cr sel eq_refl) as [(eg & (Heg & e & es & He) & _)|(_ & ->)].
      { exfalso. unfold cr in Heg. simpl in Heg. injection Heg as <-. discriminate He. }
      unfold synthesize. rewrite Hnodes, Hemb, Hkw. simpl.
      destruct (loops_spec VNull VNull nodes) as [_ Hfwd]. rewrite Hfwd.
      * simpl. rewrite loops_edges_of; [reflexivity|]. intros i j _. rewrite Hsl. eauto.
      * intros i j _. apply evidence_between_label. rewrite Hsl. eauto.
    + rewrite edges_of_length, (mapM_length _ _ _ Hnodes). reflexivity.
    + intros e r He Hr. unfold edges_of in He. apply in_flat_map in He as ([i j] & _ & He).
      simpl in He. destruct He as [<-|[<-|[]]]; simpl in Hr; destruct Hr as [<-|[]];
        unfold evidence_at; rewrite Hsl; auto.
  - destruct o as [text|status statusText errBody|data]; [exact I| |exact I].
    simpl. eexists. split; [reflexivity|].
    unfold or_else. destruct (truthy (default VNull errBody)) eqn:T1; [exact T1|].
    destruct (truthy (VStr statusText)) eqn:T2; [exact T2|]. reflexivity.
Qed.

End FailedCompare.

(** * The claims at the example inputs *)

(** C2: the code throws where the claim promises a result. With a [null]
    similarity entry for the pair (0, 1), [buildFallbackEvidenceGraph]
    throws at [sim.toFixed]; with a [papers] member that is an object,
    [computeDiffs] throws at [papers.map]. *)
Theorem malformed_results_throw :
  buildFallbackEvidenceGraph null_similarity [paper_a; paper_b] = Throw
  /\ computeDiffs papers_not_array [paper_a; paper_b] = Throw.
Proof. split; vm_compute; reflexivity. Qed.

(** C4: the code recommends a paper that is saved. The saved paper has no
    [id] member, so the set of saved ids holds the string "undefined" while
    the candidate's derived id is its [paper_id]. *)
Theorem saved_paper_recommended :
  exists r,
    compute_fallback search_x profile_x = Ok r
    /\ papers r = [saved_without_id]
    /\ derived_id saved_without_id = Ok (js "X")
    /\ saved_id saved_without_id = Ok (js "undefined").
Proof. eexists. repeat split; vm_compute; reflexivity. Qed.


(** C1 fails for a selection of one paper: its points have the paper as
    their only owner, and they are put in [common], not in [unique]. *)
Lemma single_selection_not_unique :
  exists al d,
    mapM (align []) [paper_a] = Ok al
    /\ map aligned_id al = [js "1"]
    /\ mapM (fun a => extractPoints (aligned_text a)) al = Ok [[point_1; point_2]]
    /\ computeDiffs no_summaries [paper_a] = Ok d
    /\ display (toLowerCase point_1) (stream [(js "1", [point_1; point_2])]) = Some point_1
    /\ owners (toLowerCase point_1) [(js "1", [point_1; point_2])] = [js "1"]
    /\ common d = [point_1; point_2]
    /\ unique d !! js "1" = Some [].
Proof.
  eexists. eexists.
  split; [vm_compute; reflexivity|].
  split; [vm_compute; reflexivity|].
  split; [vm_compute; reflexivity|].
  split; [vm_compute; reflexivity|].
  repeat split; vm_compute; reflexivity.
Qed.

Lemma computeDiffs_classification_witness :
  exists al ptss,
    mapM (align []) [paper_a; paper_b] = Ok al
    /\ mapM (fun a => extractPoints (aligned_text a)) al = Ok ptss
    /\ exists d, computeDiffs no_summaries [paper_a; paper_b] = Ok d /\
         forall id pt, In (id, pt) (stream (combine (map aligned_id al) ptss)) ->
           exists text,
             display (toLowerCase pt) (stream (combine (map aligned_id al) ptss)) = Some text
             /\ (In text (common d) <->
                 length (owners (toLowerCase pt) (combine (map aligned_id al) ptss)) = 2%nat)
             /\ (forall P, In text (default [] (unique d !! P)) <->
                           owners (toLowerCase pt) (combine (map aligned_id al) ptss) = [P])
             /\ ((1 < length (owners (toLowerCase pt) (combine (map aligned_id al) ptss)) < 2)%nat ->
                 ~ In text (common d) /\ forall P, ~ In text (default [] (unique d !! P))).
Proof.
  eexists. eexists.
  split; [vm_compute; reflexivity|].
  split; [vm_compute; reflexivity|].
  apply (computeDiffs_classification no_summaries [paper_a; paper_b] [] []).
  - reflexivity.
  - reflexivity.
  - vm_compute; reflexivity.
  - vm_compute; reflexivity.
  - refine (bool_decide_unpack _ _). vm_compute. exact I.
  - simpl. lia.
Defined.



(** C3 fails for an absent comparison result, for which the graph is empty
    whatever the selection, and for a similarity entry that is [null], for
    which nothing is returned. *)
Lemma fallback_graph_not_always_synthesized :
  buildFallbackEvidenceGraph (VNull : value Z) [paper_a; paper_b] = Ok (Synthesized [] [])
  /\ (forall eg, ~ backend_edges null_similarity eg)
  /\ buildFallbackEvidenceGraph null_similarity [paper_a; paper_b] = Throw.
Proof.
  split; [reflexivity|]. split; [|vm_compute; reflexivity].
  intros eg (H & e & es & He). vm_compute in H. injection H as <-. discriminate He.
Qed.

Lemma buildFallbackEvidenceGraph_shape_witness :
  buildFallbackEvidenceGraph with_backend_graph [paper_a; paper_b] = Ok (Backend backend_graph)
  /\ buildFallbackEvidenceGraph (VBool false : value Z) [paper_a; paper_b] = Ok (Synthesized [] [])
  /\ exists edges ev,
       buildFallbackEvidenceGraph numeric_similarity [paper_a; paper_b]
       = Ok (Synthesized nodes_ab edges)
       /\ length edges = 2%nat
       /\ edges = flat_map (fun p => [directed_edge (map node_id nodes_ab) (fst p) (snd p) (ev p);
                                      directed_edge (map node_id nodes_ab) (snd p) (fst p) (ev p)])
                    (pairs 2).
Proof.
  split; [|split].
  - apply (proj1 (buildFallbackEvidenceGraph_shape with_backend_graph [paper_a; paper_b])).
    split; [reflexivity|]. eexists. eexists. vm_compute. reflexivity.
  - apply (proj1 (proj2 (buildFallbackEvidenceGraph_shape (VBool false) [paper_a; paper_b]))).
    reflexivity.
  - assert (Hno : forall eg, ~ backend_edges numeric_similarity eg).
    { intros eg (H & e & es & He). vm_compute in H. injection H as <-. discriminate He. }
    pose proof (proj2 (proj2 (buildFallbackEvidenceGraph_shape numeric_similarity [paper_a; paper_b]))
                  eq_refl Hno nodes_ab
                  (VArr [VArr [VNum 1%Z; VNum 0%Z]; VArr [VNum 0%Z; VNum 1%Z]])) as H.
    destruct H as (edges & ev & H1 & _ & _ & H4 & H5 & _).
    + vm_compute. reflexivity.
    + vm_compute. reflexivity.
    + intros i j e Hij He. simpl in Hij.
      assert (i = 0%nat /\ j = 1%nat) as [-> ->] by lia.
      vm_compute in He. injection He as He. subst e. eexists. reflexivity.
    + exists edges, ev. auto.
Defined.

(** C6: the code does not fall back to the abstract when the backend entry
    filed under the paper's id has no summary. The text from which
    [computeDiffs] takes the points of the paper is then the empty string,
    although the paper has an abstract, and no point of the paper reaches
    the result; the summary card of the same paper, which reads
    [summaryObj.summary || p.abstract || ...], shows that abstract. *)
Theorem matched_entry_hides_abstract :
  exists per a ab d,
    get entry_without_summary (js "papers") = Ok (VArr [bare_entry])
    /\ summaryText entry_without_summary paper_a = Ok ab
    /\ computeDiffs entry_without_summary [paper_a] = Ok d
    /\ common d = []
    /\ unique d !! js "1" = Some []
    /\ mapM make_entry [bare_entry] = Ok per
    /\ align per paper_a = Ok a
    /\ backend_id bare_entry = Ok (aligned_id a)
    /\ get bare_entry (js "summary") = Ok VUndef
    /\ get paper_a (js "abstract") = Ok ab
    /\ truthy ab = true
    /\ aligned_text a = VStr []
    /\ aligned_text a <> ab.
Proof.
  eexists. eexists. eexists. eexists.
  split; [vm_compute; reflexivity|].
  split; [vm_compute; reflexivity|].
  split; [vm_compute; reflexivity|].
  split; [vm_compute; reflexivity|].
  split; [vm_compute; reflexivity|].
  split; [vm_compute; reflexivity|].
  split; [vm_compute; reflexivity|].
  split; [vm_compute; reflexivity|].
  split; [vm_compute; reflexivity|].
  split; [vm_compute; reflexivity|].
  split; [vm_compute; reflexivity|].
  split; [vm_compute; reflexivity|].
  vm_compute. discriminate.
Qed.

Lemma resolved_text_witness :
  exists per a,
    mapM make_entry [bare_entry] = Ok per
    /\ align per paper_a = Ok a
    /\ exists id, get paper_a (js "id") = Ok id /\ to_string id = Ok (aligned_id a) /\
         ((exists i p sm,
             [bare_entry] !! i = Some p /\ backend_id p = Ok (aligned_id a)
             /\ (forall i' p', (i' < i)%nat -> [bare_entry] !! i' = Some p' ->
                               backend_id p' <> Ok (aligned_id a))
             /\ get p (js "summary") = Ok sm
             /\ aligned_text a = if truthy sm then sm else VStr [])
          \/ ((forall p, In p [bare_entry] -> backend_id p <> Ok (aligned_id a))
              /\ exists ab sm,
                   get paper_a (js "abstract") = Ok ab /\ get paper_a (js "summary") = Ok sm
                   /\ aligned_text a = if truthy ab then ab
                                       else if truthy sm then sm else VStr [])).
Proof.
  eexists. eexists.
  split; [vm_compute; reflexivity|].
  split; [vm_compute; reflexivity|].
  eapply (resolved_text [bare_entry]); vm_compute; reflexivity.
Defined.

(** C7 fails for an entry that is not a number: the label ends in the
    entry's string coercion, which no formatting to three decimals gives. *)
Lemma textual_entry_label :
  buildFallbackEvidenceGraph textual_similarity [paper_a; paper_b]
  = Ok (Synthesized nodes_ab
          [directed_edge (map node_id nodes_ab) 0 1 [textual_evidence];
           directed_edge (map node_id nodes_ab) 1 0 [textual_evidence]])
  /\ (exists emb, metric textual_similarity (js "embedding_similarity") = Ok emb
                  /\ entry emb 0 1 = Ok (Some (VStr (js "high"))))
  /\ label textual_evidence = js "Semantic similarity high"
  /\ forall n : Z, label textual_evidence <> js "Semantic similarity " ++ num_toFixed3 n.
Proof.
  split; [vm_compute; reflexivity|].
  split; [eexists; split; vm_compute; reflexivity|].
  split; [reflexivity|].
  intros n H.
  change (label textual_evidence) with (js "Semantic similarity " ++ js "high") in H.
  apply app_inv_head in H. cbn [num_toFixed3 integer_numbers] in H.
  apply (f_equal (@rev N)) in H. rewrite rev_app_distr in H.
  vm_compute in H. discriminate H.
Qed.

Lemma fallback_edge_label_witness :
  exists edges emb,
    buildFallbackEvidenceGraph numeric_similarity [paper_a; paper_b] = Ok (Synthesized nodes_ab edges)
    /\ metric numeric_similarity (js "embedding_similarity") = Ok emb
    /\ forall e, In e edges ->
         exists i j r,
           (i < j < length nodes_ab)%nat
           /\ (e = directed_edge (map node_id nodes_ab) i j [r] \/
               e = directed_edge (map node_id nodes_ab) j i [r])
           /\ match entry emb i j with
              | Ok None => label r = js "Semantic relation" /\ similarity r = VNull
              | Ok (Some (VNum n)) =>
                  label r = js "Semantic similarity " ++ num_toFixed3 n /\ similarity r = VNum n
              | Ok (Some x) =>
                  exists t, to_string x = Ok t /\
                            label r = js "Semantic similarity " ++ t /\ similarity r = x
              | Throw => False
              end.
Proof.
  eexists. eexists.
  split; [vm_compute; reflexivity|].
  split; [vm_compute; reflexivity|].
  apply (fallback_edge_label numeric_similarity [paper_a; paper_b]).
  - reflexivity.
  - vm_compute. reflexivity.
  - vm_compute. reflexivity.
Defined.

Lemma fallback_reverse_edge_shares_evidence_witness :
  exists edges,
    buildFallbackEvidenceGraph numeric_similarity [paper_a; paper_b] = Ok (Synthesized nodes_ab edges)
    /\ exists ev : nat -> nat -> evidence_record Z,
         edges = flat_map (fun p => [directed_edge (map node_id nodes_ab) (fst p) (snd p) [ev (fst p) (snd p)];
                                     directed_edge (map node_id nodes_ab) (snd p) (fst p) [ev (fst p) (snd p)]])
                   (pairs (length nodes_ab))
         /\ forall i j, (i < j < length nodes_ab)%nat ->
              ref_id (ev i j) = js "client:semantic:" ++ decimal i ++ js "-" ++ decimal j
              /\ ref_id (ev i j) <> js "client:semantic:" ++ decimal j ++ js "-" ++ decimal i
              /\ shared_keywords (ev i j) = [].
Proof.
  eexists. split; [vm_compute; reflexivity|].
  apply (fallback_reverse_edge_shares_evidence numeric_similarity [paper_a; paper_b]).
  vm_compute. reflexivity.
Defined.

(** C8 fails for a year that follows a word: both occur once, the word is
    seen first, and the year is ranked first. *)
Lemma year_ranks_before_earlier_word :
  topics_of corpus_with_year = [js "2023"; js "transformers"]
  /\ words corpus_with_year = [js "transformers"; js "2023"]
  /\ occurrences (js "2023") (words corpus_with_year)
     = occurrences (js "transformers") (words corpus_with_year)
  /\ ~ StronglySorted (ranks_before_first_seen (words corpus_with_year))
         (topics_of corpus_with_year).
Proof.
  split; [vm_compute; reflexivity|].
  split; [vm_compute; reflexivity|].
  split; [vm_compute; reflexivity|].
  intros H. apply StronglySorted_inv in H as [_ H].
  apply Forall_inv in H. unfold ranks_before_first_seen in H.
  vm_compute in H. destruct H as [H|[_ H]]; lia.
Qed.

Lemma topics_ranking_witness :
  (forall t, In t corpus_with_year -> tokenized t (split_tokens false t))
  /\ (forall w, In w (words corpus_with_year) <->
        exists t tok, In t corpus_with_year /\ In tok (split_tokens false t) /\ w = toLowerCase tok
                      /\ (3 < length w)%nat /\ ~ In w stopwords)
  /\ exists ranking,
       topics_of corpus_with_year = firstn 8 ranking
       /\ NoDup ranking
       /\ (forall w, In w ranking <-> In w (words corpus_with_year))
       /\ StronglySorted (ranks_before (words corpus_with_year)) ranking.
Proof.
  apply (topics_ranking corpus_with_year).
  vm_compute. intros [H|[H|[]]]; discriminate H.
Defined.

(** C9: the code leaves a selected paper without a key. For the paper whose
    string-coerced id is [__proto__] the assignment [unique[a.id] = []]
    makes the array the prototype of [unique] and creates no property: the
    only own key of the result is the id of the other paper, although
    [unique['__proto__']] still reads the list of the first one. *)
Theorem proto_id_has_no_key :
  exists d,
    computeDiffs no_summaries [paper_proto; paper_b] = Ok d
    /\ (exists id, get paper_proto (js "id") = Ok id /\ to_string id = Ok (js "__proto__"))
    /\ (exists id, get paper_b (js "id") = Ok id /\ to_string id = Ok (js "2"))
    /\ ~ own_key d (js "__proto__")
    /\ (forall k, own_key d k <-> k = js "2")
    /\ unique d !! js "__proto__" = Some [js "Objects inherit the accessor of their prototype."].
Proof.
  edestruct (computeDiffs_stages no_summaries [paper_proto; paper_b] [] []) as (d & Hd & _ & Hu);
    [reflexivity|reflexivity|vm_compute; reflexivity|vm_compute; reflexivity|].
  simpl map in Hu.
  exists d. split; [exact Hd|].
  split; [eexists; split; reflexivity|]. split; [eexists; split; reflexivity|].
  split; [intros [H _]; apply H; reflexivity|]. split.
  - intros k. unfold own_key. rewrite Hu. case_bool_decide as Hk.
    + apply elem_of_cons in Hk as [->|Hk].
      * split; [intros [H _]; exfalso; apply H; reflexivity|intros H; discriminate H].
      * apply list_elem_of_singleton in Hk. subst k.
        split; [reflexivity|]. intros _. split; [discriminate|eauto].
    + split; [intros [_ [? H]]; discriminate H|].
      intros ->. exfalso. apply Hk. right. left.
  - rewrite Hu. vm_compute. reflexivity.
Qed.

Lemma computeDiffs_own_keys_witness :
  exists d, computeDiffs entry_without_summary [paper_a; paper_b] = Ok d
            /\ (forall k, own_key d k <->
                   k <> js "__proto__"
                   /\ exists s id, In s [paper_a; paper_b] /\ get s (js "id") = Ok id
                                   /\ to_string id = Ok k)
            /\ (forall s id k, In s [paper_a; paper_b] -> get s (js "id") = Ok id ->
                   to_string id = Ok k -> is_Some (unique d !! k)).
Proof.
  eapply (computeDiffs_own_keys entry_without_summary [paper_a; paper_b] [bare_entry]).
  - reflexivity.
  - vm_compute. reflexivity.
  - vm_compute. reflexivity.
  - vm_compute. reflexivity.
Defined.

Lemma recommendations_distinct_witness :
  exists r, compute_fallback search_x profile_x = Ok r
            /\ exists ids, mapM derived_id (papers r) = Ok ids /\ NoDup ids.
Proof.
  eexists. split; [vm_compute; reflexivity|].
  apply (recommendations_distinct search_x profile_x). vm_compute. reflexivity.
Defined.

Lemma recommendations_exclude_saved_ids_witness :
  exists r, compute_fallback search_x profile_x = Ok r
            /\ forall p s pid sid,
                 In p (papers r) -> In s [saved_without_id] ->
                 derived_id p = Ok pid -> saved_id s = Ok sid -> pid <> sid.
Proof.
  eexists. split; [vm_compute; reflexivity|].
  apply (recommendations_exclude_saved_ids search_x profile_x).
  - vm_compute. reflexivity.
  - reflexivity.
Defined.

Lemma absent_results_are_empty_witness :
  computeDiffs (VNull : value Z) [paper_a; paper_b] = Ok {| common := []; unique := ∅ |}
  /\ buildFallbackEvidenceGraph (VNull : value Z) [paper_a; paper_b] = Ok (Synthesized [] []).
Proof.
  apply (proj1 (absent_results_are_empty (VNull : value Z) [paper_a; paper_b])). reflexivity.
Defined.

(** * The further properties at the example inputs *)

Lemma formatAuthors_names_witness :
  formatAuthors (VArr authors_mixed) = Ok (js "Ann Lee, Bob Ray, Cy Dee").
Proof.
  apply (formatAuthors_names authors_mixed [js "Ann Lee"; js "Bob Ray"; []; js "Cy Dee"]).
  repeat constructor.
Defined.

Lemma formatAuthors_skips_blank_witness :
  formatAuthors (VArr ([str "Ann Lee"] ++ VNull :: [str "Bob Ray"]))
  = formatAuthors (VArr ([str "Ann Lee"] ++ [str "Bob Ray"])).
Proof. apply (formatAuthors_skips_blank [str "Ann Lee"] [str "Bob Ray"] VNull). reflexivity. Defined.

Lemma formatAuthors_unnamed_object_witness :
  formatAuthors (VArr [VObj affiliation_only]) = Ok (js "[object Object]").
Proof. apply (formatAuthors_unnamed_object affiliation_only); reflexivity. Defined.

Lemma interests_round_trip_witness :
  exists f u, openEdit profile_with_interests = Ok f
              /\ saveProfile profile_with_interests f = Ok u
              /\ update_interests u = [js "nlp"; js "graph learning"].
Proof.
  apply (interests_round_trip profile_with_interests profile_with_interests (VStr (js "u1"))
           [js "nlp"; js "graph learning"]).
  - reflexivity.
  - reflexivity.
  - repeat constructor; try discriminate; reflexivity.
Defined.

Lemma saved_interests_clean_witness :
  exists u, saveProfile profile_with_interests careless_form = Ok u
            /\ update_interests u = [js "nlp"; js "graph learning"]
            /\ Forall (clean is_comma) (update_interests u).
Proof.
  eexists. split; [reflexivity|]. split; [vm_compute; reflexivity|].
  apply (saved_interests_clean profile_with_interests careless_form). reflexivity.
Defined.

Lemma refs_separated_witness :
  exists la lb,
    refs (VStr (js "10.1000/xyz ") : value Z) = Ok la
    /\ refs (VStr (js " Attention is all you need;") : value Z) = Ok lb
    /\ refs (VStr (js "10.1000/xyz " ++ 10 :: js " Attention is all you need;") : value Z)
       = Ok (la ++ lb)
    /\ Forall (clean is_reference_separator) (la ++ lb).
Proof. apply (refs_separated (js "10.1000/xyz ") (js " Attention is all you need;") 10). reflexivity. Defined.

Lemma topic_toggle_twice_witness :
  Permutation (selectedTopics (handleTopicChange (js "Robotics")
                                 (handleTopicChange (js "Robotics") filters_robotics)))
              (selectedTopics filters_robotics)
  /\ (~ In (js "Robotics") (selectedTopics filters_robotics) ->
      selectedTopics (handleTopicChange (js "Robotics")
                        (handleTopicChange (js "Robotics") filters_robotics))
      = selectedTopics filters_robotics)
  /\ (In (js "Robotics") (selectedTopics filters_robotics) ->
      selectedTopics (handleTopicChange (js "Robotics")
                        (handleTopicChange (js "Robotics") filters_robotics))
      = List.filter (fun t => negb (jseq t (js "Robotics"))) (selectedTopics filters_robotics)
        ++ [js "Robotics"]).
Proof.
  apply (topic_toggle_twice (js "Robotics") filters_robotics).
  refine (bool_decide_unpack _ _). vm_compute. exact I.
Defined.

Lemma year_range_invariant_witness :
  year_invariant 2024 (handleYearFromChange (js "1850") filters_robotics)
  /\ snd (yearRange (handleYearFromChange (js "1850") filters_robotics)) = 2024%Z
  /\ year_invariant 2024 (handleYearToChange 2024 (js "1850") filters_robotics)
  /\ fst (yearRange (handleYearToChange 2024 (js "1850") filters_robotics)) = 2000%Z.
Proof.
  apply (year_range_invariant 2024 (js "1850") filters_robotics).
  unfold year_invariant. simpl. lia.
Defined.

Lemma year_typed_witness :
  yearRange (handleYearFromChange (js "2010") filters_robotics) = (2010, 2024)%Z
  /\ yearRange (handleYearToChange 2024 (js "2010") filters_robotics) = (2000, 2010)%Z
  /\ page (handleYearFromChange (js "2010") filters_robotics) = 1%Z
  /\ page (handleYearToChange 2024 (js "2010") filters_robotics) = 1%Z.
Proof.
  apply (year_typed 2024 2010 filters_robotics).
  unfold year_invariant. simpl. lia.
Defined.

Lemma year_blank_ignored_witness :
  handleYearFromChange (js " ") filters_robotics = filters_robotics
  /\ handleYearToChange 2024 (js " ") filters_robotics = filters_robotics.
Proof.
  apply (year_blank_ignored 2024 (js " ") filters_robotics). repeat constructor.
Defined.

Lemma summary_card_agrees_witness :
  exists per a,
    mapM make_entry [entry_with_summary] = Ok per
    /\ align per paper_a = Ok a
    /\ summaryText with_summary paper_a = Ok (aligned_text a).
Proof.
  eexists. eexists.
  split; [vm_compute; reflexivity|].
  split; [vm_compute; reflexivity|].
  eapply (summary_card_agrees with_summary paper_a).
  - reflexivity.
  - vm_compute. reflexivity.
  - vm_compute. reflexivity.
  - intros p [<-|[]]. eexists. split; reflexivity.
  - reflexivity.
Defined.

Lemma summary_card_never_blank_witness :
  exists t, summaryText no_summaries paper_b = Ok t /\ truthy t = true.
Proof.
  eexists. split; [vm_compute; reflexivity|].
  apply (summary_card_never_blank no_summaries paper_b). vm_compute. reflexivity.
Defined.

Lemma synthesized_edges_closed_witness :
  exists edges,
    buildFallbackEvidenceGraph numeric_similarity [paper_a; paper_b] = Ok (Synthesized nodes_ab edges)
    /\ forall e, In e edges ->
         exists i j ni nj,
           i <> j
           /\ nodes_ab !! i = Some ni /\ nodes_ab !! j = Some nj
           /\ source e = node_id ni /\ target e = node_id nj
           /\ length (evidence e) = 1%nat.
Proof.
  eexists. split; [vm_compute; reflexivity|].
  intros e He.
  eapply (synthesized_edges_closed numeric_similarity [paper_a; paper_b] nodes_ab _ e).
  2: exact He.
  vm_compute. reflexivity.
Defined.

Lemma computeDiffs_lists_witness :
  exists d, computeDiffs no_summaries [paper_a; paper_b] = Ok d
    /\ NoDup (common d)
    /\ (forall P l, unique d !! P = Some l ->
          NoDup l /\ forall t, In t l -> ~ In t (common d))
    /\ (forall P Q l l' t, unique d !! P = Some l -> unique d !! Q = Some l' ->
          In t l -> In t l' -> P = Q)
    /\ (forall t, In t (common d) \/ (exists P l, unique d !! P = Some l /\ In t l) ->
          (20 < length t)%nat
          /\ exists pts, In pts [[point_1; point_2]; [point_3; point_4]] /\ In t pts).
Proof.
  eapply (computeDiffs_lists no_summaries [paper_a; paper_b] [] []).
  - reflexivity.
  - reflexivity.
  - vm_compute. reflexivity.
  - vm_compute. reflexivity.
Defined.

Lemma same_points_all_common_witness :
  exists d, computeDiffs no_summaries [paper_a; paper_c] = Ok d
    /\ (forall P l, unique d !! P = Some l -> l = [])
    /\ (forall t, In t (common d) -> In t [point_1; point_2])
    /\ (forall pt, In pt [point_1; point_2] ->
          exists t, In t (common d) /\ toLowerCase t = toLowerCase pt)
    /\ NoDup (common d)
    /\ NoDup (map toLowerCase (common d)).
Proof.
  eapply (same_points_all_common no_summaries [paper_a; paper_c] [] []
            _ [[point_1; point_2]; [point_1; point_2]] [point_1; point_2]).
  - reflexivity.
  - reflexivity.
  - vm_compute. reflexivity.
  - vm_compute. reflexivity.
  - refine (bool_decide_unpack _ _). vm_compute. exact I.
  - intros pts' [<-|[<-|[]]]; reflexivity.
  - discriminate.
Defined.

Lemma pages_cover_witness :
  1 <= totalPages 25
  /\ 25 <= 10 * totalPages 25
  /\ (0 < 25 -> 10 * (totalPages 25 - 1) < 25)
  /\ (25 = 0 -> totalPages 25 = 1).
Proof. apply (pages_cover 25). vm_compute. reflexivity. Defined.

Lemma recommendations_from_search_witness :
  exists r, compute_fallback search_x profile_x = Ok r
    /\ (forall p, In p (papers r) ->
          exists t, In t (firstn 4 (topics r)) /\ In p (offered (search_x t)))
    /\ (length (papers r) <= 10)%nat
    /\ (length (topics r) <= 8)%nat
    /\ (topics r = [] -> papers r = []).
Proof.
  eexists. split; [vm_compute; reflexivity|].
  apply (recommendations_from_search search_x profile_x). vm_compute. reflexivity.
Defined.

Lemma fresh_profile_no_recommendations_witness :
  compute_fallback search_x fresh_profile = Ok {| topics := []; papers := [] |}.
Proof.
  apply (fresh_profile_no_recommendations search_x fresh_profile VUndef VUndef); reflexivity.
Defined.

Lemma extractPoints_lines_witness :
  exists pa pb,
    extractPoints (VStr (js "Models improve performance significantly. ") : value Z) = Ok pa
    /\ extractPoints (VStr (js "  - Uses transformers in every layer.") : value Z) = Ok pb
    /\ extractPoints (VStr (js "Models improve performance significantly. "
                            ++ 10 :: js "  - Uses transformers in every layer.") : value Z)
       = Ok (pa ++ pb).
Proof.
  apply (extractPoints_lines (js "Models improve performance significantly. ")
           (js "  - Uses transformers in every layer.") 10).
  left. reflexivity.
Defined.

Lemma extractPoints_one_sentence_witness :
  exists pts,
    extractPoints (VStr (js "Models improve performance significantly. Uses transformers in every layer.")
                   : value Z) = Ok pts
    /\ forall f, In f pts ->
         Forall (fun c => c <> 10 /\ c <> 13) f
         /\ forall a x y b, f = a ++ x :: y :: b -> is_terminator x = true -> is_space y = false.
Proof.
  eexists. split; [vm_compute; reflexivity|].
  intros f Hf.
  eapply (extractPoints_one_sentence
            (js "Models improve performance significantly. Uses transformers in every layer.") _ f).
  2: exact Hf.
  vm_compute. reflexivity.
Defined.

Lemma computeDiffs_returns_witness :
  exists d, computeDiffs with_summary [paper_a; paper_b] = Ok d.
Proof.
  apply (computeDiffs_returns with_summary [paper_a; paper_b] [entry_with_summary]); reflexivity.
Defined.

Lemma compute_fallback_returns_witness :
  exists r, compute_fallback search_x profile_x = Ok r.
Proof.
  apply (compute_fallback_returns search_x [(js "savedPapers", VArr [saved_without_id])]);
    reflexivity.
Defined.

Lemma failed_compare_views_witness :
  computeDiffs (runCompare (Refused 500 (js "Internal Server Error") None)) [paper_a; paper_b]
  = Ok {| common := []; unique := ∅ |}
  /\ (exists edges,
        buildFallbackEvidenceGraph (runCompare (Refused 500 (js "Internal Server Error") None))
          [paper_a; paper_b]
        = Ok (Synthesized nodes_ab edges)
        /\ length edges = 2%nat
        /\ forall e r, In e edges -> In r (evidence e) ->
             label r = js "Semantic relation" /\ similarity r = VNull)
  /\ (exists e, get (runCompare (Refused 500 (js "Internal Server Error") None : compare_outcome Z))
                     (js "error") = Ok e /\ truthy e = true).
Proof.
  apply (failed_compare_views (Refused 500 (js "Internal Server Error") None) [paper_a; paper_b] nodes_ab).
  - discriminate.
  - vm_compute. reflexivity.
Defined.
